(** * vpn_checker: the URI parser and the liveness-checking orchestrator

    A shallow embedding of [internal/parser/parser.go] and of the checker
    package ([CheckConfig], [CheckAll], [freePort], [waitForPort]), with the
    properties of the specification proved over it.

    Go values are modelled as follows: [string] is a byte string (Rocq
    [string], one [ascii] per byte); [int] is a 64-bit integer carried in [Z];
    [time.Duration] and clock readings are nanoseconds in [Z]; [error] values
    keep the shape they have in Go ([fmt.Errorf] with [%w] wraps its cause);
    a slice written by index is a list with stdpp's lookup and insert. *)

From Stdlib Require Import ZArith NArith Ascii String SpecFloat.
From Equations Require Import Equations.
From stdpp Require Import base tactics option list gmap strings pretty relations.

Local Open Scope string_scope.
Local Open Scope list_scope.
Local Open Scope Z_scope.

(** ** Errors *)

(** Go [error] values built by the code and by the library calls it makes. *)
Inductive error : Type :=
  | errorString (msg : string)            (* fmt.Errorf without a cause *)
  | wrapError (prefix : string) (cause : error)
                                           (* fmt.Errorf(prefix + ": %w", cause) *)
  | CorruptInputError (pos : Z)            (* encoding/base64 *)
  | NumError (fn num : string) (range : bool)
                                           (* strconv: ErrSyntax, or ErrRange when [range] *)
  | EscapeError (escape : string)          (* net/url: a malformed percent-escape *)
  | LibError (text : string).              (* net/url and encoding/json failures *)

(** A Go pair [(value, err)] in which exactly one side is meaningful. *)
Inductive result (A : Type) : Type :=
  | Ok (a : A)
  | Err (e : error).
Arguments Ok {A} a.
Arguments Err {A} e.

Definition bind {A B} (r : result A) (k : A -> result B) : result B :=
  match r with Ok a => k a | Err e => Err e end.

(** [wrap prefix r] is the idiom
    [if err != nil { return nil, fmt.Errorf(prefix + ": %w", err) }]. *)
Definition wrap {A} (prefix : string) (r : result A) : result A :=
  match r with Ok a => Ok a | Err e => Err (wrapError prefix e) end.

(** A Go pair [(value, err)] in which the value is kept next to the error,
    read through [if err != nil { return ... }]. *)
Definition checked {A} (p : A * option error) : result A :=
  match p with
  | (a, None) => Ok a
  | (_, Some e) => Err e
  end.

Notation "'let*' x ':=' r 'in' k" := (bind r (fun x => k))
  (at level 10, x name, r at level 100, k at level 200).

(** ** The Go standard library, as far as the parser calls it *)

Module strs.

(** strings.HasPrefix *)
Fixpoint HasPrefix (s p : string) {struct p} : bool :=
  match p, s with
  | EmptyString, _ => true
  | String c p', String d s' => if Ascii.eqb c d then HasPrefix s' p' else false
  | String _ _, EmptyString => false
  end.

(** [s[n:]] *)
Fixpoint drop (n : nat) (s : string) : string :=
  match n, s with
  | O, _ => s
  | S n', String _ s' => drop n' s'
  | S _, EmptyString => EmptyString
  end.

(** strings.TrimPrefix *)
Definition TrimPrefix (s p : string) : string :=
  if HasPrefix s p then drop (String.length p) s else s.

(** The part of [s] before the first byte [c], and the part after it;
    [None] when [c] does not occur ([strings.IndexByte] returning -1). *)
Fixpoint cut (c : ascii) (s : string) : option (string * string) :=
  match s with
  | EmptyString => None
  | String d s' =>
      if Ascii.eqb d c then Some (EmptyString, s')
      else match cut c s' with
           | Some (a, b) => Some (String d a, b)
           | None => None
           end
  end.

(** [s[:strings.IndexByte(s, c)]] when the index is >= 0, else [s]. *)
Definition before (c : ascii) (s : string) : string :=
  match cut c s with Some (a, _) => a | None => s end.

(** strings.SplitN(s, string(sep), 2) for a one-byte separator: at most
    two pieces, the second being the unsplit remainder. *)
Definition SplitN2 (s : string) (sep : ascii) : list string :=
  match cut sep s with
  | Some (a, b) => [a; b]
  | None => [s]
  end.

(** Whether the byte [c] occurs in [s]. *)
Fixpoint contains (c : ascii) (s : string) : bool :=
  match s with
  | EmptyString => false
  | String d s' => Ascii.eqb d c || contains c s'
  end.

(** Whether every byte of [s] satisfies [f]. *)
Fixpoint forallb (f : ascii -> bool) (s : string) : bool :=
  match s with
  | EmptyString => true
  | String c s' => f c && forallb f s'
  end.

End strs.

Module strconv.

Definition int_min : Z := - 2 ^ 63.
Definition int_max : Z := 2 ^ 63 - 1.

Definition digit (c : ascii) : option Z :=
  let n := Z.of_N (N_of_ascii c) in
  if (48 <=? n) && (n <=? 57) then Some (n - 48) else None.

Definition uint64_max : Z := 2 ^ 64 - 1.

(** What [ParseUint(s, 10, 64)] makes of the digits of a number. *)
Inductive scan : Type :=
  | Value (n : Z)
  | Syntax          (* a byte that is not a decimal digit *)
  | Range.          (* the value does not fit 64 bits *)

(** The loop of [ParseUint] in base 10, with [n] the value read so far:
    the bytes are taken from left to right, and the first that is not a
    digit, or that takes the value out of 64 bits, ends the loop. *)
Fixpoint ParseUint (s : string) (n : Z) : scan :=
  match s with
  | EmptyString => Value n
  | String c s' =>
      match digit c with
      | None => Syntax
      | Some d =>
          if uint64_max / 10 + 1 <=? n then Range
          else if uint64_max <? n * 10 + d then Range
          else ParseUint s' (n * 10 + d)
      end
  end.

(** strconv.Atoi on a 64-bit platform, as the Go pair [(n, err)]: an
    optional sign, then at least one decimal digit. A syntax error comes
    with the value 0; a value outside the range of [int] comes with
    [ErrRange] and the nearest bound. (The fast path of [Atoi] for short
    texts computes the same as [ParseInt].) *)
Definition Atoi (s : string) : Z * option error :=
  let syntax := (0, Some (NumError "Atoi" s false)) in
  let range (neg : bool) :=
    (if neg then int_min else int_max, Some (NumError "Atoi" s true)) in
  let body (neg : bool) (s' : string) :=
    match s' with
    | EmptyString => syntax
    | String _ _ =>
        match ParseUint s' 0 with
        | Syntax => syntax
        | Range => range neg
        | Value un =>
            if negb neg && (2 ^ 63 <=? un) then range neg
            else if neg && (2 ^ 63 <? un) then range neg
            else (if neg then - un else un, None)
        end
    end in
  match s with
  | EmptyString => syntax
  | String c s' =>
      if Ascii.eqb c "-"%char then body true s'
      else if Ascii.eqb c "+"%char then body false s'
      else body false s
  end.

(** The conversion [int(x)] of a float64 on amd64: truncation toward zero;
    a NaN, an infinity or a value outside the range of [int] gives the
    "integer indefinite" value, the least [int]. *)
Definition float64_to_int (x : spec_float) : Z :=
  match x with
  | S754_zero _ => 0
  | S754_infinity _ | S754_nan => int_min
  | S754_finite s m e =>
      let mag := if 0 <=? e then Z.pos m * 2 ^ e else Z.pos m / 2 ^ (- e) in
      let v := if s then - mag else mag in
      if (int_min <=? v) && (v <=? int_max) then v else int_min
  end.

End strconv.

Module fmt.

(** The verb [%d] for an [int]. *)
Definition d (n : Z) : string := pretty n.

(** fmt.Sprintf("%s:%d", host, port) *)
Definition host_port (host : string) (port : Z) : string :=
  host +:+ ":" +:+ d port.

End fmt.

Module url.

Definition unhex (c : ascii) : option Z :=
  let n := Z.of_N (N_of_ascii c) in
  if (48 <=? n) && (n <=? 57) then Some (n - 48)
  else if (97 <=? n) && (n <=? 102) then Some (n - 97 + 10)
  else if (65 <=? n) && (n <=? 70) then Some (n - 65 + 10)
  else None.

Definition byte_of_Z (n : Z) : ascii := ascii_of_N (Z.to_N n).

(** [s[:3]] when [len(s) > 3], else [s]. *)
Definition clip3 (s : string) : string :=
  match s with
  | String a (String b (String c _)) => String a (String b (String c EmptyString))
  | _ => s
  end.

(** url.QueryUnescape: [%XX] becomes the byte XX and [+] becomes a space;
    a [%] not followed by two hexadecimal digits is an [EscapeError]. The
    library validates in a first pass and rewrites in a second; both walk
    the string the same way and are fused here. *)
Fixpoint QueryUnescape (s : string) : result string :=
  match s with
  | EmptyString => Ok EmptyString
  | String c rest =>
      if Ascii.eqb c "%"%char then
        match rest with
        | String h1 (String h2 rest') =>
            match unhex h1, unhex h2 with
            | Some a, Some b =>
                let* t := QueryUnescape rest' in
                Ok (String (byte_of_Z (Z.lor (Z.shiftl a 4) b)) t)
            | _, _ => Err (EscapeError (clip3 s))
            end
        | _ => Err (EscapeError (clip3 s))
        end
      else if Ascii.eqb c "+"%char then
        let* t := QueryUnescape rest in Ok (String " " t)
      else
        let* t := QueryUnescape rest in Ok (String c t)
  end.

(** The bytes that [QueryUnescape] copies: all but [%] and [+]. *)
Definition plain (c : ascii) : bool :=
  negb (Ascii.eqb c "%"%char) && negb (Ascii.eqb c "+"%char).

(** [s] with every [+] replaced by a space. *)
Fixpoint plus_to_space (s : string) : string :=
  match s with
  | EmptyString => EmptyString
  | String c s' =>
      String (if Ascii.eqb c "+"%char then " "%char else c) (plus_to_space s')
  end.

(** What the parser reads off a parsed [*url.URL]. *)
Record URL : Type := {
  Hostname : string;                  (* u.Hostname() *)
  Port : string;                      (* u.Port() *)
  Username : string;                  (* u.User.Username() *)
  UserString : string;                (* u.User.String() *)
  Query : gmap string (list string);  (* u.Query() *)
  Fragment : string                   (* u.Fragment *)
}.

(** url.Values.Get: the first value stored under the key, or the empty
    string. *)
Definition Get (q : gmap string (list string)) (key : string) : string :=
  match q !! key with
  | Some (v :: _) => v
  | _ => EmptyString
  end.

End url.

Module base64.

(** An [*Encoding]: its 64-byte alphabet and its padding byte, if any.
    None of the encodings used here is strict. *)
Record Encoding : Type := {
  alphabet : string;
  padChar : option ascii
}.

Definition encodeStd : string :=
  "ABCDEFGHIJKLMNOPQRSTUVWXYZabcdefghijklmnopqrstuvwxyz0123456789+/".
Definition encodeURL : string :=
  "ABCDEFGHIJKLMNOPQRSTUVWXYZabcdefghijklmnopqrstuvwxyz0123456789-_".

Definition StdEncoding : Encoding :=
  {| alphabet := encodeStd; padChar := Some "="%char |}.
Definition URLEncoding : Encoding :=
  {| alphabet := encodeURL; padChar := Some "="%char |}.
Definition RawURLEncoding : Encoding :=
  {| alphabet := encodeURL; padChar := None |}.

Fixpoint index_from (c : ascii) (s : string) (i : Z) : option Z :=
  match s with
  | EmptyString => None
  | String d s' => if Ascii.eqb d c then Some i else index_from c s' (i + 1)
  end.

(** [enc.decodeMap[c]], with [None] for the library's 0xff. *)
Definition decodeMap (enc : Encoding) (c : ascii) : option Z :=
  index_from c (alphabet enc) 0.

(** [enc.encode[v]] for a 6-bit [v]. *)
Definition encodeChar (enc : Encoding) (v : Z) : ascii :=
  match String.get (Z.to_nat v) (alphabet enc) with
  | Some c => c
  | None => "000"%char
  end.

Definition byte_val (c : ascii) : Z := Z.of_N (N_of_ascii c).
Definition byte_of (n : Z) : ascii := ascii_of_N (Z.to_N (Z.land n 255)).

Definition is_pad (enc : Encoding) (c : ascii) : bool :=
  match padChar enc with
  | Some p => Ascii.eqb c p
  | None => false
  end.

Definition pad (enc : Encoding) : string :=
  match padChar enc with
  | Some p => String p EmptyString
  | None => EmptyString
  end.

(** Encoding.EncodeToString *)
Fixpoint EncodeToString (enc : Encoding) (src : string) : string :=
  let ch v := encodeChar enc (Z.land v 63) in
  match src with
  | EmptyString => EmptyString
  | String a EmptyString =>
      let val := Z.shiftl (byte_val a) 16 in
      String (ch (Z.shiftr val 18)) (String (ch (Z.shiftr val 12))
        (pad enc +:+ pad enc))
  | String a (String b EmptyString) =>
      let val := Z.lor (Z.shiftl (byte_val a) 16) (Z.shiftl (byte_val b) 8) in
      String (ch (Z.shiftr val 18)) (String (ch (Z.shiftr val 12))
        (String (ch (Z.shiftr val 6)) (pad enc)))
  | String a (String b (String c rest)) =>
      let val := Z.lor (Z.lor (Z.shiftl (byte_val a) 16)
                              (Z.shiftl (byte_val b) 8)) (byte_val c) in
      String (ch (Z.shiftr val 18)) (String (ch (Z.shiftr val 12))
        (String (ch (Z.shiftr val 6)) (String (ch val)
          (EncodeToString enc rest))))
  end.

Definition is_nl (c : ascii) : bool :=
  Ascii.eqb c "010"%char || Ascii.eqb c "013"%char.

(** The loop [for si < len(src) && (src[si] == '\n' || src[si] == '\r')]. *)
Fixpoint skip_nl (src : string) (si : Z) : string * Z :=
  match src with
  | EmptyString => (src, si)
  | String c rest => if is_nl c then skip_nl rest (si + 1) else (src, si)
  end.

(** The end of [decodeQuantum]: the first [dlen - 1] bytes of the 24-bit
    value assembled from the four 6-bit entries of [dbuf]. *)
Definition quantum_bytes (dbuf : list Z) (dlen : nat) : string :=
  let val := Z.lor (Z.lor (Z.lor (Z.shiftl (dbuf !!! 0%nat) 18)
                                 (Z.shiftl (dbuf !!! 1%nat) 12))
                          (Z.shiftl (dbuf !!! 2%nat) 6))
                   (dbuf !!! 3%nat) in
  let b0 := byte_of (Z.shiftr val 16) in
  let b1 := byte_of (Z.shiftr val 8) in
  let b2 := byte_of val in
  match dlen with
  | 4%nat => String b0 (String b1 (String b2 EmptyString))
  | 3%nat => String b0 (String b1 EmptyString)
  | 2%nat => String b0 EmptyString
  | _ => EmptyString
  end.

(** After the padding of a quantum: only newlines may follow. *)
Definition after_padding (rest : string) (si : Z) (out : string)
    : result string :=
  let '(rest', si') := skip_nl rest si in
  match rest' with
  | EmptyString => Ok out
  | String _ _ => Err (CorruptInputError si')
  end.

(** [Encoding.Decode] with [decodeQuantum]: [src] is what is left of the
    input from offset [si] on, [j] and [dbuf] are the position in, and the
    content of, the current quantum, [out] the bytes decoded so far. The
    loop of [Decode] starts the next quantum where the previous one ended,
    so both loops are one recursion on the input. *)
Fixpoint decode (enc : Encoding) (src : string) (si : Z) (j : nat)
    (dbuf : list Z) (out : string) : result string :=
  match src with
  | EmptyString =>
      match j with
      | 0%nat => Ok out
      | 1%nat => Err (CorruptInputError (si - 1))
      | _ =>
          match padChar enc with
          | Some _ => Err (CorruptInputError (si - Z.of_nat j))
          | None => Ok (out +:+ quantum_bytes dbuf j)
          end
      end
  | String c rest =>
      let si := si + 1 in
      match decodeMap enc c with
      | Some v =>
          let dbuf := <[j := v]> dbuf in
          if Nat.eqb j 3 then
            decode enc rest si 0 [0; 0; 0; 0] (out +:+ quantum_bytes dbuf 4)
          else decode enc rest si (S j) dbuf out
      | None =>
          if is_nl c then decode enc rest si j dbuf out
          else if negb (is_pad enc c) then Err (CorruptInputError (si - 1))
          else
            match j with
            | 0%nat | 1%nat => Err (CorruptInputError (si - 1))
            | 2%nat =>
                let '(rest1, si1) := skip_nl rest si in
                match rest1 with
                | EmptyString => Err (CorruptInputError si1)
                | String c2 rest2 =>
                    if negb (is_pad enc c2)
                    then Err (CorruptInputError (si1 - 1))
                    else after_padding rest2 (si1 + 1)
                           (out +:+ quantum_bytes dbuf 2)
                end
            | _ => after_padding rest si (out +:+ quantum_bytes dbuf j)
            end
      end
  end.

(** Encoding.DecodeString *)
Definition DecodeString (enc : Encoding) (s : string) : result string :=
  decode enc s 0 0 [0; 0; 0; 0] EmptyString.

(** Whether the byte that encodes [v] decodes to [v]. *)
Definition sextet_decoded (enc : Encoding) (v : Z) : bool :=
  match decodeMap enc (encodeChar enc v) with
  | Some v' => v' =? v
  | None => false
  end.

(** What the proofs use of an encoding: its alphabet decodes what it
    encodes, its padding byte, if it has one, is [=], and [=] is not in its
    alphabet. *)
Definition well_formed (enc : Encoding) : Prop :=
  (forall v, 0 <= v < 64 -> decodeMap enc (encodeChar enc v) = Some v)
  /\ decodeMap enc "="%char = None
  /\ (padChar enc = None \/ padChar enc = Some "="%char).

(** Two encodings never read one byte in two ways: a byte in both
    alphabets has the same value in both, and a byte in one of them only
    is an error for the other. *)
Definition compatible (e1 e2 : Encoding) : Prop :=
  forall c,
    match decodeMap e1 c, decodeMap e2 c with
    | Some v1, Some v2 => v1 = v2
    | Some _, None => is_nl c = false /\ is_pad e2 c = false
    | None, Some _ => is_nl c = false /\ is_pad e1 c = false
    | None, None => True
    end.

End base64.

(** ** internal/parser *)

Module parser.

(** *** Configuration types *)

Record VlessConfig : Type := {
  vl_Name : string;
  vl_UUID : string;
  vl_Server : string;
  vl_Port : Z;
  vl_Security : string;
  vl_Type : string;
  vl_SNI : string;
  vl_Host : string;
  vl_Path : string;
  vl_Fp : string;
  vl_Encryption : string;
  vl_Flow : string;
  vl_PublicKey : string;
  vl_ShortID : string
}.

Record SSConfig : Type := {
  ss_Name : string;
  ss_Method : string;
  ss_Password : string;
  ss_Server : string;
  ss_Port : Z
}.

Record VmessConfig : Type := {
  vm_Name : string;
  vm_UUID : string;
  vm_Server : string;
  vm_Port : Z;
  vm_Aid : Z;
  vm_Security : string;
  vm_Network : string;
  vm_TLS : string;
  vm_SNI : string;
  vm_Host : string;
  vm_Path : string
}.

Record TrojanConfig : Type := {
  tr_Name : string;
  tr_Password : string;
  tr_Server : string;
  tr_Port : Z;
  tr_Security : string;
  tr_Type : string;
  tr_SNI : string;
  tr_Host : string;
  tr_Path : string;
  tr_Fp : string
}.

(** The interface [ProxyConfig], implemented by exactly these four types. *)
Inductive ProxyConfig : Type :=
  | Vless (c : VlessConfig)
  | SS (c : SSConfig)
  | Vmess (c : VmessConfig)
  | Trojan (c : TrojanConfig).

Definition GetName (c : ProxyConfig) : string :=
  match c with
  | Vless v => vl_Name v
  | SS s => ss_Name s
  | Vmess v => vm_Name v
  | Trojan t => tr_Name t
  end.

Definition GetProtocol (c : ProxyConfig) : string :=
  match c with
  | Vless _ => "vless"
  | SS _ => "shadowsocks"
  | Vmess _ => "vmess"
  | Trojan _ => "trojan"
  end.

Definition GetServer (c : ProxyConfig) : string :=
  match c with
  | Vless v => vl_Server v
  | SS s => ss_Server s
  | Vmess v => vm_Server v
  | Trojan t => tr_Server t
  end.

Definition GetPort (c : ProxyConfig) : Z :=
  match c with
  | Vless v => vl_Port v
  | SS s => ss_Port s
  | Vmess v => vm_Port v
  | Trojan t => tr_Port t
  end.

(** *** JSON payload of a vmess link *)

(** A decoded JSON value held in an [interface{}]. *)
#[local] Unset Elimination Schemes.
Inductive iface : Type :=
  | INil                                   (* null, or the field is absent *)
  | IBool (b : bool)
  | IFloat64 (x : spec_float)
  | IString (s : string)
  | ISlice (l : list iface)                (* []interface{} *)
  | IMap (m : list (string * iface)).      (* map[string]interface{} *)
#[local] Set Elimination Schemes.

Record vmessJSON : Type := {
  Add : string;
  Aid : iface;
  ID : string;
  Net : string;
  Path : string;
  Port : iface;
  PS : string;
  Scy : string;
  SNI : string;
  TLS : string;
  Type_ : string;
  Host : string
}.

(** The verb [%T] on the dynamic type of the value. *)
Definition type_name (v : iface) : string :=
  match v with
  | INil => "<nil>"
  | IBool _ => "bool"
  | IFloat64 _ => "float64"
  | IString _ => "string"
  | ISlice _ => "[]interface {}"
  | IMap _ => "map[string]interface {}"
  end.

(** The JSON types that [toInt] does not coerce. *)
Definition uncoerced (v : iface) : bool :=
  match v with
  | IBool _ | ISlice _ | IMap _ => true
  | INil | IFloat64 _ | IString _ => false
  end.

(** toInt coerces a json number/string to int *)
Definition toInt (v : iface) : Z * option error :=
  match v with
  | IFloat64 x => (strconv.float64_to_int x, None)
  | IString x =>
      if String.eqb x EmptyString then (0, None) else strconv.Atoi x
  | INil => (0, None)
  | _ => (0, Some (errorString ("unexpected type " +:+ type_name v)))
  end.

(** The variable [padded] of [base64DecodeUserinfo]: [s] with the [=]
    that a length of remainder 2 or 3 modulo 4 lacks. *)
Definition padded (s : string) : string :=
  match (String.length s mod 4)%nat with
  | 2%nat => s +:+ "=="
  | 3%nat => s +:+ "="
  | _ => s
  end.

(** base64DecodeUserinfo tries standard and URL-safe base64 decoding *)
Definition base64DecodeUserinfo (s : string) : result string :=
  let s := match url.QueryUnescape s with
           | Ok t => t
           | Err _ => EmptyString          (* s, _ = url.QueryUnescape(s) *)
           end in
  let padded := padded s in
  match base64.DecodeString base64.RawURLEncoding s with
  | Ok b => Ok b
  | Err _ =>
      match base64.DecodeString base64.StdEncoding padded with
      | Ok b => Ok b
      | Err _ =>
          match base64.DecodeString base64.URLEncoding padded with
          | Ok b => Ok b
          | Err e => Err (wrapError "base64 decode failed" e)
          end
      end
  end.

(** The display name: the fragment, percent-decoded when it decodes, or
    ["host:port"] when there is no fragment. *)
Definition display_name (fragment host : string) (port : Z) : string :=
  if String.eqb fragment EmptyString then fmt.host_port host port
  else match url.QueryUnescape fragment with
       | Ok dec => dec
       | Err _ => fragment
       end.

(** The library calls whose results the parser only passes on. *)
Class Library : Type := {
  strings_TrimSpace : string -> string;
  url_Parse : string -> result url.URL;
  json_Unmarshal : string -> result vmessJSON
}.

Section Parse.
Context {lib : Library}.

Definition port_or (u : url.URL) (default : string) : string :=
  if String.eqb (url.Port u) EmptyString then default else url.Port u.

Definition parseVless (raw : string) : result VlessConfig :=
  let* u := wrap "vless parse error" (url_Parse raw) in
  let host := url.Hostname u in
  let portStr := port_or u "443" in
  let* port := wrap "invalid port" (checked (strconv.Atoi portStr)) in
  let uuid := url.Username u in
  let q := url.Query u in
  Ok {| vl_UUID := uuid;
        vl_Server := host;
        vl_Port := port;
        vl_Security := url.Get q "security";
        vl_Type := url.Get q "type";
        vl_SNI := url.Get q "sni";
        vl_Host := url.Get q "host";
        vl_Path := url.Get q "path";
        vl_Fp := url.Get q "fp";
        vl_Encryption := url.Get q "encryption";
        vl_Flow := url.Get q "flow";
        vl_PublicKey := url.Get q "pbk";
        vl_ShortID := url.Get q "sid";
        vl_Name := display_name (url.Fragment u) host port |}.

Definition parseSS (raw : string) : result SSConfig :=
  let* u := wrap "ss parse error" (url_Parse raw) in
  let host := url.Hostname u in
  let portStr := port_or u "8388" in
  let* port := wrap "invalid port" (checked (strconv.Atoi portStr)) in
  let userinfo := url.UserString u in
  let* decoded := wrap "ss userinfo decode error"
                       (base64DecodeUserinfo userinfo) in
  match strs.SplitN2 decoded ":" with
  | [method; password] =>
      Ok {| ss_Method := method;
            ss_Password := password;
            ss_Server := host;
            ss_Port := port;
            ss_Name := display_name (url.Fragment u) host port |}
  | _ => Err (errorString ("ss userinfo format invalid: " +:+ decoded))
  end.

Definition parseVmess (raw : string) : result VmessConfig :=
  let b64 := strs.TrimPrefix raw "vmess://" in
  let b64 := strs.before "#" b64 in
  let* data := wrap "vmess base64 decode" (base64DecodeUserinfo b64) in
  let* v := wrap "vmess json" (json_Unmarshal data) in
  let* port := wrap "vmess port" (checked (toInt (Port v))) in
  let aid := fst (toInt (Aid v)) in
  let name := if String.eqb (PS v) EmptyString then fmt.host_port (Add v) port
              else PS v in
  let sec := if String.eqb (Scy v) EmptyString then "auto" else Scy v in
  Ok {| vm_Name := name;
        vm_UUID := ID v;
        vm_Server := Add v;
        vm_Port := port;
        vm_Aid := aid;
        vm_Security := sec;
        vm_Network := Net v;
        vm_TLS := TLS v;
        vm_SNI := SNI v;
        vm_Host := Host v;
        vm_Path := Path v |}.

Definition parseTrojan (raw : string) : result TrojanConfig :=
  let* u := wrap "trojan parse error" (url_Parse raw) in
  let host := url.Hostname u in
  let portStr := port_or u "443" in
  let* port := wrap "invalid port" (checked (strconv.Atoi portStr)) in
  let password := url.Username u in
  let q := url.Query u in
  let security := if String.eqb (url.Get q "security") EmptyString then "tls"
                  else url.Get q "security" in
  Ok {| tr_Name := display_name (url.Fragment u) host port;
        tr_Password := password;
        tr_Server := host;
        tr_Port := port;
        tr_Security := security;
        tr_Type := url.Get q "type";
        tr_SNI := url.Get q "sni";
        tr_Host := url.Get q "host";
        tr_Path := url.Get q "path";
        tr_Fp := url.Get q "fp" |}.

Definition fmap_result {A B} (f : A -> B) (r : result A) : result B :=
  match r with Ok a => Ok (f a) | Err e => Err e end.

(** ParseLine parses a single URI line into a ProxyConfig *)
Definition ParseLine (line : string) : result ProxyConfig :=
  let line := strings_TrimSpace line in
  if String.eqb line EmptyString || strs.HasPrefix line "#" then
    Err (errorString "empty or comment line")
  else if strs.HasPrefix line "vless://" then
    fmap_result Vless (parseVless line)
  else if strs.HasPrefix line "ss://" then
    fmap_result SS (parseSS line)
  else if strs.HasPrefix line "vmess://" then
    fmap_result Vmess (parseVmess line)
  else if strs.HasPrefix line "trojan://" then
    fmap_result Trojan (parseTrojan line)
  else Err (errorString ("unsupported protocol in: " +:+ line)).

End Parse.

End parser.

(** ** internal/checker *)

Module checker.

(** Result holds the outcome of checking a single proxy config *)
Record Result : Type := {
  Index : Z;
  Name : string;
  Protocol : string;
  Server : string;
  Port : Z;
  Alive : bool;
  Latency : Z;                 (* time.Duration, in nanoseconds *)
  ExitIP : string;
  Country : string;
  Error : string
}.

(** The zero value of [Result], as [make([]Result, total)] fills it in. *)
Definition zeroResult : Result :=
  {| Index := 0; Name := EmptyString; Protocol := EmptyString; Server := EmptyString; Port := 0;
     Alive := false; Latency := 0; ExitIP := EmptyString; Country := EmptyString;
     Error := EmptyString |}.

Record ipAPIResponse : Type := {
  Query : string;
  CountryName : string;
  Status : string;
  Message : string
}.

Definition Millisecond : Z := 1000000.
Definition Second : Z := 1000 * Millisecond.

(** The outcome of a call made to the system or to a library: its value,
    or the text of the error it returned ([err.Error()]). *)
Inductive outcome (A : Type) : Type :=
  | Done (a : A)
  | Failed (text : string).
Arguments Done {A} a.
Arguments Failed {A} text.

(** What one run of [CheckConfig] meets outside the function. The engine
    configuration builder and the process supervisor ([xrayrunner]) are
    not part of the checker: their results are taken as they come. *)
Record World : Type := {
  (* net.Listen("tcp", "127.0.0.1:0"), and the port of the listener *)
  w_Listen : outcome Z;
  (* xrayrunner.GenerateConfig(cfg, socksPort) *)
  w_GenerateConfig : parser.ProxyConfig -> Z -> outcome string;
  (* xrayrunner.Start(configJSON) *)
  w_Start : string -> outcome unit;
  (* time.Now() when waitForPort is entered, for the deadline *)
  w_Now : Z;
  (* how much later the loop of waitForPort reads the clock for its
     first test *)
  w_Lag : N;
  (* the k-th net.DialTimeout of waitForPort: its outcome and how long
     it took *)
  w_Dial : nat -> outcome unit * N;
  (* by how much the k-th time.Sleep overslept *)
  w_Oversleep : nat -> N;
  (* proxy.SOCKS5("tcp", socksAddr, nil, proxy.Direct) *)
  w_SOCKS5 : string -> outcome unit;
  (* client.Get(url): on a response, the time it took to arrive *)
  w_Get : string -> outcome Z;
  (* io.ReadAll(resp.Body) *)
  w_ReadAll : outcome string;
  (* json.Unmarshal(body, &apiResp) *)
  w_Unmarshal : string -> outcome ipAPIResponse
}.

(** The calls a run makes, in the order it makes them. *)
Inductive Event : Type :=
  | EvListen
  | EvGenerateConfig (port : Z)
  | EvStart
  | EvDial (addr : string) (timeout : Z)
  | EvSleep (d : Z)
  | EvSOCKS5 (addr : string)
  | EvGet (target : string) (timeout : Z)
  | EvReadAll
  | EvUnmarshal
  | EvBodyClose
  | EvStop.

(** freePort finds an available TCP port on localhost *)
Definition freePort (w : World) : outcome Z * list Event :=
  (w_Listen w, [EvListen]).

(** How many sleeps of 100 ms fit between [now] and [deadline], rounded
    up. *)
Definition sleeps_left (deadline now : Z) : nat :=
  Z.to_nat ((deadline - now + (100 * Millisecond - 1)) / (100 * Millisecond)).

(** The loop of [waitForPort], entered for the [k]-th time with the clock
    at [now]. A failed dial is followed by a sleep of at least 100 ms, so
    the loop is left before [sleeps_left] runs out. *)
Equations? wait_loop (w : World) (addr : string) (deadline now : Z) (k : nat)
    : outcome unit * list Event by wf (sleeps_left deadline now) lt :=
  wait_loop w addr deadline now k with Z_lt_dec now deadline := {
    | right _ => (Failed ("timeout waiting for " +:+ addr), [])
    | left _ with w_Dial w k := {
        | (Done _, _) => (Done tt, [EvDial addr (200 * Millisecond)])
        | (Failed _, d) =>
            let now' := now + Z.of_N d + 100 * Millisecond
                        + Z.of_N (w_Oversleep w k) in
            let '(r, t) := wait_loop w addr deadline now' (S k) in
            (r, EvDial addr (200 * Millisecond)
                  :: EvSleep (100 * Millisecond) :: t) } }.
Proof.
  subst now'. unfold sleeps_left, Millisecond in *.
  pose proof (N2Z.is_nonneg d). pose proof (N2Z.is_nonneg (w_Oversleep w k)).
  match goal with
  | |- (Z.to_nat ?a < Z.to_nat ?b)%nat =>
      assert (a < b /\ 0 < b) by (Z.div_mod_to_equations; lia)
  end.
  lia.
Qed.

(** waitForPort polls until the given TCP address is accepting connections
    or timeout *)
Definition waitForPort (w : World) (host : string) (port : Z) (timeout : Z)
    : outcome unit * list Event :=
  let addr := fmt.host_port host port in
  let deadline := w_Now w + timeout in
  wait_loop w addr deadline (w_Now w + Z.of_N (w_Lag w)) 0.

(** [n] rounds of the loop of [waitForPort] in which the dial failed. *)
Definition polls (addr : string) (n : nat) : list Event :=
  mjoin (replicate n [EvDial addr (200 * Millisecond);
                      EvSleep (100 * Millisecond)]).

Definition with_Error (r : Result) (e : string) : Result :=
  {| Index := Index r; Name := Name r; Protocol := Protocol r;
     Server := Server r; Port := Port r; Alive := Alive r;
     Latency := Latency r; ExitIP := ExitIP r; Country := Country r;
     Error := e |}.

Definition with_Latency (r : Result) (d : Z) : Result :=
  {| Index := Index r; Name := Name r; Protocol := Protocol r;
     Server := Server r; Port := Port r; Alive := Alive r;
     Latency := d; ExitIP := ExitIP r; Country := Country r;
     Error := Error r |}.

Definition with_Alive (r : Result) (ip country : string) : Result :=
  {| Index := Index r; Name := Name r; Protocol := Protocol r;
     Server := Server r; Port := Port r; Alive := true;
     Latency := Latency r; ExitIP := ip; Country := country;
     Error := Error r |}.

Definition probe_url : string := "http://ip-api.com/json".

(** [CheckConfig] from the HTTP GET on (the part after the client is
    built): the request, the body, the JSON and the provider's status.
    [resp.Body.Close()] is deferred once a response has arrived. *)
Definition probe (result : Result) (timeout : Z) (w : World)
    : Result * list Event :=
  match w_Get w probe_url with
  | Failed err =>
      (with_Error result ("http get: " +:+ err), [EvGet probe_url timeout])
  | Done elapsed =>
      let result := with_Latency result elapsed in
      let '(r, t) :=
        match w_ReadAll w with
        | Failed err =>
            (with_Error result ("read body: " +:+ err), [EvReadAll])
        | Done body =>
            match w_Unmarshal w body with
            | Failed err =>
                (with_Error result ("json parse: " +:+ err),
                 [EvReadAll; EvUnmarshal])
            | Done apiResp =>
                if negb (String.eqb (Status apiResp) "success") then
                  (with_Error result ("ip-api: " +:+ Message apiResp),
                   [EvReadAll; EvUnmarshal])
                else
                  (with_Alive result (Query apiResp) (CountryName apiResp),
                   [EvReadAll; EvUnmarshal])
            end
        end in
      (r, EvGet probe_url timeout :: t ++ [EvBodyClose])
  end.

(** [CheckConfig] from the readiness wait on, that is while the engine
    process runs. *)
Definition with_engine (result : Result) (socksPort timeout : Z) (w : World)
    : Result * list Event :=
  match waitForPort w "127.0.0.1" socksPort (3 * Second) with
  | (Failed err, t1) =>
      (with_Error result ("xray not ready: " +:+ err), t1)
  | (Done _, t1) =>
      let socksAddr := "127.0.0.1:" +:+ fmt.d socksPort in
      match w_SOCKS5 w socksAddr with
      | Failed err =>
          (with_Error result ("socks5 dialer: " +:+ err),
           t1 ++ [EvSOCKS5 socksAddr])
      | Done _ =>
          let '(r, t2) := probe result timeout w in
          (r, t1 ++ EvSOCKS5 socksAddr :: t2)
      end
  end.

(** CheckConfig checks a single proxy config and returns a Result. The
    second component lists the calls made on the way; [xrayrunner.Stop]
    is deferred as soon as the engine has started. *)
Definition CheckConfig (idx : Z) (cfg : parser.ProxyConfig) (timeout : Z)
    (w : World) : Result * list Event :=
  let result :=
    {| Index := idx;
       Name := parser.GetName cfg;
       Protocol := parser.GetProtocol cfg;
       Server := parser.GetServer cfg;
       Port := parser.GetPort cfg;
       Alive := false; Latency := 0; ExitIP := EmptyString; Country := EmptyString;
       Error := EmptyString |} in
  match freePort w with
  | (Failed err, t0) => (with_Error result ("no free port: " +:+ err), t0)
  | (Done socksPort, t0) =>
      match w_GenerateConfig w cfg socksPort with
      | Failed err =>
          (with_Error result ("config gen: " +:+ err),
           t0 ++ [EvGenerateConfig socksPort])
      | Done configJSON =>
          match w_Start w configJSON with
          | Failed err =>
              (with_Error result ("xray start: " +:+ err),
               t0 ++ [EvGenerateConfig socksPort; EvStart])
          | Done _ =>
              let '(r, t) := with_engine result socksPort timeout w in
              (r, t0 ++ EvGenerateConfig socksPort :: EvStart :: t
                     ++ [EvStop])
          end
      end
  end.

(** *** CheckAll

    The goroutines of [CheckAll] are modelled as a transition system whose
    steps are the operations on what they share: the spawning of a
    worker, a send on, a receive from and the closing of the channel
    [jobs], the section of a worker under the mutex [mu], and the return
    of [wg.Wait]. The run of [CheckConfig] is a step of the worker that
    makes it. Any interleaving of the steps is a run. *)

(** Where the calling goroutine stands. *)
Inductive main_pc : Type :=
  | Spawning (i : Z)        (* for i := 0; i < workers; i++ { go ... } *)
  | Sending (i : nat)       (* for i := range configs { jobs <- i } *)
  | Waiting                 (* jobs is closed; wg.Wait() *)
  | Returned.               (* return results *)

(** Where a worker goroutine stands. *)
Inductive worker : Type :=
  | Receiving                             (* at [for idx := range jobs] *)
  | Checking (idx : nat)                  (* about to read configs[idx]
                                             and run CheckConfig *)
  | Publishing (idx : nat) (r : Result)   (* about to take mu *)
  | Panicked                              (* index out of range *)
  | Exited.                               (* wg.Done() has run *)

Record state : Type := {
  pc : main_pc;
  pool : list worker;
  jobs : list nat;                (* the content of the channel, oldest first *)
  closed : bool;
  results : list Result;
  done : Z;
  calls : list (Result * Z * Z);  (* the invocations of onResult, in order *)
  checks : list (nat * World)     (* the runs of CheckConfig made so far:
                                     the index into configs and what the
                                     run met *)
}.

Section CheckAll.
Variable configs : list parser.ProxyConfig.
Variable workers : Z.
Variable timeout : Z.
Variable onResult : bool.        (* whether the callback is non-nil *)

Definition total : nat := length configs.

Definition init : state :=
  {| pc := Spawning 0;
     pool := [];
     jobs := [];
     closed := false;
     results := replicate total zeroResult;
     done := 0;
     calls := [];
     checks := [] |}.

Definition set_pc (s : state) (p : main_pc) : state :=
  {| pc := p; pool := pool s; jobs := jobs s; closed := closed s;
     results := results s; done := done s; calls := calls s;
     checks := checks s |}.

Definition set_worker (s : state) (k : nat) (wk : worker) : state :=
  {| pc := pc s; pool := <[k := wk]> (pool s); jobs := jobs s;
     closed := closed s; results := results s; done := done s;
     calls := calls s; checks := checks s |}.

Inductive step : state -> state -> Prop :=
  (* wg.Add(1); go func() { ... }() *)
  | step_spawn s i :
      pc s = Spawning i -> i < workers ->
      step s {| pc := Spawning (i + 1); pool := pool s ++ [Receiving];
                jobs := jobs s; closed := closed s;
                results := results s; done := done s; calls := calls s;
                checks := checks s |}
  | step_spawned s i :
      pc s = Spawning i -> ~ i < workers ->
      step s (set_pc s (Sending 0))
  (* jobs <- i, which blocks while the buffer of the channel is full *)
  | step_send s i :
      pc s = Sending i -> (i < total)%nat ->
      (length (jobs s) < total)%nat ->
      step s {| pc := Sending (S i); pool := pool s;
                jobs := jobs s ++ [i]; closed := closed s;
                results := results s; done := done s; calls := calls s;
                checks := checks s |}
  (* close(jobs) *)
  | step_close s i :
      pc s = Sending i -> ~ (i < total)%nat ->
      step s {| pc := Waiting; pool := pool s; jobs := jobs s;
                closed := true; results := results s; done := done s;
                calls := calls s; checks := checks s |}
  (* idx := <-jobs *)
  | step_receive s k idx rest :
      pool s !! k = Some Receiving -> jobs s = idx :: rest ->
      step s {| pc := pc s; pool := <[k := Checking idx]> (pool s);
                jobs := rest; closed := closed s; results := results s;
                done := done s; calls := calls s; checks := checks s |}
  (* the range over a closed and drained channel ends; wg.Done() *)
  | step_exit s k :
      pool s !! k = Some Receiving -> jobs s = [] -> closed s = true ->
      step s (set_worker s k Exited)
  (* r := CheckConfig(idx+1, configs[idx], timeout) *)
  | step_check s k idx cfg w :
      pool s !! k = Some (Checking idx) -> configs !! idx = Some cfg ->
      step s {| pc := pc s;
                pool := <[k := Publishing idx
                            (fst (CheckConfig (Z.of_nat idx + 1) cfg
                                    timeout w))]> (pool s);
                jobs := jobs s; closed := closed s; results := results s;
                done := done s; calls := calls s;
                checks := checks s ++ [(idx, w)] |}
  | step_panic s k idx :
      pool s !! k = Some (Checking idx) -> configs !! idx = None ->
      step s (set_worker s k Panicked)
  (* mu.Lock(); results[idx] = r; done++; onResult(r, done, total);
     mu.Unlock() *)
  | step_publish s k idx r :
      pool s !! k = Some (Publishing idx r) ->
      (idx < length (results s))%nat ->
      step s {| pc := pc s; pool := <[k := Receiving]> (pool s);
                jobs := jobs s; closed := closed s;
                results := <[idx := r]> (results s);
                done := done s + 1;
                calls := if onResult
                         then calls s ++ [(r, done s + 1, Z.of_nat total)]
                         else calls s;
                checks := checks s |}
  | step_publish_panic s k idx r :
      pool s !! k = Some (Publishing idx r) ->
      ~ (idx < length (results s))%nat ->
      step s (set_worker s k Panicked)
  (* wg.Wait() returns once every worker has called wg.Done() *)
  | step_return s :
      pc s = Waiting -> Forall (fun wk => wk = Exited) (pool s) ->
      step s (set_pc s Returned).

(** [CheckAll] can return [rs]: some run from the initial state reaches
    the return statement with [results] equal to [rs]. *)
Definition returns (rs : list Result) : Prop :=
  exists s, rtc step init s /\ pc s = Returned /\ results s = rs.

(** **** What holds in every state of a run *)

(** How many indices the caller has put on the channel. *)
Definition sent (s : state) : nat :=
  match pc s with
  | Spawning _ => 0
  | Sending i => i
  | Waiting | Returned => total
  end.

(** How many of them the workers have taken off it. *)
Definition received (s : state) : nat := (sent s - length (jobs s))%nat.

Definition checking_of (wk : worker) : list nat :=
  match wk with
  | Checking i => [i]
  | _ => []
  end.

(** The indices whose check is still to be run by the worker that
    received them. *)
Definition in_check (p : list worker) : list nat := p ≫= checking_of.

(** [r] is the result of one of the runs [cks] of [CheckConfig], made
    on [configs[i]] with ordinal [i+1]. *)
Definition checked_result (cks : list (nat * World)) (i : nat)
    (r : Result) : Prop :=
  exists cfg w,
    configs !! i = Some cfg /\ (i, w) ∈ cks
    /\ r = fst (CheckConfig (Z.of_nat i + 1) cfg timeout w).

(** A worker holds an index it has received and, once past the check,
    the result of a check of that index. *)
Definition worker_ok (recv : nat) (cks : list (nat * World))
    (wk : worker) : Prop :=
  match wk with
  | Receiving | Exited => True
  | Panicked => False
  | Checking i => (i < recv)%nat
  | Publishing i r => (i < recv)%nat /\ checked_result cks i r
  end.

Record invariant (s : state) : Prop := {
  inv_results : length (results s) = total;
  inv_sent : (sent s <= total)%nat;
  inv_jobs : jobs s = seq (received s) (length (jobs s));
  inv_jobs_le : (length (jobs s) <= sent s)%nat;
  inv_closed : closed s = true <-> pc s = Waiting \/ pc s = Returned;
  inv_pool :
    length (pool s)
    = match pc s with
      | Spawning i => Z.to_nat i
      | _ => Z.to_nat workers
      end;
  inv_spawning : forall i, pc s = Spawning i -> 0 <= i /\ (i <= workers \/ i = 0);
  inv_exited : Exited ∈ pool s -> closed s = true /\ jobs s = [];
  inv_returned : pc s = Returned -> Forall (fun wk => wk = Exited) (pool s);
  inv_workers : Forall (worker_ok (received s) (checks s)) (pool s);
  inv_cover :
    forall i, (i < received s)%nat ->
      (exists r, results s !! i = Some r
                 /\ checked_result (checks s) i r)
      \/ (exists k, pool s !! k = Some (Checking i))
      \/ (exists k r, pool s !! k = Some (Publishing i r));
  inv_once : map fst (checks s) ++ in_check (pool s) ≡ₚ seq 0 (received s);
  inv_untouched :
    pool s = [] -> results s = replicate total zeroResult /\ checks s = []
}.

(** **** A bound on the number of steps left *)

Definition pc_weight (p : main_pc) : nat :=
  match p with
  | Spawning i => (2 * Z.to_nat (workers - i) + 4 * total + 3)%nat
  | Sending i => (4 * (total - i) + 2)%nat
  | Waiting => 1%nat
  | Returned => 0%nat
  end.

Definition worker_weight (wk : worker) : nat :=
  match wk with
  | Receiving => 1%nat
  | Checking _ => 3%nat
  | Publishing _ _ => 2%nat
  | Panicked | Exited => 0%nat
  end.

Definition weight (s : state) : nat :=
  (pc_weight (pc s) + 3 * length (jobs s)
   + sum_list_with worker_weight (pool s))%nat.

End CheckAll.

End checker.

(** ** Sample inputs

    Concrete lines, with what the library calls return on them, used to
    exercise the statements below. None of the lines has surrounding white
    space, so [strings.TrimSpace] leaves them as they are. *)

Module samples.

Definition quoted (s : string) : string :=
  String "034"%char (s +:+ String "034"%char EmptyString).

(** The userinfo is the unpadded URL-safe base64 of [a:b:c]. *)
Definition ss_line : string := "ss://YTpiOmM@1.2.3.4:8388#home".

Definition ss_url : url.URL :=
  {| url.Hostname := "1.2.3.4"; url.Port := "8388";
     url.Username := "YTpiOmM"; url.UserString := "YTpiOmM";
     url.Query := ∅; url.Fragment := "home" |}.

Definition trojan_line : string := "trojan://secret@example.org?type=ws".

Definition trojan_url : url.URL :=
  {| url.Hostname := "example.org"; url.Port := EmptyString;
     url.Username := "secret"; url.UserString := "secret";
     url.Query := {[ "type" := ["ws"] ]}; url.Fragment := EmptyString |}.

(** A vmess payload whose [aid] is the JSON value [true]. *)
Definition vmess_payload : string :=
  "{" +:+ quoted "add" +:+ ":" +:+ quoted "example.org" +:+ ","
      +:+ quoted "port" +:+ ":" +:+ quoted "443" +:+ ","
      +:+ quoted "aid" +:+ ":true,"
      +:+ quoted "id" +:+ ":" +:+ quoted "b831381d" +:+ "}".

(** The payload is the padded standard base64 of [vmess_payload]. *)
Definition vmess_line : string :=
  "vmess://eyJhZGQiOiJleGFtcGxlLm9yZyIsInBvcnQiOiI0NDMiLCJhaWQiOnRydWUsImlkIjoiYjgzMTM4MWQifQ==".

Definition vmess_json : parser.vmessJSON :=
  {| parser.Add := "example.org"; parser.Aid := parser.IBool true;
     parser.ID := "b831381d"; parser.Net := EmptyString;
     parser.Path := EmptyString; parser.Port := parser.IString "443";
     parser.PS := EmptyString; parser.Scy := EmptyString;
     parser.SNI := EmptyString; parser.TLS := EmptyString;
     parser.Type_ := EmptyString; parser.Host := EmptyString |}.

#[local] Instance library : parser.Library :=
  {| parser.strings_TrimSpace := fun line => line;
     parser.url_Parse := fun raw =>
       if String.eqb raw ss_line then Ok ss_url
       else if String.eqb raw trojan_line then Ok trojan_url
       else Err (LibError "not a sample line");
     parser.json_Unmarshal := fun data =>
       if String.eqb data vmess_payload then Ok vmess_json
       else Err (LibError "not a sample payload") |}.

Definition config : parser.ProxyConfig :=
  parser.SS {| parser.ss_Name := "home"; parser.ss_Method := "a";
               parser.ss_Password := "b:c"; parser.ss_Server := "1.2.3.4";
               parser.ss_Port := 8388 |}.

(** The engine answers on the third dial; the provider then reports a
    failure. *)
Definition world_provider_fails : checker.World :=
  {| checker.w_Listen := checker.Done 40123;
     checker.w_GenerateConfig := fun _ _ => checker.Done "{}";
     checker.w_Start := fun _ => checker.Done tt;
     checker.w_Now := 1700000000000000000;
     checker.w_Lag := 250%N;
     checker.w_Dial := fun k =>
       if (k <? 2)%nat then (checker.Failed "connection refused", 150000%N)
       else (checker.Done tt, 150000%N);
     checker.w_Oversleep := fun _ => 20000%N;
     checker.w_SOCKS5 := fun _ => checker.Done tt;
     checker.w_Get := fun _ => checker.Done (120 * checker.Millisecond);
     checker.w_ReadAll := checker.Done "body";
     checker.w_Unmarshal := fun _ =>
       checker.Done {| checker.Query := EmptyString;
                       checker.CountryName := EmptyString;
                       checker.Status := "fail";
                       checker.Message := "reserved range" |} |}.

(** The engine never answers. *)
Definition world_never_ready : checker.World :=
  {| checker.w_Listen := checker.Done 40123;
     checker.w_GenerateConfig := fun _ _ => checker.Done "{}";
     checker.w_Start := fun _ => checker.Done tt;
     checker.w_Now := 1700000000000000000;
     checker.w_Lag := 250%N;
     checker.w_Dial := fun _ => (checker.Failed "connection refused", 150000%N);
     checker.w_Oversleep := fun _ => 20000%N;
     checker.w_SOCKS5 := fun _ => checker.Done tt;
     checker.w_Get := fun _ => checker.Done (120 * checker.Millisecond);
     checker.w_ReadAll := checker.Done "body";
     checker.w_Unmarshal := fun _ => checker.Failed "unexpected end of JSON input" |}.

(** Where [CheckAll] ends on the one configuration [config] with a worker
    count of zero: the index is still on the channel, the slot still holds
    the zero value. *)
Definition returned_without_workers : checker.state :=
  {| checker.pc := checker.Returned;
     checker.pool := [];
     checker.jobs := [0%nat];
     checker.closed := true;
     checker.results := [checker.zeroResult];
     checker.done := 0;
     checker.calls := [];
     checker.checks := [] |}.

End samples.


(** ** Supporting definitions for the properties of the checker *)

Module checker_ghost.
Import checker.

(** Whether a run of [CheckConfig] gets as far as a running engine: a port
    was reserved, the configuration generated and the process started. *)
Definition engine_started (cfg : parser.ProxyConfig) (w : World) : bool :=
  match w_Listen w with
  | Failed _ => false
  | Done socksPort =>
      match w_GenerateConfig w cfg socksPort with
      | Failed _ => false
      | Done configJSON =>
          match w_Start w configJSON with
          | Failed _ => false
          | Done _ => true
          end
      end
  end.

(** Whether a run gets as far as the HTTP request: the engine has
    started, the readiness wait has succeeded and the dialer has been
    built. *)
Definition requested (cfg : parser.ProxyConfig) (w : World) : bool :=
  match w_Listen w with
  | Failed _ => false
  | Done socksPort =>
      engine_started cfg w
      && match fst (waitForPort w "127.0.0.1" socksPort (3 * Second)) with
         | Done _ => true
         | Failed _ => false
         end
      && match w_SOCKS5 w ("127.0.0.1:" +:+ fmt.d socksPort) with
         | Done _ => true
         | Failed _ => false
         end
  end.

Definition is_get (e : Event) : bool :=
  match e with
  | EvGet _ _ => true
  | _ => false
  end.

Definition is_dial (e : Event) : bool :=
  match e with
  | EvDial _ _ => true
  | _ => false
  end.

(** The number of sleeps of 100 ms that fit a wait of [timeout], rounded
    up: as many dials can fail before the deadline is passed. *)
(** What the clock of [waitForPort] shows, counted from the reading that
    made the deadline, when the loop makes its test for the [k]-th time
    (from 0): the dials before it and the sleeps after them have taken
    their time. *)
Fixpoint clock (w : World) (k : nat) : Z :=
  match k with
  | O => Z.of_N (w_Lag w)
  | S j => clock w j + Z.of_N (snd (w_Dial w j)) + 100 * Millisecond
           + Z.of_N (w_Oversleep w j)
  end.

Definition max_polls (timeout : Z) : nat :=
  Z.to_nat ((timeout + (100 * Millisecond - 1)) / (100 * Millisecond)).

(** *** The callback of [CheckAll] *)

Definition publishing_of (wk : worker) : list nat :=
  match wk with
  | Publishing i _ => [i]
  | _ => []
  end.

(** The indices whose result is still to be written by the worker that
    computed it. *)
Definition in_publish (p : list worker) : list nat := p ≫= publishing_of.

(** The position in [results] of the configuration that a result with the
    ordinal [Index r] is about. *)
(** The index that a worker holds: it has taken it from the channel and
    has not yet stored its result. *)
Definition holding (wk : worker) : list nat :=
  match wk with
  | Checking i | Publishing i _ => [i]
  | _ => []
  end.

Definition in_flight (p : list worker) : list nat := p ≫= holding.

Definition slot (r : Result) : nat := Z.to_nat (Index r - 1).

(** An invocation [onResult(r, done, total)]: its result and its counts. *)
Definition call_result (c : Result * Z * Z) : Result := c.1.1.
Definition call_counts (c : Result * Z * Z) : Z * Z := (c.1.2, c.2).

(** The counts [(1, total), (2, total), ..., (n, total)]. *)
Definition counts (n : nat) (total : Z) : list (Z * Z) :=
  map (fun k => (Z.of_nat k + 1, total)) (seq 0 n).

Record callback_invariant (configs : list parser.ProxyConfig)
    (onResult : bool) (s : state) : Prop := {
  cb_done_pos : 0 <= done s;
  cb_done :
    done s + Z.of_nat (length (in_publish (pool s))
                       + length (in_check (pool s)))
    = Z.of_nat (received configs s);
  cb_off : onResult = false -> calls s = [];
  cb_counts :
    onResult = true ->
    map call_counts (calls s)
    = counts (Z.to_nat (done s)) (Z.of_nat (total configs));
  cb_slots :
    onResult = true ->
    map (fun c => slot (call_result c)) (calls s)
      ++ in_publish (pool s) ++ in_check (pool s)
    ≡ₚ seq 0 (received configs s);
  cb_results :
    forall c, c ∈ calls s ->
      results s !! slot (call_result c) = Some (call_result c)
}.

End checker_ghost.

(** ** Links that leave the port out *)

Module samples_defaults.

Definition vless_line : string := "vless://b831381d@example.org".

Definition vless_url : url.URL :=
  {| url.Hostname := "example.org"; url.Port := EmptyString;
     url.Username := "b831381d"; url.UserString := "b831381d";
     url.Query := ∅; url.Fragment := EmptyString |}.

(** The userinfo is the unpadded base64 of [a:b]. *)
Definition ss_line : string := "ss://YTpi@1.2.3.4".

Definition ss_url : url.URL :=
  {| url.Hostname := "1.2.3.4"; url.Port := EmptyString;
     url.Username := "YTpi"; url.UserString := "YTpi";
     url.Query := ∅; url.Fragment := EmptyString |}.

#[local] Instance library : parser.Library :=
  {| parser.strings_TrimSpace := fun line => line;
     parser.url_Parse := fun raw =>
       if String.eqb raw vless_line then Ok vless_url
       else if String.eqb raw ss_line then Ok ss_url
       else if String.eqb raw samples.trojan_line then Ok samples.trojan_url
       else Err (LibError "not a sample line");
     parser.json_Unmarshal := fun data =>
       if String.eqb data samples.vmess_payload then Ok samples.vmess_json
       else Err (LibError "not a sample payload") |}.

End samples_defaults.

(** ** A state in the middle of a run *)

Module samples_run.

(** One configuration and one worker: the worker has received the index
    of the configuration and is about to check it. *)
Definition one_in_flight : checker.state :=
  {| checker.pc := checker.Sending 1;
     checker.pool := [checker.Checking 0];
     checker.jobs := [];
     checker.closed := false;
     checker.results := [checker.zeroResult];
     checker.done := 0;
     checker.calls := [];
     checker.checks := [] |}.

End samples_run.

(** ** Unpadded standard base64 *)

Module base64_ghost.

(** base64.RawStdEncoding: the standard alphabet without padding. The
    parser does not name it; it describes the links that leave the
    padding out. *)
Definition RawStdEncoding : base64.Encoding :=
  {| base64.alphabet := base64.encodeStd; base64.padChar := None |}.

End base64_ghost.

(** ** Supporting definitions for the properties of the parser *)

Module parser_ghost.

(** The scheme, with its separator, of the links of each configuration
    type. *)
Definition scheme (cfg : parser.ProxyConfig) : string :=
  match cfg with
  | parser.Vless _ => "vless://"
  | parser.SS _ => "ss://"
  | parser.Vmess _ => "vmess://"
  | parser.Trojan _ => "trojan://"
  end.

End parser_ghost.

(** ** internal/web *)

Module web.

(** AliveEntry pairs a successful check result with its original raw
    URI. *)
Record AliveEntry : Type := {
  Result : checker.Result;
  RawURI : string
}.

(** strings.Join *)
Fixpoint Join (elems : list string) (sep : string) : string :=
  match elems with
  | [] => EmptyString
  | [s] => s
  | s :: rest => s +:+ sep +:+ Join rest sep
  end.

(** The slice [uris] that [handleConfigs] builds: the raw URIs that are
    not empty. *)
Definition uris (entries : list AliveEntry) : list string :=
  foldl (fun uris e =>
           if negb (String.eqb (RawURI e) EmptyString)
           then uris ++ [RawURI e] else uris)
        [] entries.

(** The text that [handleConfigs] writes as the body of the response. *)
Definition handleConfigs (entries : list AliveEntry) : string :=
  Join (uris entries) (String "010" EmptyString).

End web.

(** ** cmd/checker *)

Module main.

(** ConfigEntry pairs the original raw URI line with its parsed form. *)
Record ConfigEntry : Type := {
  RawURI : string;
  Config : parser.ProxyConfig
}.

Section Read.
Context {lib : parser.Library}.

(** The loop of [readConfigs] over the lines that the scanner yields: a
    line that does not parse is skipped, a line that does is appended
    with its configuration. *)
Definition readConfigs (lines : list string) : list ConfigEntry :=
  foldl (fun entries line =>
           match parser.ParseLine line with
           | Err _ => entries
           | Ok cfg => entries ++ [{| RawURI := line; Config := cfg |}]
           end) [] lines.

(** Whether [readConfigs] keeps the line. *)
Definition parses (line : string) : bool :=
  match parser.ParseLine line with
  | Ok _ => true
  | Err _ => false
  end.

End Read.

(** The configurations that [main] hands to [CheckAll]:
    [configs[i] = e.Config]. *)
Definition configs_of (entries : list ConfigEntry) : list parser.ProxyConfig :=
  map Config entries.

(** The raw URI that [buildAliveEntries] finds for a result: that of the
    entry at [Index - 1], or the empty string when the index is out of
    range. *)
Definition rawURI_for (entries : list ConfigEntry) (r : checker.Result)
    : string :=
  if (1 <=? checker.Index r)
     && (checker.Index r <=? Z.of_nat (length entries))
  then match entries !! Z.to_nat (checker.Index r - 1) with
       | Some e => RawURI e
       | None => EmptyString
       end
  else EmptyString.

Definition buildAliveEntries (results : list checker.Result)
    (entries : list ConfigEntry) : list web.AliveEntry :=
  foldl (fun out r =>
           if negb (checker.Alive r) then out
           else out ++ [{| web.Result := r;
                           web.RawURI := rawURI_for entries r |}])
        [] results.

(** The counter [alive] of [main] after the calls of [onResult], which
    adds one for every result that is alive. *)
Definition alive_after (calls : list (checker.Result * Z * Z)) : Z :=
  foldl (fun alive c => if checker.Alive c.1.1 then alive + 1 else alive)
        0 calls.

(** The counter [alive] of [printTable] after its loop over the
    results. *)
Definition printTable_alive (results : list checker.Result) : Z :=
  foldl (fun alive r => if checker.Alive r then alive + 1 else alive)
        0 results.

End main.

(** ** internal/xray *)

Module xray.

(** A value of the document handed to [json.MarshalIndent]: strings,
    integers, booleans, slices and maps with string keys. *)
#[local] Unset Elimination Schemes.
Inductive value : Type :=
  | JString (s : string)
  | JNumber (n : Z)
  | JBool (b : bool)
  | JArray (l : list value)
  | JObject (m : gmap string value).
#[local] Set Elimination Schemes.

(** map[string]interface{} *)
Abbreviation object := (gmap string value).

(** inbound returns a standard SOCKS5 inbound block *)
Definition inbound (socksPort : Z) : value :=
  JObject {[ "listen" := JString "127.0.0.1";
             "port" := JNumber socksPort;
             "protocol" := JString "socks";
             "settings" := JObject {[ "auth" := JString "noauth";
                                      "udp" := JBool false ]} ]}.

(** buildStreamSettings constructs streamSettings for transport-layer
    options *)
Definition buildStreamSettings (network security sni host path fp : string)
    : object :=
  let ss : object := {[ "network" := JString network;
                        "security" := JString security ]} in
  let ss : object :=
    if String.eqb security "tls" then
      let tls : object := {[ "serverName" := JString sni ]} in
      let tls : object :=
        if negb (String.eqb fp EmptyString)
        then <["fingerprint" := JString fp]> tls else tls in
      <["tlsSettings" := JObject tls]> ss
    else if String.eqb security "reality" then
      <["realitySettings" :=
          JObject {[ "serverName" := JString sni;
                     "fingerprint" := JString fp ]}]> ss
    else ss in
  if String.eqb network "ws" then
    <["wsSettings" :=
        JObject {[ "path" := JString path;
                   "headers" := JObject {[ "Host" := JString host ]} ]}]> ss
  else if String.eqb network "grpc" then
    <["grpcSettings" := JObject {[ "serviceName" := JString path ]}]> ss
  else if String.eqb network "http" || String.eqb network "h2" then
    <["httpSettings" :=
        JObject {[ "path" := JString path;
                   "host" := JArray [JString host] ]}]> ss
  else if String.eqb network "httpupgrade" then
    <["httpupgradeSettings" :=
        JObject {[ "path" := JString path; "host" := JString host ]}]> ss
  else if String.eqb network "xhttp" || String.eqb network "splithttp" then
    <["xhttpSettings" :=
        JObject {[ "path" := JString path; "host" := JString host ]}]> ss
  else ss.

(** xrayConfig assembles the full xray JSON config document;
    [streamSettings] is [None] for a nil map. *)
Definition xrayConfig (socksPort : Z) (protocol : string) (settings : object)
    (streamSettings : option object) : object :=
  let outbound : object := {[ "protocol" := JString protocol;
                              "settings" := JObject settings ]} in
  let outbound : object :=
    match streamSettings with
    | Some ss => <["streamSettings" := JObject ss]> outbound
    | None => outbound
    end in
  {[ "log" := JObject {[ "loglevel" := JString "none" ]};
     "inbounds" := JArray [inbound socksPort];
     "outbounds" := JArray [JObject outbound] ]}.

(** The variable [config] of [generateVlessConfig]. *)
Definition vlessConfig (c : parser.VlessConfig) (socksPort : Z) : object :=
  let ss := buildStreamSettings (parser.vl_Type c) (parser.vl_Security c)
              (parser.vl_SNI c) (parser.vl_Host c) (parser.vl_Path c)
              (parser.vl_Fp c) in
  let ss : object :=
    if String.eqb (parser.vl_Security c) "reality"
       && negb (String.eqb (parser.vl_PublicKey c) EmptyString)
    then <["realitySettings" :=
             JObject {[ "serverName" := JString (parser.vl_SNI c);
                        "fingerprint" := JString (parser.vl_Fp c);
                        "publicKey" := JString (parser.vl_PublicKey c);
                        "shortId" := JString (parser.vl_ShortID c) ]}]> ss
    else ss in
  let enc := if String.eqb (parser.vl_Encryption c) EmptyString then "none"
             else parser.vl_Encryption c in
  let user : object := {[ "id" := JString (parser.vl_UUID c);
                          "encryption" := JString enc ]} in
  let user : object :=
    if negb (String.eqb (parser.vl_Flow c) EmptyString)
    then <["flow" := JString (parser.vl_Flow c)]> user else user in
  xrayConfig socksPort "vless"
    {[ "vnext" :=
         JArray [JObject {[ "address" := JString (parser.vl_Server c);
                            "port" := JNumber (parser.vl_Port c);
                            "users" := JArray [JObject user] ]}] ]}
    (Some ss).

(** The variable [config] of [generateSSConfig]. *)
Definition ssConfig (c : parser.SSConfig) (socksPort : Z) : object :=
  xrayConfig socksPort "shadowsocks"
    {[ "servers" :=
         JArray [JObject {[ "address" := JString (parser.ss_Server c);
                            "port" := JNumber (parser.ss_Port c);
                            "method" := JString (parser.ss_Method c);
                            "password" := JString (parser.ss_Password c) ]}] ]}
    None.

(** The variable [config] of [generateVmessConfig]. *)
Definition vmessConfig (c : parser.VmessConfig) (socksPort : Z) : object :=
  let security := if String.eqb (parser.vm_Security c) EmptyString then "auto"
                  else parser.vm_Security c in
  let tlsSec := if String.eqb (parser.vm_TLS c) "tls" then "tls"
                else EmptyString in
  let ss := buildStreamSettings (parser.vm_Network c) tlsSec (parser.vm_SNI c)
              (parser.vm_Host c) (parser.vm_Path c) EmptyString in
  xrayConfig socksPort "vmess"
    {[ "vnext" :=
         JArray [JObject
           {[ "address" := JString (parser.vm_Server c);
              "port" := JNumber (parser.vm_Port c);
              "users" :=
                JArray [JObject {[ "id" := JString (parser.vm_UUID c);
                                   "alterId" := JNumber (parser.vm_Aid c);
                                   "security" := JString security ]}] ]}] ]}
    (Some ss).

(** The variable [config] of [generateTrojanConfig]. *)
Definition trojanConfig (c : parser.TrojanConfig) (socksPort : Z) : object :=
  let security := if String.eqb (parser.tr_Security c) EmptyString then "tls"
                  else parser.tr_Security c in
  let ss := buildStreamSettings (parser.tr_Type c) security (parser.tr_SNI c)
              (parser.tr_Host c) (parser.tr_Path c) (parser.tr_Fp c) in
  xrayConfig socksPort "trojan"
    {[ "servers" :=
         JArray [JObject {[ "address" := JString (parser.tr_Server c);
                            "port" := JNumber (parser.tr_Port c);
                            "password" := JString (parser.tr_Password c) ]}] ]}
    (Some ss).

(** The encoder of the library: [json.MarshalIndent(v, prefix, indent)]. *)
Class Encoder : Type := {
  json_MarshalIndent : value -> string -> string -> result string
}.

Section Generate.
Context {enc : Encoder}.

Definition generateVlessConfig (c : parser.VlessConfig) (socksPort : Z)
    : result string :=
  json_MarshalIndent (JObject (vlessConfig c socksPort)) EmptyString "  ".

Definition generateSSConfig (c : parser.SSConfig) (socksPort : Z)
    : result string :=
  json_MarshalIndent (JObject (ssConfig c socksPort)) EmptyString "  ".

Definition generateVmessConfig (c : parser.VmessConfig) (socksPort : Z)
    : result string :=
  json_MarshalIndent (JObject (vmessConfig c socksPort)) EmptyString "  ".

Definition generateTrojanConfig (c : parser.TrojanConfig) (socksPort : Z)
    : result string :=
  json_MarshalIndent (JObject (trojanConfig c socksPort)) EmptyString "  ".

(** GenerateConfig creates an xray JSON config for the given proxy. The
    four types of [parser.ProxyConfig] are the cases of the type switch;
    its default case is that of a value of no such type. *)
Definition GenerateConfig (cfg : parser.ProxyConfig) (socksPort : Z)
    : result string :=
  match cfg with
  | parser.Vless c => generateVlessConfig c socksPort
  | parser.SS c => generateSSConfig c socksPort
  | parser.Vmess c => generateVmessConfig c socksPort
  | parser.Trojan c => generateTrojanConfig c socksPort
  end.

End Generate.

(** The document that [GenerateConfig] marshals. *)
Definition document (cfg : parser.ProxyConfig) (socksPort : Z) : object :=
  match cfg with
  | parser.Vless c => vlessConfig c socksPort
  | parser.SS c => ssConfig c socksPort
  | parser.Vmess c => vmessConfig c socksPort
  | parser.Trojan c => trojanConfig c socksPort
  end.

(** *** The reader that feeds the configuration to the engine *)

Record bytesReader : Type := {
  data : list ascii;
  pos : nat
}.

(** io.EOF *)
Definition EOF : error := errorString "EOF".

(** [Read(p)]: the buffer and the reader after the call, and the pair
    [(n, err)] it returns. [copy] writes over the first [n] bytes of [p],
    [n] being the smaller of the two lengths. *)
Definition Read (r : bytesReader) (p : list ascii)
    : (list ascii * bytesReader) * (Z * option error) :=
  if (length (data r) <=? pos r)%nat then ((p, r), (0, Some EOF))
  else
    let src := drop (pos r) (data r) in
    let n := Nat.min (length p) (length src) in
    ((take n src ++ drop n p, {| data := data r; pos := pos r + n |}),
     (Z.of_nat n, None)).

(** Calls of [Read] one after the other, each with a buffer of its own:
    the bytes [p[:n]] that the calls deliver, one list per call, and the
    reader after the last. *)
Fixpoint reads (r : bytesReader) (bufs : list (list ascii))
    : list (list ascii) * bytesReader :=
  match bufs with
  | [] => ([], r)
  | p :: bufs' =>
      let '((p', r'), (n, _)) := Read r p in
      let '(chunks, r'') := reads r' bufs' in
      (take (Z.to_nat n) p' :: chunks, r'')
  end.

End xray.

(** ** Accessors for the generated document *)

Module xray_ghost.
Import xray.

Definition as_object (v : option value) : option object :=
  match v with Some (JObject m) => Some m | _ => None end.

Definition only (v : option value) : option value :=
  match v with Some (JArray [x]) => Some x | _ => None end.

(** The only outbound of a document. *)
Definition outbound_of (doc : object) : option object :=
  as_object (only (doc !! "outbounds")).

(** The [streamSettings] of the only outbound. *)
Definition stream_of (doc : object) : option object :=
  ob ← outbound_of doc; as_object (ob !! "streamSettings").

(** The first server of the outbound, under [vnext] or [servers]. *)
Definition server_of (key : string) (doc : object) : option object :=
  ob ← outbound_of doc;
  settings ← as_object (ob !! "settings");
  as_object (only (settings !! key)).

(** The only user of the first server. *)
Definition user_of (doc : object) : option object :=
  server ← server_of "vnext" doc; as_object (only (server !! "users")).

(** The key under which a protocol lists its servers. *)
Definition servers_key (cfg : parser.ProxyConfig) : string :=
  match cfg with
  | parser.Vless _ | parser.Vmess _ => "vnext"
  | parser.SS _ | parser.Trojan _ => "servers"
  end.

End xray_ghost.

(** * Properties of the base64 decoder *)

Module base64_facts.
Import base64.

(** ** Packing bytes and 6-bit digits *)

Lemma lor_mul_add (hi lo n : Z) :
  0 <= n -> 0 <= lo < 2 ^ n -> Z.lor (hi * 2 ^ n) lo = hi * 2 ^ n + lo.
Proof.
  intros Hn Hlo.
  rewrite <- Z.lxor_lor; [symmetry; apply Z.add_nocarry_lxor|].
  all: apply Z.bits_inj'; intros m Hm; rewrite Z.land_spec, Z.bits_0.
  all: destruct (Z.lt_ge_cases m n).
  all: try (rewrite Z.mul_pow2_bits_low by lia; reflexivity).
  all: rewrite <- (Z.mod_small lo (2 ^ n)) by lia.
  all: rewrite Z.mod_pow2_bits_high by lia; apply andb_false_r.
Qed.

Lemma land_63 x : Z.land x 63 = x mod 64.
Proof. change 63 with (Z.ones 6). rewrite Z.land_ones by lia. reflexivity. Qed.

Lemma land_255 x : Z.land x 255 = x mod 256.
Proof. change 255 with (Z.ones 8). rewrite Z.land_ones by lia. reflexivity. Qed.

Lemma land_63_range x : 0 <= Z.land x 63 < 64.
Proof. rewrite land_63. apply Z.mod_pos_bound. lia. Qed.

Lemma pack_sextets (d0 d1 d2 d3 : Z) :
  0 <= d1 < 64 -> 0 <= d2 < 64 -> 0 <= d3 < 64 ->
  Z.lor (Z.lor (Z.lor (Z.shiftl d0 18) (Z.shiftl d1 12)) (Z.shiftl d2 6)) d3
  = d0 * 262144 + d1 * 4096 + d2 * 64 + d3.
Proof.
  intros H1 H2 H3. rewrite !Z.shiftl_mul_pow2 by lia.
  rewrite (lor_mul_add d0 (d1 * 2 ^ 12) 18) by lia.
  replace (d0 * 2 ^ 18 + d1 * 2 ^ 12) with ((d0 * 64 + d1) * 2 ^ 12) by lia.
  rewrite (lor_mul_add _ (d2 * 2 ^ 6) 12) by lia.
  replace ((d0 * 64 + d1) * 2 ^ 12 + d2 * 2 ^ 6)
    with (((d0 * 64 + d1) * 64 + d2) * 2 ^ 6) by lia.
  rewrite lor_mul_add by lia. lia.
Qed.

Lemma byte_val_range c : 0 <= byte_val c < 256.
Proof.
  unfold byte_val. pose proof (N_ascii_bounded c). lia.
Qed.

Lemma byte_of_val (n : Z) c : n mod 256 = byte_val c -> byte_of n = c.
Proof.
  intros H. unfold byte_of. rewrite land_255, H. unfold byte_val.
  rewrite N2Z.id. apply ascii_N_embedding.
Qed.

(** The digits of three bytes give the three bytes back. *)
Lemma quantum_bytes_3 a b c :
  let val := Z.lor (Z.lor (Z.shiftl (byte_val a) 16)
                          (Z.shiftl (byte_val b) 8)) (byte_val c) in
  quantum_bytes [Z.land (Z.shiftr val 18) 63; Z.land (Z.shiftr val 12) 63;
                 Z.land (Z.shiftr val 6) 63; Z.land val 63] 4
  = String a (String b (String c EmptyString)).
Proof.
  pose proof (byte_val_range a) as Ha. pose proof (byte_val_range b) as Hb.
  pose proof (byte_val_range c) as Hc. cbv zeta.
  replace (Z.lor (Z.lor (Z.shiftl (byte_val a) 16) (Z.shiftl (byte_val b) 8))
                 (byte_val c))
    with (byte_val a * 65536 + byte_val b * 256 + byte_val c).
  2:{ rewrite !Z.shiftl_mul_pow2 by lia.
      rewrite (lor_mul_add _ (byte_val b * 2 ^ 8) 16) by lia.
      replace (byte_val a * 2 ^ 16 + byte_val b * 2 ^ 8)
        with ((byte_val a * 256 + byte_val b) * 2 ^ 8) by lia.
      rewrite lor_mul_add by lia. lia. }
  unfold quantum_bytes. cbn [lookup_total list_lookup_total].
  rewrite pack_sextets by apply land_63_range.
  rewrite !land_63, !Z.shiftr_div_pow2 by lia.
  set (A := byte_val a) in *. set (B := byte_val b) in *.
  set (C := byte_val c) in *.
  change (2 ^ 18) with 262144. change (2 ^ 12) with 4096.
  change (2 ^ 6) with 64. change (2 ^ 16) with 65536. change (2 ^ 8) with 256.
  repeat f_equal; apply byte_of_val; fold A B C;
    Z.div_mod_to_equations; lia.
Qed.

Lemma quantum_bytes_2 a b :
  let val := Z.lor (Z.shiftl (byte_val a) 16) (Z.shiftl (byte_val b) 8) in
  quantum_bytes [Z.land (Z.shiftr val 18) 63; Z.land (Z.shiftr val 12) 63;
                 Z.land (Z.shiftr val 6) 63; 0] 3
  = String a (String b EmptyString).
Proof.
  pose proof (byte_val_range a) as Ha. pose proof (byte_val_range b) as Hb.
  cbv zeta.
  replace (Z.lor (Z.shiftl (byte_val a) 16) (Z.shiftl (byte_val b) 8))
    with (byte_val a * 65536 + byte_val b * 256).
  2:{ rewrite !Z.shiftl_mul_pow2 by lia.
      rewrite (lor_mul_add _ (byte_val b * 2 ^ 8) 16) by lia. lia. }
  unfold quantum_bytes. cbn [lookup_total list_lookup_total].
  rewrite pack_sextets by (apply land_63_range || lia).
  rewrite !land_63, !Z.shiftr_div_pow2 by lia.
  set (A := byte_val a) in *. set (B := byte_val b) in *.
  change (2 ^ 18) with 262144. change (2 ^ 12) with 4096.
  change (2 ^ 6) with 64. change (2 ^ 16) with 65536. change (2 ^ 8) with 256.
  repeat f_equal; apply byte_of_val; fold A B;
    Z.div_mod_to_equations; lia.
Qed.

Lemma quantum_bytes_1 a :
  let val := Z.shiftl (byte_val a) 16 in
  quantum_bytes [Z.land (Z.shiftr val 18) 63; Z.land (Z.shiftr val 12) 63;
                 0; 0] 2
  = String a EmptyString.
Proof.
  pose proof (byte_val_range a) as Ha. cbv zeta.
  rewrite (Z.shiftl_mul_pow2 (byte_val a)) by lia.
  unfold quantum_bytes. cbn [lookup_total list_lookup_total].
  rewrite pack_sextets by (apply land_63_range || lia).
  rewrite !land_63, !Z.shiftr_div_pow2 by lia.
  set (A := byte_val a) in *.
  change (2 ^ 18) with 262144. change (2 ^ 12) with 4096.
  change (2 ^ 16) with 65536.
  repeat f_equal; apply byte_of_val; fold A;
    Z.div_mod_to_equations; lia.
Qed.

(** ** Decoding what was encoded *)

Lemma append_assoc (a b c : string) : (a +:+ b) +:+ c = a +:+ (b +:+ c).
Proof.
  induction a as [|x a IH]; [reflexivity|].
  change (String x ((a +:+ b) +:+ c) = String x (a +:+ (b +:+ c))).
  by rewrite IH.
Qed.

Lemma append_nil_r (a : string) : a +:+ EmptyString = a.
Proof.
  induction a as [|x a IH]; [reflexivity|].
  change (String x (a +:+ EmptyString) = String x a). by rewrite IH.
Qed.

(** One step of the decoder on a byte of the alphabet. *)
Lemma decode_sextet enc v rest si j dbuf out :
  well_formed enc -> 0 <= v < 64 ->
  decode enc (String (encodeChar enc v) rest) si j dbuf out
  = if Nat.eqb j 3
    then decode enc rest (si + 1) 0 [0; 0; 0; 0]
           (out +:+ quantum_bytes (<[j := v]> dbuf) 4)
    else decode enc rest (si + 1) (S j) (<[j := v]> dbuf) out.
Proof. intros (Hch & _ & _) Hv. cbn [decode]. by rewrite (Hch v Hv). Qed.

(** The end of an encoded text, after the two or three digits of its last
    quantum: the padding, if the encoding has any. *)
Lemma decode_tail enc n si dbuf out :
  well_formed enc -> (n = 1 \/ n = 2)%nat ->
  decode enc (match n with
              | 1%nat => pad enc
              | _ => pad enc +:+ pad enc
              end) si (4 - n) dbuf out
  = Ok (out +:+ quantum_bytes dbuf (4 - n)).
Proof.
  intros (_ & Heq & [Hp|Hp]) [->| ->]; unfold pad; rewrite Hp.
  - cbn -[quantum_bytes]. by rewrite Hp.
  - change (EmptyString +:+ EmptyString) with EmptyString.
    cbn -[quantum_bytes]. by rewrite Hp.
  - cbn -[quantum_bytes]. unfold is_pad. rewrite Heq, Hp. reflexivity.
  - change (String "=" EmptyString +:+ String "=" EmptyString)
      with (String "="%char (String "="%char EmptyString)).
    cbn -[quantum_bytes]. unfold is_pad. rewrite Heq, Hp. reflexivity.
Qed.

Lemma decode_encode enc :
  well_formed enc ->
  forall n p si out,
    (String.length p <= n)%nat ->
    decode enc (EncodeToString enc p) si 0 [0; 0; 0; 0] out = Ok (out +:+ p).
Proof.
  intros Hwf. induction n as [n IH] using lt_wf_ind.
  intros p si out Hn.
  destruct p as [|a [|b [|c rest]]].
  - cbn. by rewrite append_nil_r.
  - cbn [EncodeToString].
    rewrite !(decode_sextet enc) by (done || apply land_63_range).
    cbn [Nat.eqb insert list_insert].
    rewrite (decode_tail enc 2 _ _ _ Hwf) by auto.
    cbn [Nat.sub]. by rewrite quantum_bytes_1.
  - cbn [EncodeToString].
    rewrite !(decode_sextet enc) by (done || apply land_63_range).
    cbn [Nat.eqb insert list_insert].
    rewrite (decode_tail enc 1 _ _ _ Hwf) by auto.
    cbn [Nat.sub]. by rewrite quantum_bytes_2.
  - cbn [EncodeToString].
    rewrite !(decode_sextet enc) by (done || apply land_63_range).
    cbn [Nat.eqb insert list_insert].
    rewrite quantum_bytes_3.
    rewrite (IH (String.length rest)); [|cbn in Hn; lia|lia].
    by rewrite append_assoc.
Qed.

(** ** The three encodings *)

Lemma sextet_cases (f : Z -> bool) :
  List.forallb f (map Z.of_nat (seq 0 64)) = true ->
  forall v, 0 <= v < 64 -> f v = true.
Proof.
  intros H v Hv. rewrite List.forallb_forall in H. apply H.
  apply in_map_iff. exists (Z.to_nat v). split; [lia|].
  apply in_seq. lia.
Qed.

Lemma sextet_decoded_spec enc :
  List.forallb (sextet_decoded enc) (map Z.of_nat (seq 0 64)) = true ->
  forall v, 0 <= v < 64 -> decodeMap enc (encodeChar enc v) = Some v.
Proof.
  intros H v Hv. pose proof (sextet_cases _ H v Hv) as Hd.
  unfold sextet_decoded in Hd.
  destruct (decodeMap enc (encodeChar enc v)); [|discriminate].
  f_equal. lia.
Qed.

Lemma well_formed_Std : well_formed StdEncoding.
Proof.
  split; [apply sextet_decoded_spec; vm_compute; reflexivity|].
  split; [reflexivity|right; reflexivity].
Qed.

Lemma well_formed_URL : well_formed URLEncoding.
Proof.
  split; [apply sextet_decoded_spec; vm_compute; reflexivity|].
  split; [reflexivity|right; reflexivity].
Qed.

Lemma well_formed_RawURL : well_formed RawURLEncoding.
Proof.
  split; [apply sextet_decoded_spec; vm_compute; reflexivity|].
  split; [reflexivity|left; reflexivity].
Qed.

Lemma DecodeString_EncodeToString enc p :
  well_formed enc -> DecodeString enc (EncodeToString enc p) = Ok p.
Proof.
  intros Hwf. unfold DecodeString.
  by rewrite (decode_encode enc Hwf (String.length p)).
Qed.

Ltac by_cases_on_byte :=
  intros [[] [] [] [] [] [] [] []]; vm_compute; auto.

Lemma compatible_RawURL_Std : compatible RawURLEncoding StdEncoding.
Proof. by_cases_on_byte. Qed.

Lemma compatible_RawURL_URL : compatible RawURLEncoding URLEncoding.
Proof. by_cases_on_byte. Qed.

Lemma compatible_Std_URL : compatible StdEncoding URLEncoding.
Proof. by_cases_on_byte. Qed.

(** Two compatible encodings that both decode a text decode it to the
    same bytes. *)
Lemma decode_agree e1 e2 :
  compatible e1 e2 ->
  forall src si j dbuf out q1 q2,
    decode e1 src si j dbuf out = Ok q1 ->
    decode e2 src si j dbuf out = Ok q2 ->
    q1 = q2.
Proof.
  intros Hc. induction src as [|c rest IH]; intros si j dbuf out q1 q2 H1 H2.
  - cbn -[quantum_bytes] in H1, H2. destruct j as [|[|j]]; [congruence|done|].
    destruct (padChar e1), (padChar e2); congruence.
  - cbn -[quantum_bytes] in H1, H2. specialize (Hc c).
    destruct (decodeMap e1 c) as [v1|], (decodeMap e2 c) as [v2|].
    + subst v2. destruct (Nat.eqb j 3); eauto.
    + destruct Hc as [Hnl Hp]. rewrite Hnl, Hp in H2. done.
    + destruct Hc as [Hnl Hp]. rewrite Hnl, Hp in H1. done.
    + destruct (is_nl c); [eauto|].
      destruct (is_pad e1 c), (is_pad e2 c); try done.
      cbn -[quantum_bytes] in H1, H2.
      destruct j as [|[|[|j]]]; try done; [|congruence].
      destruct (skip_nl rest (si + 1)) as [[|c2 rest2] si1]; [done|].
      destruct (is_pad e1 c2), (is_pad e2 c2); try done.
      cbn -[quantum_bytes] in H1, H2. congruence.
Qed.

Lemma DecodeString_agree e1 e2 s q1 q2 :
  compatible e1 e2 ->
  DecodeString e1 s = Ok q1 -> DecodeString e2 s = Ok q2 -> q1 = q2.
Proof. intros Hc. apply decode_agree, Hc. Qed.

(** ** Percent-decoding of base64 text *)

Lemma QueryUnescape_plus s :
  strs.contains "%" s = false ->
  url.QueryUnescape s = Ok (url.plus_to_space s).
Proof.
  induction s as [|c s IH]; [reflexivity|].
  cbn [strs.contains]. intros [Hc Hs]%orb_false_iff.
  cbn [url.QueryUnescape url.plus_to_space]. rewrite Hc, (IH Hs).
  destruct (Ascii.eqb c "+"); reflexivity.
Qed.

Lemma plus_to_space_contains s :
  strs.contains "+" s = true ->
  strs.contains " " (url.plus_to_space s) = true.
Proof.
  induction s as [|c s IH]; [done|].
  cbn [strs.contains url.plus_to_space].
  destruct (Ascii.eqb c "+"); [done|]. cbn [orb]. intros H.
  rewrite (IH H). apply orb_true_r.
Qed.

Lemma contains_append c a b :
  strs.contains c a = true -> strs.contains c (a +:+ b) = true.
Proof.
  induction a as [|x a IH]; [done|].
  change (String x a +:+ b) with (String x (a +:+ b)).
  cbn [strs.contains]. destruct (Ascii.eqb x c); [done|]. exact IH.
Qed.

(** Every byte of an encoded text is a byte of the alphabet or the
    padding byte. *)
Lemma EncodeToString_forallb (f : ascii -> bool) enc :
  (forall v, 0 <= v < 64 -> f (encodeChar enc v) = true) ->
  strs.forallb f (pad enc) = true ->
  forall n p, (String.length p <= n)%nat ->
    strs.forallb f (EncodeToString enc p) = true.
Proof.
  intros Hch Hpad. induction n as [n IH] using lt_wf_ind. intros p Hn.
  assert (Hpad2 : strs.forallb f (pad enc +:+ pad enc) = true).
  { unfold pad in *. destruct (padChar enc) as [c|]; [|done].
    cbn [strs.forallb] in Hpad. apply andb_true_iff in Hpad as [Hc _].
    change (String c EmptyString +:+ String c EmptyString)
      with (String c (String c EmptyString)).
    cbn [strs.forallb]. by rewrite Hc. }
  destruct p as [|a [|b [|c rest]]]; [done|..];
    cbn [EncodeToString strs.forallb];
    rewrite !Hch by apply land_63_range; cbn [andb]; try done.
  apply (IH (String.length rest)); [cbn in Hn; lia|lia].
Qed.

(** A padded encoding yields whole quanta. *)
Lemma EncodeToString_length enc c :
  padChar enc = Some c ->
  forall n p, (String.length p <= n)%nat ->
    (String.length (EncodeToString enc p) mod 4 = 0)%nat.
Proof.
  intros Hp. induction n as [n IH] using lt_wf_ind. intros p Hn.
  destruct p as [|a [|b [|d rest]]]; [done|..];
    cbn [EncodeToString]; unfold pad; rewrite ?Hp; [done|done|].
  cbn [String.length].
  replace (S (S (S (S (String.length (EncodeToString enc rest))))))
    with (String.length (EncodeToString enc rest) + 1 * 4)%nat by lia.
  rewrite Nat.Div0.mod_add.
  apply (IH (String.length rest)); [cbn in Hn; lia|lia].
Qed.

(** ** A space is fatal to all three decoders *)

Lemma skip_nl_contains src si :
  strs.contains " " src = true ->
  strs.contains " " (skip_nl src si).1 = true.
Proof.
  revert si. induction src as [|c rest IH]; intros si; [done|].
  cbn [skip_nl]. destruct (is_nl c) eqn:Hnl; [|done].
  cbn [strs.contains]. destruct (Ascii.eqb_spec c " ") as [->|_]; [done|].
  apply IH.
Qed.

Lemma after_padding_space rest si out :
  strs.contains " " rest = true ->
  exists e, after_padding rest si out = Err e.
Proof.
  intros H. unfold after_padding.
  pose proof (skip_nl_contains rest si H) as H'.
  destruct (skip_nl rest si) as [[|c r] si']; [done|]. eauto.
Qed.

Lemma decode_space enc :
  decodeMap enc " " = None -> is_pad enc " " = false ->
  forall src si j dbuf out,
    strs.contains " " src = true ->
    exists e, decode enc src si j dbuf out = Err e.
Proof.
  intros Hmap Hpad. induction src as [|c rest IH]; intros si j dbuf out H;
    [done|].
  cbn [strs.contains] in H. cbn -[quantum_bytes].
  destruct (Ascii.eqb_spec c " ") as [->|Hne].
  { rewrite Hmap, Hpad. cbn. eauto. }
  cbn [orb] in H.
  destruct (decodeMap enc c); [destruct (Nat.eqb j 3); eauto|].
  destruct (is_nl c); [eauto|].
  destruct (is_pad enc c); cbn; [|eauto].
  destruct j as [|[|[|j]]]; eauto using after_padding_space.
  pose proof (skip_nl_contains rest (si + 1) H) as H'.
  destruct (skip_nl rest (si + 1)) as [[|c2 rest2] si1]; [done|].
  cbn [fst strs.contains] in H'.
  destruct (is_pad enc c2) eqn:Hc2; cbn; [|eauto].
  destruct (Ascii.eqb_spec c2 " ") as [->|_]; [congruence|].
  eauto using after_padding_space.
Qed.

Lemma DecodeString_space enc s :
  decodeMap enc " " = None -> is_pad enc " " = false ->
  strs.contains " " s = true ->
  exists e, DecodeString enc s = Err e.
Proof. intros Hm Hp. by apply decode_space. Qed.

Lemma plus_to_space_id s :
  strs.contains "+" s = false -> url.plus_to_space s = s.
Proof.
  induction s as [|c s IH]; [done|].
  cbn [strs.contains url.plus_to_space]. intros [Hc Hs]%orb_false_iff.
  by rewrite Hc, (IH Hs).
Qed.

Lemma forallb_contains c s :
  strs.forallb (fun d => negb (Ascii.eqb d c)) s = true ->
  strs.contains c s = false.
Proof.
  induction s as [|d s IH]; [done|].
  cbn [strs.forallb strs.contains]. intros [Hd Hs]%andb_true_iff.
  apply negb_true_iff in Hd. by rewrite Hd, (IH Hs).
Qed.

(** No byte of the three alphabets is [%], and [=] is not either. *)
Lemma EncodeToString_percent enc p :
  enc = StdEncoding \/ enc = URLEncoding \/ enc = RawURLEncoding ->
  strs.contains "%" (EncodeToString enc p) = false.
Proof.
  intros Henc. apply forallb_contains.
  apply (EncodeToString_forallb _ enc) with (n := String.length p); [| |lia].
  - apply sextet_cases.
    destruct Henc as [->|[->| ->]]; vm_compute; reflexivity.
  - destruct Henc as [->|[->| ->]]; reflexivity.
Qed.

(** No byte of the URL-safe alphabet is [+]. *)
Lemma EncodeToString_plus enc p :
  enc = URLEncoding \/ enc = RawURLEncoding ->
  strs.contains "+" (EncodeToString enc p) = false.
Proof.
  intros Henc. apply forallb_contains.
  apply (EncodeToString_forallb _ enc) with (n := String.length p); [| |lia].
  - apply sextet_cases. destruct Henc as [->| ->]; vm_compute; reflexivity.
  - destruct Henc as [->| ->]; reflexivity.
Qed.

Lemma padded_EncodeToString enc c p :
  padChar enc = Some c ->
  parser.padded (EncodeToString enc p) = EncodeToString enc p.
Proof.
  intros Hp. unfold parser.padded.
  by rewrite (EncodeToString_length enc c Hp (String.length p)).
Qed.

Lemma padded_contains c s :
  strs.contains c s = true -> strs.contains c (parser.padded s) = true.
Proof.
  intros H. unfold parser.padded.
  destruct (String.length s mod 4)%nat as [|[|[|[|?]]]];
    auto using contains_append.
Qed.

(** ** The decoder of the parser *)

(** After the percent-decoding, the three variants are tried in a fixed
    order, and the first that decodes wins. *)
Lemma base64DecodeUserinfo_unescaped s t :
  url.QueryUnescape s = Ok t ->
  parser.base64DecodeUserinfo s
  = match DecodeString RawURLEncoding t with
    | Ok b => Ok b
    | Err _ =>
        match DecodeString StdEncoding (parser.padded t) with
        | Ok b => Ok b
        | Err _ =>
            match DecodeString URLEncoding (parser.padded t) with
            | Ok b => Ok b
            | Err e => Err (wrapError "base64 decode failed" e)
            end
        end
    end.
Proof. intros H. unfold parser.base64DecodeUserinfo. by rewrite H. Qed.

Lemma roundtrip_RawURL p :
  parser.base64DecodeUserinfo (EncodeToString RawURLEncoding p) = Ok p.
Proof.
  rewrite (base64DecodeUserinfo_unescaped _ (EncodeToString RawURLEncoding p)).
  - by rewrite DecodeString_EncodeToString by apply well_formed_RawURL.
  - rewrite QueryUnescape_plus by (apply EncodeToString_percent; auto).
    by rewrite plus_to_space_id by (apply EncodeToString_plus; auto).
Qed.

Lemma roundtrip_URL p :
  parser.base64DecodeUserinfo (EncodeToString URLEncoding p) = Ok p.
Proof.
  pose proof (DecodeString_EncodeToString URLEncoding p well_formed_URL)
    as Hdec.
  rewrite (base64DecodeUserinfo_unescaped _ (EncodeToString URLEncoding p)).
  - rewrite (padded_EncodeToString URLEncoding "=") by done.
    destruct (DecodeString RawURLEncoding _) as [q|] eqn:Hraw.
    { f_equal. eapply DecodeString_agree; eauto using compatible_RawURL_URL. }
    destruct (DecodeString StdEncoding _) as [q|] eqn:Hstd.
    { f_equal. eapply DecodeString_agree; eauto using compatible_Std_URL. }
    by rewrite Hdec.
  - rewrite QueryUnescape_plus by (apply EncodeToString_percent; auto).
    by rewrite plus_to_space_id by (apply EncodeToString_plus; auto).
Qed.

Lemma roundtrip_Std p :
  strs.contains "+" (EncodeToString StdEncoding p) = false ->
  parser.base64DecodeUserinfo (EncodeToString StdEncoding p) = Ok p.
Proof.
  intros Hplus.
  pose proof (DecodeString_EncodeToString StdEncoding p well_formed_Std)
    as Hdec.
  rewrite (base64DecodeUserinfo_unescaped _ (EncodeToString StdEncoding p)).
  - rewrite (padded_EncodeToString StdEncoding "=") by done.
    destruct (DecodeString RawURLEncoding _) as [q|] eqn:Hraw.
    { f_equal. eapply DecodeString_agree; eauto using compatible_RawURL_Std. }
    by rewrite Hdec.
  - rewrite QueryUnescape_plus by (apply EncodeToString_percent; auto).
    by rewrite plus_to_space_id.
Qed.

(** A text with a [+] and without [%] is decoded by none of the three
    variants: the percent-decoding has made the [+] a space. *)
Lemma plus_rejected s :
  strs.contains "%" s = false -> strs.contains "+" s = true ->
  exists e,
    parser.base64DecodeUserinfo s
    = Err (wrapError "base64 decode failed" e).
Proof.
  intros Hpc Hplus.
  rewrite (base64DecodeUserinfo_unescaped _ _ (QueryUnescape_plus s Hpc)).
  pose proof (plus_to_space_contains s Hplus) as Hsp.
  destruct (DecodeString_space RawURLEncoding _ eq_refl eq_refl Hsp)
    as [e1 ->].
  destruct (DecodeString_space StdEncoding _ eq_refl eq_refl
              (padded_contains _ _ Hsp)) as [e2 ->].
  destruct (DecodeString_space URLEncoding _ eq_refl eq_refl
              (padded_contains _ _ Hsp)) as [e3 ->].
  eauto.
Qed.
End base64_facts.


(** * Properties of the parser *)

Module parser_facts.
Import parser.

(** ** Strings *)

Lemma HasPrefix_app (s p : string) :
  strs.HasPrefix s p = true -> exists t, s = p +:+ t.
Proof.
  revert s. induction p as [|c p IH]; intros s H.
  - exists s. reflexivity.
  - destruct s as [|d s]; simpl in H; [discriminate|].
    destruct (Ascii.eqb_spec c d) as [->|]; [|discriminate].
    destruct (IH _ H) as [t ->]. exists t. reflexivity.
Qed.

Lemma cut_absent (c : ascii) (s : string) :
  strs.contains c s = false -> strs.cut c s = None.
Proof.
  induction s as [|d s IH]; simpl; [reflexivity|].
  destruct (Ascii.eqb d c); simpl; [discriminate|].
  intros H. rewrite (IH H). reflexivity.
Qed.

Lemma cut_first (c : ascii) (a b : string) :
  strs.contains c a = false ->
  strs.cut c (a +:+ String c b) = Some (a, b).
Proof.
  induction a as [|d a IH]; simpl.
  - intros _. rewrite Ascii.eqb_refl. reflexivity.
  - destruct (Ascii.eqb d c); simpl; [discriminate|].
    intros H. rewrite (IH H). reflexivity.
Qed.

(** ** Dispatch on the scheme *)

Section Dispatch.
Context {lib : Library}.

Lemma ParseLine_vless (line : string) :
  strs.HasPrefix (strings_TrimSpace line) "vless://" = true ->
  ParseLine line = fmap_result Vless (parseVless (strings_TrimSpace line)).
Proof.
  intros H. unfold ParseLine.
  destruct (HasPrefix_app _ _ H) as [t Ht]. rewrite Ht.
  reflexivity.
Qed.

Lemma ParseLine_ss (line : string) :
  strs.HasPrefix (strings_TrimSpace line) "ss://" = true ->
  ParseLine line = fmap_result SS (parseSS (strings_TrimSpace line)).
Proof.
  intros H. unfold ParseLine.
  destruct (HasPrefix_app _ _ H) as [t Ht]. rewrite Ht.
  reflexivity.
Qed.

Lemma ParseLine_vmess (line : string) :
  strs.HasPrefix (strings_TrimSpace line) "vmess://" = true ->
  ParseLine line = fmap_result Vmess (parseVmess (strings_TrimSpace line)).
Proof.
  intros H. unfold ParseLine.
  destruct (HasPrefix_app _ _ H) as [t Ht]. rewrite Ht.
  reflexivity.
Qed.

Lemma ParseLine_trojan (line : string) :
  strs.HasPrefix (strings_TrimSpace line) "trojan://" = true ->
  ParseLine line = fmap_result Trojan (parseTrojan (strings_TrimSpace line)).
Proof.
  intros H. unfold ParseLine.
  destruct (HasPrefix_app _ _ H) as [t Ht]. rewrite Ht.
  reflexivity.
Qed.

(** A successful parse comes from the parser of its variant, run on the
    trimmed line. *)
Lemma ParseLine_Ok (line : string) (cfg : ProxyConfig) :
  ParseLine line = Ok cfg ->
  match cfg with
  | Vless c => parseVless (strings_TrimSpace line) = Ok c
  | SS c => parseSS (strings_TrimSpace line) = Ok c
  | Vmess c => parseVmess (strings_TrimSpace line) = Ok c
  | Trojan c => parseTrojan (strings_TrimSpace line) = Ok c
  end.
Proof.
  unfold ParseLine, fmap_result.
  repeat match goal with
         | |- context [if ?b then _ else _] => destruct b
         end; try discriminate.
  - destruct (parseVless _); intros [= <-]; reflexivity.
  - destruct (parseSS _); intros [= <-]; reflexivity.
  - destruct (parseVmess _); intros [= <-]; reflexivity.
  - destruct (parseTrojan _); intros [= <-]; reflexivity.
Qed.

End Dispatch.

(** ** Shadowsocks userinfo *)




(** ** Port and alterId of a vmess payload *)

(** C4, as the code has it. [toInt] turns a JSON number, a string that
    [strconv.Atoi] accepts, the empty string and null into an integer, the
    last two into zero, and reports any other JSON type as an error. For
    the port that error, like any other failure of [toInt], makes the
    parse fail with the port-coercion error. For alterId the error is
    discarded: the parse goes on with the value [toInt] returned, which is
    zero for a value of another JSON type. *)
Theorem parseVmess_coercion {lib : Library} (line data : string)
    (v : vmessJSON) :
  strs.HasPrefix (strings_TrimSpace line) "vmess://" = true ->
  base64DecodeUserinfo
    (strs.before "#" (strs.TrimPrefix (strings_TrimSpace line) "vmess://"))
  = Ok data ->
  json_Unmarshal data = Ok v ->
  (forall x, toInt (IFloat64 x) = (strconv.float64_to_int x, None))
  /\ (forall s n, strconv.Atoi s = (n, None) -> toInt (IString s) = (n, None))
  /\ toInt (IString EmptyString) = (0, None)
  /\ toInt INil = (0, None)
  /\ (forall j, uncoerced j = true ->
        toInt j = (0, Some (errorString ("unexpected type " +:+ type_name j))))
  /\ (forall p e, toInt (Port v) = (p, Some e) ->
        ParseLine line = Err (wrapError "vmess port" e))
  /\ (forall p, toInt (Port v) = (p, None) ->
        exists cfg, ParseLine line = Ok (Vmess cfg)
                    /\ vm_Port cfg = p
                    /\ vm_Aid cfg = fst (toInt (Aid v))
                    /\ (uncoerced (Aid v) = true -> vm_Aid cfg = 0)).
Proof.
  intros Hpre Hdec Hjson.
  repeat split.
  - intros s n Hs. destruct s as [|c s]; [discriminate|exact Hs].
  - intros j Hj. destruct j; try discriminate; reflexivity.
  - intros p e Hp. rewrite (ParseLine_vmess _ Hpre). unfold parseVmess.
    rewrite Hdec. cbn [wrap bind]. rewrite Hjson. cbn [wrap bind].
    rewrite Hp. reflexivity.
  - intros p Hp. rewrite (ParseLine_vmess _ Hpre). unfold parseVmess.
    rewrite Hdec. cbn [wrap bind]. rewrite Hjson. cbn [wrap bind].
    rewrite Hp. cbn [checked wrap bind fmap_result].
    eexists. split; [reflexivity|]. cbn [vm_Port vm_Aid].
    repeat split. intros Hj.
    destruct (Aid v); try discriminate; reflexivity.
Qed.

Lemma parseVmess_coercion_witness :
  @json_Unmarshal samples.library samples.vmess_payload
  = Ok samples.vmess_json
  /\ exists cfg, @ParseLine samples.library samples.vmess_line = Ok (Vmess cfg)
                 /\ vm_Port cfg = 443 /\ vm_Aid cfg = 0.
Proof.
  split; [reflexivity|].
  destruct (@parseVmess_coercion samples.library samples.vmess_line
              samples.vmess_payload samples.vmess_json
              eq_refl eq_refl eq_refl)
    as (_ & _ & _ & _ & _ & _ & Hok).
  destruct (Hok 443 eq_refl) as (cfg & Hcfg & Hport & _ & Haid).
  exists cfg. split; [exact Hcfg|]. split; [exact Hport|].
  exact (Haid eq_refl).
Defined.

(** C4, as stated, fails: with the JSON value [true] as alterId the parse
    succeeds, alterId being zero. *)
Lemma parseVmess_bool_aid_accepted :
  Aid samples.vmess_json = IBool true
  /\ @parseVmess samples.library samples.vmess_line
     = Ok {| vm_Name := "example.org:443"; vm_UUID := "b831381d";
             vm_Server := "example.org"; vm_Port := 443; vm_Aid := 0;
             vm_Security := "auto"; vm_Network := EmptyString;
             vm_TLS := EmptyString; vm_SNI := EmptyString;
             vm_Host := EmptyString; vm_Path := EmptyString |}.
Proof. split; reflexivity. Qed.

(** ** Defaults *)

(** C7: default filling. A vless or a trojan link whose URL has no port
    parses, with port 443; so does one without a [security] parameter
    whose port is a number, with the empty security for vless and [tls]
    for trojan. A shadowsocks link whose URL has no port and whose
    userinfo decodes to a method and a password parses, with port 8388.
    A vmess link whose payload has a port and no cipher parses, with the
    security [auto]. And whatever else the link has, a configuration
    that [ParseLine] yields has these defaults where the link left the
    field out. *)
Theorem ParseLine_defaults {lib : Library} (line : string) :
  let l := strings_TrimSpace line in
  (forall cfg, ParseLine line = Ok cfg ->
     match cfg with
     | Vless c =>
         forall u, url_Parse l = Ok u ->
           (url.Query u !! "security" = None -> vl_Security c = EmptyString)
           /\ (url.Port u = EmptyString -> vl_Port c = 443)
     | Trojan c =>
         forall u, url_Parse l = Ok u ->
           (url.Query u !! "security" = None -> tr_Security c = "tls")
           /\ (url.Port u = EmptyString -> tr_Port c = 443)
     | SS c =>
         forall u, url_Parse l = Ok u ->
           url.Port u = EmptyString -> ss_Port c = 8388
     | Vmess c =>
         forall data v,
           base64DecodeUserinfo
             (strs.before "#" (strs.TrimPrefix l "vmess://"))
           = Ok data ->
           json_Unmarshal data = Ok v ->
           Scy v = EmptyString -> vm_Security c = "auto"
     end)
  /\ (forall u, strs.HasPrefix l "vless://" = true -> url_Parse l = Ok u ->
        (url.Port u = EmptyString ->
         exists c, ParseLine line = Ok (Vless c) /\ vl_Port c = 443
                   /\ (url.Query u !! "security" = None ->
                       vl_Security c = EmptyString))
        /\ (forall n, strconv.Atoi (url.Port u) = (n, None) ->
            url.Port u <> EmptyString ->
            url.Query u !! "security" = None ->
            exists c, ParseLine line = Ok (Vless c) /\ vl_Port c = n
                      /\ vl_Security c = EmptyString))
  /\ (forall u, strs.HasPrefix l "trojan://" = true -> url_Parse l = Ok u ->
        (url.Port u = EmptyString ->
         exists c, ParseLine line = Ok (Trojan c) /\ tr_Port c = 443
                   /\ (url.Query u !! "security" = None ->
                       tr_Security c = "tls"))
        /\ (forall n, strconv.Atoi (url.Port u) = (n, None) ->
            url.Port u <> EmptyString ->
            url.Query u !! "security" = None ->
            exists c, ParseLine line = Ok (Trojan c) /\ tr_Port c = n
                      /\ tr_Security c = "tls"))
  /\ (forall u method password,
        strs.HasPrefix l "ss://" = true -> url_Parse l = Ok u ->
        url.Port u = EmptyString ->
        base64DecodeUserinfo (url.UserString u)
        = Ok (method +:+ String ":" password) ->
        strs.contains ":" method = false ->
        exists c, ParseLine line = Ok (SS c) /\ ss_Port c = 8388
                  /\ ss_Method c = method /\ ss_Password c = password)
  /\ (forall data v port,
        strs.HasPrefix l "vmess://" = true ->
        base64DecodeUserinfo (strs.before "#" (strs.TrimPrefix l "vmess://"))
        = Ok data ->
        json_Unmarshal data = Ok v ->
        toInt (Port v) = (port, None) ->
        Scy v = EmptyString ->
        exists c, ParseLine line = Ok (Vmess c) /\ vm_Security c = "auto"
                  /\ vm_Port c = port).
Proof.
  intros l. split; [|split; [|split; [|split]]].
  - intros cfg Hparse. apply ParseLine_Ok in Hparse. fold l in Hparse.
    destruct cfg as [c|c|c|c].
    + intros u Hu. unfold parseVless in Hparse. rewrite Hu in Hparse.
      cbn [wrap bind] in Hparse. split.
      * intros Hq.
        destruct (checked _) in Hparse; cbn [wrap bind] in Hparse;
          [|discriminate].
        injection Hparse as <-. cbn [vl_Security]. unfold url.Get.
        rewrite Hq. reflexivity.
      * intros Hp. unfold port_or in Hparse. rewrite Hp in Hparse.
        cbn in Hparse. injection Hparse as <-. reflexivity.
    + intros u Hu Hp. unfold parseSS in Hparse. rewrite Hu in Hparse.
      cbn [wrap bind] in Hparse. unfold port_or in Hparse.
      rewrite Hp in Hparse. cbn in Hparse.
      destruct (base64DecodeUserinfo _) in Hparse; cbn in Hparse;
        [|discriminate].
      destruct (strs.SplitN2 _ _) as [|? [|? [|? ?]]] in Hparse;
        try discriminate.
      injection Hparse as <-. reflexivity.
    + intros data v Hdec Hjson Hscy. unfold parseVmess in Hparse.
      rewrite Hdec in Hparse. cbn [wrap bind] in Hparse.
      rewrite Hjson in Hparse. cbn [wrap bind] in Hparse.
      destruct (checked _) in Hparse; cbn [wrap bind] in Hparse;
        [|discriminate].
      injection Hparse as <-. cbn [vm_Security]. rewrite Hscy. reflexivity.
    + intros u Hu. unfold parseTrojan in Hparse. rewrite Hu in Hparse.
      cbn [wrap bind] in Hparse. split.
      * intros Hq.
        destruct (checked _) in Hparse; cbn [wrap bind] in Hparse;
          [|discriminate].
        injection Hparse as <-. cbn [tr_Security]. unfold url.Get.
        rewrite Hq. reflexivity.
      * intros Hp. unfold port_or in Hparse. rewrite Hp in Hparse.
        cbn in Hparse. injection Hparse as <-. reflexivity.
  - intros u Hpre Hu. rewrite (ParseLine_vless line Hpre). fold l.
    unfold parseVless. rewrite Hu. cbn [wrap bind]. unfold port_or. split.
    + intros Hp. rewrite Hp. cbn.
      eexists. split; [reflexivity|]. split; [reflexivity|].
      intros Hq. cbn [vl_Security]. unfold url.Get. by rewrite Hq.
    + intros n Hn Hp Hq. apply String.eqb_neq in Hp. rewrite Hp, Hn.
      cbn [checked wrap bind fmap_result].
      eexists. split; [reflexivity|]. split; [reflexivity|].
      cbn [vl_Security]. unfold url.Get. by rewrite Hq.
  - intros u Hpre Hu. rewrite (ParseLine_trojan line Hpre). fold l.
    unfold parseTrojan. rewrite Hu. cbn [wrap bind]. unfold port_or. split.
    + intros Hp. rewrite Hp. cbn.
      eexists. split; [reflexivity|]. split; [reflexivity|].
      intros Hq. cbn [tr_Security]. unfold url.Get. by rewrite Hq.
    + intros n Hn Hp Hq. apply String.eqb_neq in Hp. rewrite Hp, Hn.
      cbn [checked wrap bind fmap_result].
      eexists. split; [reflexivity|]. split; [reflexivity|].
      cbn [tr_Security]. unfold url.Get. by rewrite Hq.
  - intros u method password Hpre Hu Hp Hdec Hm.
    rewrite (ParseLine_ss line Hpre). fold l.
    unfold parseSS. rewrite Hu. cbn [wrap bind]. unfold port_or.
    rewrite Hp. cbn. rewrite Hdec. cbn [wrap bind].
    unfold strs.SplitN2. rewrite (cut_first ":" method password Hm).
    cbn [fmap_result]. eexists. split; [reflexivity|]. by repeat split.
  - intros data v port Hpre Hdec Hjson Hport Hscy.
    rewrite (ParseLine_vmess line Hpre). fold l.
    unfold parseVmess. rewrite Hdec. cbn [wrap bind]. rewrite Hjson.
    cbn [wrap bind]. rewrite Hport. cbn [checked wrap bind fmap_result].
    eexists. split; [reflexivity|]. cbn [vm_Security vm_Port].
    by rewrite Hscy.
Qed.

Lemma ParseLine_defaults_witness :
  (exists c, @ParseLine samples_defaults.library samples_defaults.vless_line
             = Ok (Vless c)
             /\ vl_Port c = 443 /\ vl_Security c = EmptyString)
  /\ (exists c, @ParseLine samples_defaults.library samples.trojan_line
                = Ok (Trojan c)
                /\ tr_Port c = 443 /\ tr_Security c = "tls")
  /\ (exists c, @ParseLine samples_defaults.library samples_defaults.ss_line
                = Ok (SS c)
                /\ ss_Port c = 8388)
  /\ (exists c, @ParseLine samples_defaults.library samples.vmess_line
                = Ok (Vmess c)
                /\ vm_Security c = "auto").
Proof.
  pose proof (@ParseLine_defaults samples_defaults.library) as H.
  split; [|split; [|split]].
  - destruct (proj1 (proj1 (proj2 (H samples_defaults.vless_line))
                       samples_defaults.vless_url eq_refl eq_refl) eq_refl)
      as (c & Hc & Hport & Hsec).
    exists c. split; [exact Hc|]. split; [exact Hport|]. by apply Hsec.
  - destruct (proj1 (proj1 (proj2 (proj2 (H samples.trojan_line)))
                       samples.trojan_url eq_refl eq_refl) eq_refl)
      as (c & Hc & Hport & Hsec).
    exists c. split; [exact Hc|]. split; [exact Hport|]. by apply Hsec.
  - destruct (proj1 (proj2 (proj2 (proj2 (H samples_defaults.ss_line))))
                samples_defaults.ss_url "a" "b" eq_refl eq_refl eq_refl
                eq_refl eq_refl)
      as (c & Hc & Hport & _).
    exists c. by split.
  - destruct (proj2 (proj2 (proj2 (proj2 (H samples.vmess_line))))
                samples.vmess_payload samples.vmess_json 443
                eq_refl eq_refl eq_refl eq_refl eq_refl)
      as (c & Hc & Hsec & _).
    exists c. by split.
Defined.

(** ** The shared base64 decoder *)

(** C9: when the percent-decoding of the input fails, the decoder goes on
    with the empty string and succeeds with the empty plaintext. *)
Theorem base64DecodeUserinfo_bad_escape (s : string) (e : error) :
  url.QueryUnescape s = Err e ->
  base64DecodeUserinfo s = Ok EmptyString.
Proof. intros H. unfold base64DecodeUserinfo. rewrite H. reflexivity. Qed.

Lemma base64DecodeUserinfo_bad_escape_witness :
  url.QueryUnescape "YQ%zz" = Err (EscapeError "%zz")
  /\ base64DecodeUserinfo "YQ%zz" = Ok EmptyString.
Proof.
  split; [reflexivity|].
  exact (base64DecodeUserinfo_bad_escape "YQ%zz" (EscapeError "%zz") eq_refl).
Defined.

(** C5, as far as the code goes. Fed the unpadded or the padded URL-safe
    encoding of a plaintext, the decoder recovers the plaintext. Fed its
    padded standard encoding, it recovers the plaintext if and only if
    the encoding has no [+]: the percent-decoding that comes first turns
    a [+] into a space, which no variant accepts. So the plaintext [a:>],
    encoded as [YTo+], is not recovered. After the percent-decoding the
    variants are tried in the order unpadded URL-safe, padded standard,
    padded URL-safe; the first to decode wins, and the decode error is
    reported when all three have failed. *)
Theorem base64DecodeUserinfo_variants :
  (forall p,
     base64DecodeUserinfo (base64.EncodeToString base64.RawURLEncoding p)
     = Ok p)
  /\ (forall p,
        base64DecodeUserinfo (base64.EncodeToString base64.URLEncoding p)
        = Ok p)
  /\ (forall p,
        base64DecodeUserinfo (base64.EncodeToString base64.StdEncoding p)
        = Ok p
        <-> strs.contains "+" (base64.EncodeToString base64.StdEncoding p)
            = false)
  /\ (forall s t,
        url.QueryUnescape s = Ok t ->
        base64DecodeUserinfo s
        = match base64.DecodeString base64.RawURLEncoding t with
          | Ok b => Ok b
          | Err _ =>
              match base64.DecodeString base64.StdEncoding (padded t) with
              | Ok b => Ok b
              | Err _ =>
                  match base64.DecodeString base64.URLEncoding (padded t)
                  with
                  | Ok b => Ok b
                  | Err e => Err (wrapError "base64 decode failed" e)
                  end
              end
          end)
  /\ base64.EncodeToString base64.StdEncoding "a:>" = "YTo+"
  /\ base64.DecodeString base64.StdEncoding "YTo+" = Ok "a:>"
  /\ url.QueryUnescape "YTo+" = Ok "YTo "
  /\ base64DecodeUserinfo "YTo+"
     = Err (wrapError "base64 decode failed" (CorruptInputError 3)).
Proof.
  split; [apply base64_facts.roundtrip_RawURL|].
  split; [apply base64_facts.roundtrip_URL|].
  split; [|split; [apply base64_facts.base64DecodeUserinfo_unescaped|]].
  - intros p. split; [|apply base64_facts.roundtrip_Std].
    intros Hok.
    destruct (strs.contains "+" _) eqn:Hplus; [|reflexivity].
    destruct (base64_facts.plus_rejected _
                (base64_facts.EncodeToString_percent _ p (or_introl eq_refl))
                Hplus) as [e He].
    congruence.
  - repeat split.
Qed.

End parser_facts.


(** * Properties of the checker *)

Module checker_facts.
Import checker.

(** ** One check *)

Lemma Index_CheckConfig idx cfg timeout w :
  Index (fst (CheckConfig idx cfg timeout w)) = idx.
Proof.
  unfold CheckConfig, freePort, with_engine, probe.
  destruct (w_Listen w) as [port|]; [|reflexivity].
  destruct (w_GenerateConfig w cfg port) as [doc|]; [|reflexivity].
  destruct (w_Start w doc); [|reflexivity].
  destruct (waitForPort _ _ _ _) as [[?|?] t1]; [|reflexivity].
  destruct (w_SOCKS5 w _); [|reflexivity].
  destruct (w_Get w probe_url); [|reflexivity].
  destruct (w_ReadAll w) as [body|]; [|reflexivity].
  destruct (w_Unmarshal w body) as [resp|]; [|reflexivity].
  destruct (negb _); reflexivity.
Qed.

(** C2: a result of [CheckConfig] is either alive without an error
    message, carrying the latency of the request and the exit address and
    country the provider reported, or dead with a non-empty error
    message. *)
Theorem CheckConfig_alive_or_error idx cfg timeout w :
  let r := fst (CheckConfig idx cfg timeout w) in
  (Alive r = true /\ Error r = EmptyString
   /\ exists elapsed body resp,
        w_Get w probe_url = Done elapsed /\ w_ReadAll w = Done body
        /\ w_Unmarshal w body = Done resp /\ Status resp = "success"
        /\ Latency r = elapsed /\ ExitIP r = Query resp
        /\ Country r = CountryName resp)
  \/ (Alive r = false /\ Error r <> EmptyString).
Proof.
  unfold CheckConfig, freePort, with_engine, probe.
  destruct (w_Listen w) as [port|]; [|right; split; [reflexivity|discriminate]].
  destruct (w_GenerateConfig w cfg port) as [doc|];
    [|right; split; [reflexivity|discriminate]].
  destruct (w_Start w doc); [|right; split; [reflexivity|discriminate]].
  destruct (waitForPort _ _ _ _) as [[?|?] t1];
    [|right; split; [reflexivity|discriminate]].
  destruct (w_SOCKS5 w _); [|right; split; [reflexivity|discriminate]].
  destruct (w_Get w probe_url) as [elapsed|];
    [|right; split; [reflexivity|discriminate]].
  destruct (w_ReadAll w) as [body|];
    [|right; split; [reflexivity|discriminate]].
  destruct (w_Unmarshal w body) as [resp|] eqn:Hresp;
    [|right; split; [reflexivity|discriminate]].
  destruct (String.eqb_spec (Status resp) "success") as [Hs|Hs]; cbn.
  - left. split; [reflexivity|]. split; [reflexivity|].
    exists elapsed, body, resp. rewrite Hresp. auto 10.
  - right. split; [reflexivity|discriminate].
Qed.

(** C10: when the GET has brought a response and a later step fails (the
    body cannot be read, is not the expected JSON, or reports a status
    other than [success]) the result is dead with a non-empty error, and
    its latency is the measured one. *)
Theorem CheckConfig_late_failure_latency idx cfg timeout w port doc t
    elapsed :
  w_Listen w = Done port ->
  w_GenerateConfig w cfg port = Done doc ->
  w_Start w doc = Done tt ->
  waitForPort w "127.0.0.1" port (3 * Second) = (Done tt, t) ->
  w_SOCKS5 w ("127.0.0.1:" +:+ fmt.d port) = Done tt ->
  w_Get w probe_url = Done elapsed ->
  ((exists err, w_ReadAll w = Failed err)
   \/ (exists body err,
         w_ReadAll w = Done body /\ w_Unmarshal w body = Failed err)
   \/ (exists body resp,
         w_ReadAll w = Done body /\ w_Unmarshal w body = Done resp
         /\ Status resp <> "success")) ->
  let r := fst (CheckConfig idx cfg timeout w) in
  Alive r = false /\ Error r <> EmptyString /\ Latency r = elapsed.
Proof.
  intros Hl Hg Hs Hw Hd Hget Hlate.
  unfold CheckConfig, freePort, with_engine, probe.
  rewrite Hl, Hg, Hs, Hw, Hd, Hget.
  destruct Hlate as [[err Hr]|[(body & err & Hr & Hu)|(body & resp & Hr & Hu & Hst)]];
    rewrite Hr; try rewrite Hu; cbn.
  - repeat split; discriminate.
  - repeat split; discriminate.
  - destruct (String.eqb_spec (Status resp) "success"); [contradiction|].
    cbn. repeat split; discriminate.
Qed.

Lemma CheckConfig_late_failure_latency_witness :
  w_Get samples.world_provider_fails probe_url = Done (120 * Millisecond)
  /\ Alive (fst (CheckConfig 1 samples.config (10 * Second)
                   samples.world_provider_fails)) = false
  /\ Latency (fst (CheckConfig 1 samples.config (10 * Second)
                     samples.world_provider_fails)) = 120 * Millisecond.
Proof.
  split; [reflexivity|].
  destruct (CheckConfig_late_failure_latency 1 samples.config (10 * Second)
              samples.world_provider_fails 40123 "{}"
              (polls "127.0.0.1:40123" 2
               ++ [EvDial "127.0.0.1:40123" (200 * Millisecond)])
              (120 * Millisecond) eq_refl eq_refl eq_refl)
    as (Ha & _ & Hl).
  - vm_compute. reflexivity.
  - reflexivity.
  - reflexivity.
  - right. right. eexists "body", _. split; [reflexivity|].
    split; [reflexivity|]. discriminate.
  - split; [exact Ha|exact Hl].
Defined.

(** ** The readiness wait *)

Lemma sleeps_left_0 deadline now :
  now < deadline -> (0 < sleeps_left deadline now)%nat.
Proof.
  intros H. unfold sleeps_left, Millisecond.
  assert (0 < (deadline - now + (100 * 1000000 - 1)) / (100 * 1000000))
    by (Z.div_mod_to_equations; lia).
  lia.
Qed.

Lemma sleeps_left_step deadline now (d e : N) :
  now < deadline ->
  (S (sleeps_left deadline (now + Z.of_N d + 100 * Millisecond + Z.of_N e))
   <= sleeps_left deadline now)%nat.
Proof.
  intros H. unfold sleeps_left, Millisecond.
  pose proof (N2Z.is_nonneg d). pose proof (N2Z.is_nonneg e).
  match goal with
  | |- (S (Z.to_nat ?a) <= Z.to_nat ?b)%nat =>
      assert (a < b /\ 0 < b) by (Z.div_mod_to_equations; lia)
  end.
  lia.
Qed.

Lemma wait_loop_all_fail (w : World) (addr : string) (deadline : Z) (n : nat) :
  forall now k,
    (sleeps_left deadline now <= n)%nat ->
    (forall j, (k <= j < k + n)%nat -> exists text, fst (w_Dial w j) = Failed text) ->
    exists m, (m <= n)%nat /\
      wait_loop w addr deadline now k
      = (Failed ("timeout waiting for " +:+ addr), polls addr m).
Proof.
  induction n as [|n IH]; intros now k Hn Hfail.
  - exists 0%nat. split; [lia|]. simp wait_loop.
    destruct (Z_lt_dec now deadline) as [Hlt|Hge]; simpl.
    + pose proof (sleeps_left_0 _ _ Hlt). lia.
    + reflexivity.
  - simp wait_loop.
    destruct (Z_lt_dec now deadline) as [Hlt|Hge]; simpl.
    + destruct (Hfail k ltac:(lia)) as [text Hk].
      destruct (w_Dial w k) as [r d] eqn:Hd. simpl in Hk. subst r. simpl.
      destruct (IH (now + Z.of_N d + 100 * Millisecond + Z.of_N (w_Oversleep w k)) (S k))
        as (m & Hm & Heq).
      * pose proof (sleeps_left_step deadline now d (w_Oversleep w k) Hlt). lia.
      * intros j Hj. apply Hfail. lia.
      * exists (S m). split; [lia|]. rewrite Heq. reflexivity.
    + exists 0%nat. split; [lia|]. reflexivity.
Qed.

Lemma polls_inv addr n e :
  e ∈ polls addr n ->
  e = EvDial addr (200 * Millisecond) \/ e = EvSleep (100 * Millisecond).
Proof.
  induction n as [|n IH]; cbn.
  - intros H. inversion H.
  - rewrite !elem_of_cons. intros [->|[->|H]]; auto.
Qed.

Lemma sleeps_left_mono deadline now now' :
  now <= now' -> (sleeps_left deadline now' <= sleeps_left deadline now)%nat.
Proof.
  intros H. unfold sleeps_left, Millisecond.
  match goal with
  | |- (Z.to_nat ?a <= Z.to_nat ?b)%nat =>
      assert (a <= b) by (apply Z.div_le_mono; lia)
  end.
  lia.
Qed.

Lemma sleeps_left_window now : sleeps_left (now + 3 * Second) now = 30%nat.
Proof.
  unfold sleeps_left. replace (now + 3 * Second - now) with (3 * Second) by lia.
  reflexivity.
Qed.

(** C8: when the engine has started and every dial made in the readiness
    window fails, the result is dead, its error is the engine-not-ready
    one, its latency is zero, and the run consists of the port
    reservation, the configuration, the start of the engine, at most 30
    rounds of a dial bounded by 200 ms followed by a sleep of 100 ms, and
    the stop of the engine: no HTTP request is made. The window of 3 s
    has room for 30 sleeps, so only the first 30 dials matter. *)
Theorem CheckConfig_engine_not_ready idx cfg timeout w port doc :
  w_Listen w = Done port ->
  w_GenerateConfig w cfg port = Done doc ->
  w_Start w doc = Done tt ->
  (forall k, (k < 30)%nat -> exists text, fst (w_Dial w k) = Failed text) ->
  let r := fst (CheckConfig idx cfg timeout w) in
  let t := snd (CheckConfig idx cfg timeout w) in
  Alive r = false
  /\ Error r = "xray not ready: timeout waiting for 127.0.0.1:" +:+ fmt.d port
  /\ Latency r = 0
  /\ (exists n, (n <= 30)%nat
                /\ t = [EvListen; EvGenerateConfig port; EvStart]
                       ++ polls ("127.0.0.1:" +:+ fmt.d port) n ++ [EvStop])
  /\ (forall target to, EvGet target to ∉ t).
Proof.
  intros Hl Hg Hs Hfail.
  destruct (wait_loop_all_fail w (fmt.host_port "127.0.0.1" port)
              (w_Now w + 3 * Second) 30 (w_Now w + Z.of_N (w_Lag w)) 0)
    as (n & Hn & Hw).
  { rewrite <- (sleeps_left_window (w_Now w)).
    apply sleeps_left_mono. lia. }
  { intros j Hj. apply Hfail. lia. }
  unfold CheckConfig, freePort, with_engine, waitForPort.
  rewrite Hl, Hg, Hs, Hw. cbn.
  repeat split.
  - exists n. split; [exact Hn|reflexivity].
  - intros target to. rewrite !elem_of_cons, elem_of_app, list_elem_of_singleton.
    intros [?|[?|[?|[H|?]]]]; try discriminate.
    apply polls_inv in H. destruct H; discriminate.
Qed.

Lemma CheckConfig_engine_not_ready_witness :
  w_Listen samples.world_never_ready = Done 40123
  /\ Error (fst (CheckConfig 1 samples.config (10 * Second)
                   samples.world_never_ready))
     = "xray not ready: timeout waiting for 127.0.0.1:40123"
  /\ Latency (fst (CheckConfig 1 samples.config (10 * Second)
                     samples.world_never_ready)) = 0.
Proof.
  split; [reflexivity|].
  destruct (CheckConfig_engine_not_ready 1 samples.config (10 * Second)
              samples.world_never_ready 40123 "{}" eq_refl eq_refl eq_refl
              (fun k _ => ex_intro _ "connection refused" eq_refl))
    as (_ & He & Hl & _).
  split; [exact He|exact Hl].
Defined.

(** ** The orchestrator *)

Lemma sum_list_with_insert {A} (f : A -> nat) (l : list A) k x y :
  l !! k = Some x ->
  (sum_list_with f (<[k := y]> l) + f x = sum_list_with f l + f y)%nat.
Proof.
  revert k. induction l as [|a l IH]; intros [|k] H; simplify_eq/=; try lia.
  specialize (IH _ H). lia.
Qed.

Lemma in_check_insert (l : list worker) k x y :
  l !! k = Some x ->
  checking_of x ++ in_check (<[k := y]> l) ≡ₚ checking_of y ++ in_check l.
Proof.
  revert k. induction l as [|a l IH]; intros [|k] H; simplify_eq/=.
  - apply Permutation_app_swap_app.
  - change (checking_of x ++ checking_of a ++ in_check (<[k:=y]> l)
            ≡ₚ checking_of y ++ checking_of a ++ in_check l).
    rewrite Permutation_app_swap_app, (IH _ H).
    apply Permutation_app_swap_app.
Qed.

Section Runs.
Variable configs : list parser.ProxyConfig.
Variable workers : Z.
Variable timeout : Z.
Variable onResult : bool.

Abbreviation step := (step configs workers timeout onResult).
Abbreviation init := (init configs).
Abbreviation invariant := (invariant configs workers timeout).
Abbreviation weight := (weight configs workers).
Abbreviation total := (total configs).

Lemma step_weight s s' : step s s' -> (weight s' < weight s)%nat.
Proof.
  destruct 1; unfold weight, set_pc, set_worker; cbn;
    repeat match goal with
           | H : pc _ = _ |- _ => rewrite H
           | H : jobs _ = _ |- _ => rewrite H
           | H : pool _ !! _ = Some _ |- _ =>
               lazymatch goal with
               | |- context [<[?k := ?y]> (pool ?s)] =>
                   pose proof (sum_list_with_insert worker_weight _ _ _ y H);
                   clear H
               end
           end;
    rewrite ?sum_list_with_app, ?length_app; cbn in *; try lia.
Qed.

Lemma step_sn s : sn step s.
Proof.
  remember (weight s) as n eqn:Hn. revert s Hn.
  induction n as [n IH] using lt_wf_ind. intros s ->.
  constructor. intros s' Hs'. apply (IH (weight s')); [|reflexivity].
  apply step_weight, Hs'.
Qed.

Lemma invariant_init : invariant init.
Proof.
  constructor; cbn; try done.
  - apply length_replicate.
  - lia.
  - split; [done|]. intros [|]; done.
  - intros i [= <-]. lia.
  - intros H. inversion H.
  - intros i Hi. unfold received in Hi. cbn in Hi. lia.
Qed.

Lemma checked_result_mono cks cks' i r :
  (forall x, x ∈ cks -> x ∈ cks') ->
  checked_result configs timeout cks i r ->
  checked_result configs timeout cks' i r.
Proof. intros Hsub (cfg & w & ? & ? & ?). exists cfg, w. auto. Qed.

Lemma worker_ok_mono recv recv' cks cks' wk :
  (recv <= recv')%nat -> (forall x, x ∈ cks -> x ∈ cks') ->
  worker_ok configs timeout recv cks wk ->
  worker_ok configs timeout recv' cks' wk.
Proof.
  intros Hle Hsub. destruct wk; cbn; try done; [lia|].
  intros [? ?]. split; [lia|]. eapply checked_result_mono; eauto.
Qed.

Lemma lookup_insert_other (l : list worker) k k' a b y :
  l !! k = Some a -> l !! k' = Some b -> a <> b ->
  <[k := y]> l !! k' = Some b.
Proof.
  intros Ha Hb Hab. rewrite list_lookup_insert_ne; [done|].
  intros ->. congruence.
Qed.

Lemma elem_of_insert_other (l : list worker) k a y x :
  l !! k = Some a -> x ∈ <[k := y]> l -> x <> y -> x ∈ l.
Proof.
  intros Ha Hx Hxy. apply list_elem_of_lookup in Hx as [k' Hk'].
  destruct (decide (k = k')) as [<-|Hne].
  - rewrite list_lookup_insert_eq in Hk' by (eapply lookup_lt_Some; eauto).
    congruence.
  - rewrite list_lookup_insert_ne in Hk' by done.
    eapply list_elem_of_lookup_2; eauto.
Qed.

Lemma seq_0_S_perm n : n :: seq 0 n ≡ₚ seq 0 (S n).
Proof. rewrite seq_S. cbn. apply Permutation_cons_append. Qed.

Lemma invariant_step s s' : invariant s -> step s s' -> invariant s'.
Proof.
  intros [Hres Hsent Hjobs Hjle Hcl Hpool Hsp Hex Hret Hwk Hcov Honce Hunt]
         Hstep.
  destruct Hstep as
    [s i Hpc Hi | s i Hpc Hi | s i Hpc Hi Hfull | s i Hpc Hi
    | s k idx rest Hk Hj | s k Hk Hj Hc | s k idx cfg w Hk Hcfg
    | s k idx Hk Hcfg | s k idx r Hk Hidx | s k idx r Hk Hidx
    | s Hpc Hall];
    unfold received, sent in *; rewrite ?Hpc in *.
  - (* spawn *)
    constructor; unfold received, sent; cbn; try done.
    + rewrite Hcl. split; intros [|]; done.
    + rewrite length_app, Hpool. cbn. destruct (Hsp i eq_refl). lia.
    + intros i0 [= <-]. destruct (Hsp i eq_refl). lia.
    + rewrite elem_of_app, list_elem_of_singleton. intros [?|?]; [auto|done].
    + apply Forall_app. split; [done|]. by repeat constructor.
    + intros i0 Hi0. lia.
    + unfold in_check. rewrite bind_app. cbn. by rewrite app_nil_r.
    + intros H. by apply app_eq_nil in H as [_ ?].
  - (* all workers spawned *)
    constructor; unfold received, sent; cbn; try done.
    + rewrite Hcl. split; intros [|]; done.
    + rewrite Hpool. destruct (Hsp i eq_refl). lia.
  - (* send *)
    assert (Hrecv : (S i - length (jobs s ++ [i]) = i - length (jobs s))%nat)
      by (rewrite length_app; cbn; lia).
    constructor; unfold received, sent; cbn; rewrite ?Hrecv; try done.
    + rewrite length_app. cbn. rewrite Nat.add_1_r, seq_S, <- Hjobs.
      do 2 f_equal. lia.
    + rewrite length_app. cbn. lia.
    + rewrite Hcl. split; intros [|]; done.
    + intros H. destruct (Hex H) as [Hc _]. apply Hcl in Hc as [|]; done.
  - (* close *)
    assert (i = total) as -> by lia.
    constructor; unfold received, sent; cbn; try done.
    + split; auto.
    + intros H. destruct (Hex H) as [Hc _]. apply Hcl in Hc as [|]; done.
  - (* receive *)
    set (n := match pc s with
              | Spawning _ => 0%nat
              | Sending i => i
              | _ => total
              end) in *.
    rewrite Hj in *. cbn [length] in *.
    assert (Hrecv : (n - length rest = S (n - S (length rest)))%nat) by lia.
    cbn in Hjobs. injection Hjobs as Hidx Hrest.
    constructor; unfold received, sent; cbn; fold n; rewrite ?Hrecv;
      try done.
    + lia.
    + by rewrite length_insert.
    + intros H. eapply elem_of_insert_other in H; [|done..].
      by destruct (Hex H).
    + intros H. specialize (Hret H).
      eapply Forall_lookup_1 in Hret; [|done]. done.
    + apply Forall_insert; [|cbn; lia].
      eapply Forall_impl; [done|]. intros wk.
      apply worker_ok_mono; [lia|done].
    + intros i Hi. destruct (decide (i = idx)) as [->|Hne].
      * right. left. exists k. apply list_lookup_insert_eq.
        eapply lookup_lt_Some; eauto.
      * destruct (Hcov i) as [?|[[k' ?]|(k' & r & ?)]]; [lia|auto|..].
        -- right. left. exists k'. eapply lookup_insert_other; eauto.
        -- right. right. exists k', r. eapply lookup_insert_other; eauto.
    + pose proof (in_check_insert _ _ _ (Checking idx) Hk) as Hp.
      cbn in Hp. rewrite Hp, <- Permutation_middle, Honce, Hidx.
      apply seq_0_S_perm.
    + intros H. apply (f_equal length) in H.
      rewrite length_insert in H. apply lookup_lt_Some in Hk.
      cbn in H. lia.
  - (* exit *)
    constructor; unfold received, sent; cbn; try done.
    + by rewrite length_insert.
    + intros H. apply Forall_insert; auto.
    + apply Forall_insert; [done|]. done.
    + intros i Hi.
      destruct (Hcov i) as [?|[[k' ?]|(k' & r & ?)]]; [lia|auto|..].
      -- right. left. exists k'. eapply lookup_insert_other; eauto.
      -- right. right. exists k', r. eapply lookup_insert_other; eauto.
    + pose proof (in_check_insert _ _ _ Exited Hk) as Hp.
      cbn in Hp. by rewrite Hp.
    + intros H. apply (f_equal length) in H.
      rewrite length_insert in H. apply lookup_lt_Some in Hk.
      cbn in H. lia.
  - (* check *)
    pose proof (Forall_lookup_1 _ _ _ _ Hwk Hk) as Hok. cbn in Hok.
    constructor; unfold received, sent; cbn; try done.
    + by rewrite length_insert.
    + intros H. eapply elem_of_insert_other in H; [|done..]. auto.
    + intros H. specialize (Hret H).
      eapply Forall_lookup_1 in Hret; [|done]. done.
    + apply Forall_insert.
      * eapply Forall_impl; [done|]. intros wk.
        apply worker_ok_mono; [lia|]. intros x. rewrite elem_of_app. auto.
      * split; [done|]. exists cfg, w. split; [done|].
        split; [|done]. rewrite elem_of_app, list_elem_of_singleton. auto.
    + intros i Hi.
      destruct (Hcov i) as [(r & ? & ?)|[[k' Hk']|(k' & r & ?)]]; [lia|..].
      * left. exists r. split; [done|].
        eapply checked_result_mono; [|done].
        intros x. rewrite elem_of_app. auto.
      * destruct (decide (k = k')) as [<-|Hne].
        -- assert (i = idx) as -> by congruence.
           right. right. eexists k, _. apply list_lookup_insert_eq.
           eapply lookup_lt_Some; eauto.
        -- right. left. exists k'. by rewrite list_lookup_insert_ne.
      * right. right. exists k', r. eapply lookup_insert_other; eauto.
    + pose proof (in_check_insert _ _ _
                    (Publishing idx
                       (CheckConfig (Z.of_nat idx + 1) cfg timeout w).1)
                    Hk) as Hp.
      cbn in Hp. rewrite map_app. cbn. rewrite <- app_assoc. cbn.
      by rewrite Hp.
    + intros H. apply (f_equal length) in H.
      rewrite length_insert in H. apply lookup_lt_Some in Hk.
      cbn in H. lia.
  - (* index out of range: excluded *)
    pose proof (Forall_lookup_1 _ _ _ _ Hwk Hk) as Hok. cbn in Hok.
    apply lookup_ge_None in Hcfg. unfold checker.total in *.
    destruct (pc s); lia.
  - (* publish *)
    pose proof (Forall_lookup_1 _ _ _ _ Hwk Hk) as [Hlt Hok].
    constructor; unfold received, sent; cbn; try done.
    + by rewrite length_insert.
    + by rewrite length_insert.
    + intros H. eapply elem_of_insert_other in H; [|done..]. auto.
    + intros H. specialize (Hret H).
      eapply Forall_lookup_1 in Hret; [|done]. done.
    + apply Forall_insert; [done|]. done.
    + intros i Hi. destruct (decide (i = idx)) as [->|Hne].
      * left. exists r. split; [|done]. by apply list_lookup_insert_eq.
      * destruct (Hcov i) as [(r' & ? & ?)|[[k' Hk']|(k' & r' & Hk')]];
          [lia|..].
        -- left. exists r'. split; [|done].
           by rewrite list_lookup_insert_ne.
        -- right. left. exists k'. eapply lookup_insert_other; eauto.
        -- right. right. exists k', r'.
           eapply lookup_insert_other; eauto. congruence.
    + pose proof (in_check_insert _ _ _ Receiving Hk) as Hp.
      cbn in Hp. by rewrite Hp.
    + intros H. apply (f_equal length) in H.
      rewrite length_insert in H. apply lookup_lt_Some in Hk.
      cbn in H. lia.
  - (* slot out of range: excluded *)
    pose proof (Forall_lookup_1 _ _ _ _ Hwk Hk) as [Hlt Hok].
    rewrite Hres in Hidx. destruct (pc s); lia.
  - (* return *)
    constructor; unfold received, sent; cbn; try done.
    rewrite Hcl. split; auto.
Qed.

Lemma invariant_rtc s : rtc step init s -> invariant s.
Proof.
  intros H.
  eapply (rtc_ind_r (fun s => invariant s)); [apply invariant_init| |exact H].
  intros s1 s2 _ Hstep Hinv. eapply invariant_step; eauto.
Qed.

Lemma pool_exited_or_not (p : list worker) :
  Forall (fun wk => wk = Exited) p
  \/ exists k wk, p !! k = Some wk /\ wk <> Exited.
Proof.
  induction p as [|wk p [IH|(k & wk' & Hk & Hne)]].
  - left. constructor.
  - destruct wk; try (right; exists 0%nat; eexists; split; [reflexivity|done]).
    left. by constructor.
  - right. exists (S k), wk'. auto.
Qed.

(** A run that has not reached the return statement can go on. *)
Lemma step_progress s : invariant s -> pc s <> Returned -> red step s.
Proof.
  intros [Hres Hsent Hjobs Hjle Hcl Hpool Hsp Hex Hret Hwk Hcov Honce Hunt]
         Hpc.
  unfold received, sent in *.
  destruct (pc s) as [i|i| |] eqn:Epc; [| | |done].
  - destruct (decide (i < workers)).
    + eexists. eapply step_spawn; eauto.
    + eexists. eapply step_spawned; eauto.
  - destruct (decide (i < total)%nat).
    + eexists. eapply step_send; eauto. lia.
    + eexists. eapply step_close; eauto.
  - destruct (pool_exited_or_not (pool s)) as [Hall|(k & wk & Hk & Hne)].
    + eexists. eapply step_return; eauto.
    + pose proof (Forall_lookup_1 _ _ _ _ Hwk Hk) as Hok.
      destruct wk as [|idx|idx r| |]; cbn in Hok; [| | |done..].
      * destruct (jobs s) as [|idx rest] eqn:Ej.
        -- eexists. eapply step_exit; eauto. apply Hcl. auto.
        -- eexists. eapply step_receive; eauto.
      * destruct (configs !! idx) as [cfg|] eqn:Ecfg.
        -- eexists. eapply (step_check _ _ _ _ _ _ _ _ samples.world_never_ready);
             eauto.
        -- apply lookup_ge_None in Ecfg. unfold checker.total in *. lia.
      * destruct Hok as [Hlt _].
        eexists. eapply step_publish; eauto. lia.
Qed.

(** Every run can be continued up to the return statement. *)
Lemma run_to_return s :
  invariant s -> exists s', rtc step s s' /\ pc s' = Returned.
Proof.
  induction (step_sn s) as [s _ IH]. intros Hinv.
  assert (pc s = Returned \/ pc s <> Returned) as [Hr|Hr]
    by (destruct (pc s); auto).
  - exists s. split; [reflexivity|done].
  - destruct (step_progress s Hinv Hr) as [s1 Hs1].
    destruct (IH s1 Hs1) as (s' & Hs' & Hret).
    + eapply invariant_step; eauto.
    + exists s'. split; [|done]. eapply rtc_l; eauto.
Qed.

Lemma in_check_exited (p : list worker) :
  Forall (fun wk => wk = Exited) p -> in_check p = [].
Proof. induction 1 as [|wk p -> _ IH]; [done|]. exact IH. Qed.

(** With at least one worker, the channel is drained when [CheckAll]
    returns. *)
Lemma returned_received s :
  1 <= workers -> invariant s -> pc s = Returned -> received configs s = total.
Proof.
  intros Hw [Hres Hsent Hjobs Hjle Hcl Hpool Hsp Hex Hret Hwk Hcov Honce Hunt]
         Hpc.
  unfold received, sent in *. rewrite Hpc in *.
  specialize (Hret eq_refl).
  destruct (pool s) as [|wk p] eqn:Ep; [cbn in Hpool; lia|].
  apply Forall_cons in Hret as [-> _].
  destruct Hex as [_ ->]; [left|]. cbn. lia.
Qed.

Lemma returned_slot s i cfg :
  1 <= workers -> invariant s -> pc s = Returned ->
  configs !! i = Some cfg ->
  exists w, (i, w) ∈ checks s
            /\ results s !! i
               = Some (fst (CheckConfig (Z.of_nat i + 1) cfg timeout w)).
Proof.
  intros Hw Hinv Hpc Hcfg.
  pose proof (returned_received s Hw Hinv Hpc) as Hrecv.
  destruct Hinv as [_ _ _ _ _ _ _ _ Hret _ Hcov _ _].
  specialize (Hret Hpc).
  destruct (Hcov i) as [(r & Hr & cfg' & w & Hcfg' & Hin & ->)
                       |[[k Hk]|(k & r & Hk)]].
  - rewrite Hrecv. eapply lookup_lt_Some; eauto.
  - exists w. split; [done|]. congruence.
  - eapply Forall_lookup_1 in Hret; [|done]. done.
  - eapply Forall_lookup_1 in Hret; [|done]. done.
Qed.

(** Whatever the worker count, [CheckAll] returns: no run is infinite,
    none gets stuck before the return statement, and a run to the
    return statement exists. *)
Lemma CheckAll_returns :
  sn step init
  /\ (forall s, rtc step init s -> pc s <> Returned -> red step s)
  /\ exists rs, returns configs workers timeout onResult rs.
Proof.
  split; [apply step_sn|]. split.
  - intros s Hs. apply step_progress, invariant_rtc, Hs.
  - destruct (run_to_return init invariant_init) as (s & Hs & Hpc).
    exists (results s), s. auto.
Qed.

(** C1: with a worker count of at least 1, [CheckAll] returns, and
    whatever the interleaving of the workers the list it returns is as
    long as [configs] and holds at each position [i] the result of the
    run of [CheckConfig] made on [configs[i]], whose index is [i+1]. *)
Theorem CheckAll_ordered :
  1 <= workers ->
  (sn step init
   /\ (forall s, rtc step init s -> pc s <> Returned -> red step s)
   /\ exists rs, returns configs workers timeout onResult rs)
  /\ forall s, rtc step init s -> pc s = Returned ->
       length (results s) = length configs
       /\ forall i cfg, configs !! i = Some cfg ->
            exists r w,
              (i, w) ∈ checks s
              /\ results s !! i = Some r
              /\ r = fst (CheckConfig (Z.of_nat i + 1) cfg timeout w)
              /\ Index r = Z.of_nat i + 1.
Proof.
  intros Hw. split; [apply CheckAll_returns|].
  intros s Hs Hpc. apply invariant_rtc in Hs.
  split; [apply (inv_results _ _ _ _ Hs)|].
  intros i cfg Hcfg.
  destruct (returned_slot s i cfg Hw Hs Hpc Hcfg) as (w & Hin & Hr).
  eexists _, w. split; [exact Hin|]. split; [exact Hr|].
  split; [reflexivity|]. apply Index_CheckConfig.
Qed.

(** C6, as the code has it: the pool has [workers] workers, and none
    when [workers] is zero or negative. [CheckAll] returns in either
    case: whatever the interleaving, a run has no infinite sequence of
    steps, it can go on as long as it has not reached the return, and
    some run does reach it. With at least one worker, [CheckConfig] has
    then been run exactly once on every configuration, and the slot of
    each holds the result of that run. With a worker count of zero or
    less no check has been run, and every slot holds the zero value. *)
Theorem CheckAll_pool :
  (sn step init
   /\ (forall s, rtc step init s -> pc s <> Returned -> red step s)
   /\ exists rs, returns configs workers timeout onResult rs)
  /\ forall s, rtc step init s -> pc s = Returned ->
       length (pool s) = Z.to_nat workers
       /\ (1 <= workers ->
             map fst (checks s) ≡ₚ seq 0 (length configs)
             /\ forall i cfg, configs !! i = Some cfg ->
                  exists w,
                    (i, w) ∈ checks s
                    /\ results s !! i
                       = Some (fst (CheckConfig (Z.of_nat i + 1) cfg
                                      timeout w)))
       /\ (workers <= 0 ->
             checks s = []
             /\ results s = replicate (length configs) zeroResult).
Proof.
  split; [apply CheckAll_returns|].
  intros s Hs Hpc. apply invariant_rtc in Hs.
  pose proof (inv_pool _ _ _ _ Hs) as Hpool. rewrite Hpc in Hpool.
  split; [exact Hpool|]. split.
  - intros Hw. split.
    + pose proof (inv_once _ _ _ _ Hs) as Honce.
      rewrite (returned_received s Hw Hs Hpc) in Honce.
      rewrite in_check_exited, app_nil_r in Honce; [exact Honce|].
      apply (inv_returned _ _ _ _ Hs Hpc).
    + intros i cfg Hcfg. apply (returned_slot s i cfg Hw Hs Hpc Hcfg).
  - intros Hw.
    destruct (inv_untouched _ _ _ _ Hs) as [Hr Hc]; [|auto].
    apply length_zero_iff_nil. lia.
Qed.
End Runs.

(** The run of [CheckAll] on one configuration with a worker count of
    zero. *)
Lemma run_without_workers timeout onResult :
  rtc (step [samples.config] 0 timeout onResult) (init [samples.config])
      samples.returned_without_workers.
Proof.
  eapply rtc_l; [eapply (step_spawned _ _ _ _ _ 0); [reflexivity|lia]|].
  eapply rtc_l; [eapply (step_send _ _ _ _ _ 0%nat); [reflexivity|cbn; lia..]|].
  eapply rtc_l; [eapply (step_close _ _ _ _ _ 1%nat); [reflexivity|cbn; lia]|].
  eapply rtc_l; [eapply step_return; [reflexivity|constructor]|].
  reflexivity.
Qed.

Lemma CheckAll_ordered_witness :
  1 <= 2
  /\ forall s,
       rtc (step [samples.config; samples.config] 2 (10 * Second) true)
           (init [samples.config; samples.config]) s ->
       pc s = Returned ->
       length (results s) = 2%nat.
Proof.
  split; [lia|]. intros s Hs Hpc.
  exact (proj1 (proj2 (CheckAll_ordered [samples.config; samples.config] 2
                         (10 * Second) true ltac:(lia)) s Hs Hpc)).
Defined.

Lemma CheckAll_pool_witness :
  0 <= 0
  /\ checks samples.returned_without_workers = []
  /\ results samples.returned_without_workers = [zeroResult].
Proof.
  split; [lia|].
  exact (proj2 (proj2 (proj2 (CheckAll_pool [samples.config] 0 (10 * Second)
                                true)
                         samples.returned_without_workers
                         (run_without_workers _ _) eq_refl))
           ltac:(lia)).
Defined.

(** C6, as stated, fails: with a worker count of zero [CheckAll] returns
    without having run [CheckConfig]; the slot of the one configuration
    holds the zero value, whose index is 0. *)
Lemma CheckAll_zero_workers :
  exists s,
    rtc (step [samples.config] 0 (10 * Second) true)
        (init [samples.config]) s
    /\ pc s = Returned
    /\ checks s = []
    /\ results s = [zeroResult]
    /\ Index zeroResult = 0.
Proof.
  exists samples.returned_without_workers.
  split; [apply run_without_workers|]. repeat split.
Qed.
End checker_facts.

(** * Further properties of one check *)

Module check_facts.
Import checker checker_ghost.

(** ** The readiness wait, whatever the engine does *)

Lemma max_polls_sleeps_left now timeout :
  sleeps_left (now + timeout) now = max_polls timeout.
Proof.
  unfold sleeps_left, max_polls.
  by replace (now + timeout - now) with timeout by lia.
Qed.

Lemma clock_nonneg w k : 0 <= clock w k.
Proof.
  induction k as [|k IH]; cbn [clock]; unfold Millisecond; lia.
Qed.

(** The loop of [waitForPort] goes through some rounds entered before the
    deadline with a failed dial, fewer than fit before the deadline, and
    ends either on a successful dial or, the deadline passed, on the
    timeout. *)
Lemma wait_loop_shape w addr base timeout n :
  forall k,
    (sleeps_left (base + timeout) (base + clock w k) <= n)%nat ->
    exists m,
      (m <= sleeps_left (base + timeout) (base + clock w k))%nat
      /\ (forall j, (j < m)%nat ->
            clock w (k + j) < timeout
            /\ exists text d, w_Dial w (k + j)%nat = (Failed text, d))
      /\ ((timeout <= clock w (k + m)
           /\ wait_loop w addr (base + timeout) (base + clock w k) k
              = (Failed ("timeout waiting for " +:+ addr), polls addr m))
          \/ ((m < sleeps_left (base + timeout) (base + clock w k))%nat
              /\ clock w (k + m) < timeout
              /\ (exists d, w_Dial w (k + m)%nat = (Done tt, d))
              /\ wait_loop w addr (base + timeout) (base + clock w k) k
                 = (Done tt,
                    polls addr m ++ [EvDial addr (200 * Millisecond)]))).
Proof.
  induction n as [|n IH]; intros k Hn.
  - exists 0%nat. split; [lia|]. split; [intros j Hj; lia|]. left.
    rewrite Nat.add_0_r. simp wait_loop.
    destruct (Z_lt_dec (base + clock w k) (base + timeout)) as [Hlt|Hge].
    + pose proof (checker_facts.sleeps_left_0 _ _ Hlt). lia.
    + split; [lia|done].
  - simp wait_loop.
    destruct (Z_lt_dec (base + clock w k) (base + timeout)) as [Hlt|Hge];
      cbn.
    + pose proof (checker_facts.sleeps_left_0 _ _ Hlt) as Hpos.
      destruct (w_Dial w k) as [[[]|text] d] eqn:Hd; cbn.
      * exists 0%nat. split; [lia|]. split; [intros j Hj; lia|]. right.
        rewrite Nat.add_0_r. split; [lia|]. split; [lia|]. eauto.
      * pose proof (checker_facts.sleeps_left_step (base + timeout)
                      (base + clock w k) d (w_Oversleep w k) Hlt) as Hstep.
        assert (base + clock w k + Z.of_N d + 100 * Millisecond
                + Z.of_N (w_Oversleep w k) = base + clock w (S k)) as E
          by (cbn [clock]; rewrite Hd; cbn [snd]; lia).
        rewrite E in *.
        destruct (IH (S k)) as (m & Hm & Hf & Hr); [lia|].
        exists (S m). split; [lia|]. split.
        { intros [|j] Hj.
          - rewrite Nat.add_0_r. split; [lia|eauto].
          - replace (k + S j)%nat with (S k + j)%nat by lia. apply Hf. lia. }
        replace (k + S m)%nat with (S k + m)%nat by lia.
        destruct Hr as [[Hto ->]|(Hlt' & Hc & Hd' & ->)]; [left; done|right].
        split; [lia|]. done.
    + exists 0%nat. split; [lia|]. split; [intros j Hj; lia|]. left.
      rewrite Nat.add_0_r. split; [lia|done].
Qed.

(** The loop as [waitForPort] enters it. *)
Lemma waitForPort_shape w host port timeout :
  exists m,
    (m <= max_polls timeout)%nat
    /\ (forall j, (j < m)%nat ->
          clock w j < timeout
          /\ exists text d, w_Dial w j = (Failed text, d))
    /\ ((timeout <= clock w m
         /\ waitForPort w host port timeout
            = (Failed ("timeout waiting for " +:+ fmt.host_port host port),
               polls (fmt.host_port host port) m))
        \/ ((m < max_polls timeout)%nat
            /\ clock w m < timeout
            /\ (exists d, w_Dial w m = (Done tt, d))
            /\ waitForPort w host port timeout
               = (Done tt,
                  polls (fmt.host_port host port) m
                  ++ [EvDial (fmt.host_port host port)
                        (200 * Millisecond)]))).
Proof.
  unfold waitForPort.
  assert (sleeps_left (w_Now w + timeout) (w_Now w + clock w 0)
          <= max_polls timeout)%nat as Hle.
  { rewrite <- (max_polls_sleeps_left (w_Now w)).
    apply checker_facts.sleeps_left_mono. pose proof (clock_nonneg w 0). lia. }
  destruct (wait_loop_shape w (fmt.host_port host port) (w_Now w) timeout
              (sleeps_left (w_Now w + timeout) (w_Now w + clock w 0)) 0
              ltac:(lia)) as (m & Hm & Hf & Hr).
  exists m. split; [lia|]. split; [exact Hf|].
  destruct Hr as [[Hto Hr]|(Hlt & Hc & Hd & Hr)]; [left|right].
  - split; [exact Hto|exact Hr].
  - split; [lia|]. split; [exact Hc|]. split; [exact Hd|exact Hr].
Qed.

Lemma polls_dials addr m :
  length (List.filter is_dial (polls addr m)) = m.
Proof.
  induction m as [|m IH]; [done|].
  change (polls addr (S m))
    with (EvDial addr (200 * Millisecond)
          :: EvSleep (100 * Millisecond) :: polls addr m).
  cbn [List.filter is_dial length]. by rewrite IH.
Qed.

(** X1: [waitForPort] dials as long as the clock has not reached the deadline
    and the dial fails, the clock being read anew for every test, the
    first included. Every failed dial is followed by a sleep of 100 ms,
    so at most [max_polls timeout] dials are made: 30 for the 3 s of
    [CheckConfig], none for a timeout of zero or less. It returns nil
    exactly when it ends on a dial that succeeded, made before the
    deadline and without a sleep after it; it returns the timeout exactly
    when the clock has reached the deadline at a test, and only then. *)
Theorem waitForPort_attempts w host port timeout :
  let addr := fmt.host_port host port in
  let r := fst (waitForPort w host port timeout) in
  let t := snd (waitForPort w host port timeout) in
  (length (List.filter is_dial t) <= max_polls timeout)%nat
  /\ max_polls (3 * Second) = 30%nat
  /\ exists m,
       (forall j, (j < m)%nat ->
          clock w j < timeout
          /\ exists text d, w_Dial w j = (Failed text, d))
       /\ ((r = Failed ("timeout waiting for " +:+ addr)
            /\ timeout <= clock w m
            /\ t = polls addr m)
           \/ (r = Done tt
               /\ clock w m < timeout
               /\ (exists d, w_Dial w m = (Done tt, d))
               /\ t = polls addr m ++ [EvDial addr (200 * Millisecond)])).
Proof.
  cbv zeta.
  destruct (waitForPort_shape w host port timeout) as (m & Hm & Hf & Hr).
  split; [|split; [reflexivity|exists m; split; [exact Hf|]]].
  - destruct Hr as [[_ ->]|(Hlt & _ & _ & ->)]; cbn [snd].
    + by rewrite polls_dials.
    + rewrite List.filter_app, length_app, polls_dials. cbn. lia.
  - destruct Hr as [[Hto ->]|(_ & Hc & Hd & ->)]; [left; done|right; done].
Qed.

Lemma waitForPort_events w host port timeout e :
  e ∈ snd (waitForPort w host port timeout) ->
  (exists addr to, e = EvDial addr to) \/ (exists d, e = EvSleep d).
Proof.
  destruct (waitForPort_shape w host port timeout)
    as (m & _ & _ & [[_ ->]|(_ & _ & _ & ->)]); cbn [snd].
  - intros [->| ->]%checker_facts.polls_inv; eauto.
  - rewrite elem_of_app, list_elem_of_singleton.
    intros [[->| ->]%checker_facts.polls_inv| ->]; eauto.
Qed.

(** ** The calls of one check *)


(** What runs while the engine does: the readiness wait, the dialer and
    the probe. *)
Lemma with_engine_trace result socksPort timeout w :
  exists t1 t2,
    snd (with_engine result socksPort timeout w) = t1 ++ t2
    /\ t1 = snd (waitForPort w "127.0.0.1" socksPort (3 * Second))
    /\ (t2 = []
        \/ t2 = [EvSOCKS5 ("127.0.0.1:" +:+ fmt.d socksPort)]
        \/ (exists t3,
              t2 = EvSOCKS5 ("127.0.0.1:" +:+ fmt.d socksPort)
                   :: EvGet probe_url timeout :: t3
              /\ fst (waitForPort w "127.0.0.1" socksPort (3 * Second)) = Done tt
              /\ w_SOCKS5 w ("127.0.0.1:" +:+ fmt.d socksPort) = Done tt
              /\ (t3 = []
                  \/ t3 = [EvReadAll; EvBodyClose]
                  \/ t3 = [EvReadAll; EvUnmarshal; EvBodyClose]))).
Proof.
  unfold with_engine, probe.
  destruct (waitForPort w "127.0.0.1" socksPort (3 * Second)) as [[[]|?] t1].
  2:{ exists t1, []. rewrite app_nil_r. auto. }
  destruct (w_SOCKS5 w _) as [[]|?] eqn:Hs; [|exists t1; eexists; eauto].
  destruct (w_Get w probe_url); [|exists t1; eexists; eauto 12].
  destruct (w_ReadAll w) as [body|]; [|exists t1; eexists; eauto 12].
  destruct (w_Unmarshal w body) as [resp|]; [|exists t1; eexists; eauto 12].
  destruct (negb _); exists t1; eexists; eauto 12.
Qed.

Lemma with_engine_events result socksPort timeout w e :
  e ∈ snd (with_engine result socksPort timeout w) ->
  e <> EvStop /\ e <> EvStart
  /\ (is_get e = true ->
      e = EvGet probe_url timeout
      /\ fst (waitForPort w "127.0.0.1" socksPort (3 * Second)) = Done tt
      /\ w_SOCKS5 w ("127.0.0.1:" +:+ fmt.d socksPort) = Done tt).
Proof.
  destruct (with_engine_trace result socksPort timeout w)
    as (t1 & t2 & -> & -> & Ht2).
  rewrite elem_of_app. intros [He|He].
  - apply waitForPort_events in He as [(? & ? & ->)|(? & ->)]; done.
  - destruct Ht2 as [->|[->|(t3 & -> & Hw & Hs & Ht3)]].
    + by apply elem_of_nil in He.
    + apply list_elem_of_singleton in He as ->. done.
    + rewrite !elem_of_cons in He.
      destruct He as [->|[->|He]]; [done|done|].
      destruct Ht3 as [->|[->| ->]];
        rewrite ?elem_of_cons, ?elem_of_nil in He;
        repeat destruct He as [->|He]; done.
Qed.


(** X2: the engine is stopped on every path on which it was started, once and
    as the last call of the run; it is not stopped on the others. *)
Theorem CheckConfig_stops_engine idx cfg timeout w :
  let t := snd (CheckConfig idx cfg timeout w) in
  if engine_started cfg w
  then exists t', t = t' ++ [EvStop] /\ (EvStop ∉ t') /\ (EvStart ∈ t')
  else EvStop ∉ t.
Proof.
  cbv zeta. unfold engine_started, CheckConfig, freePort.
  destruct (w_Listen w) as [port|].
  2:{ cbn. rewrite ?elem_of_cons, elem_of_nil. intuition discriminate. }
  destruct (w_GenerateConfig w cfg port) as [doc|].
  2:{ cbn. rewrite ?elem_of_cons, elem_of_nil. intuition discriminate. }
  destruct (w_Start w doc).
  2:{ cbn. rewrite ?elem_of_cons, elem_of_nil. intuition discriminate. }
  pose proof (with_engine_events
                {| Index := idx; Name := parser.GetName cfg;
                   Protocol := parser.GetProtocol cfg;
                   Server := parser.GetServer cfg;
                   Port := parser.GetPort cfg; Alive := false; Latency := 0;
                   ExitIP := EmptyString; Country := EmptyString;
                   Error := EmptyString |} port timeout w) as Hev.
  destruct (with_engine _ port timeout w) as [r t]. cbn [snd] in *.
  exists ([EvListen; EvGenerateConfig port; EvStart] ++ t).
  split; [by rewrite <- !app_assoc|]. split.
  - rewrite elem_of_app, !elem_of_cons, elem_of_nil.
    intros [[|[|[|]]]|Ht]; try done. by destruct (Hev _ Ht).
  - rewrite elem_of_app, !elem_of_cons. auto.
Qed.


(** ** The fields of a result *)

Lemma waitForPort_no_get w host port timeout target to :
  EvGet target to ∉ snd (waitForPort w host port timeout).
Proof.
  intros [(? & ? & ?)|(? & ?)]%waitForPort_events; discriminate.
Qed.

(** X4: whatever the outcome, a result names the configuration it is about and
    carries the ordinal it was given. A dead result has no exit address and
    no country. The HTTP request is made exactly in the runs in which the
    engine has started, the readiness wait has succeeded and the dialer
    has been built; the latency is the time that request took when it
    brought a response, and zero in every other case: when the run did
    not get to the request, and when the request failed. *)
Theorem CheckConfig_result_fields idx cfg timeout w :
  let r := fst (CheckConfig idx cfg timeout w) in
  let t := snd (CheckConfig idx cfg timeout w) in
  Index r = idx
  /\ Name r = parser.GetName cfg
  /\ Protocol r = parser.GetProtocol cfg
  /\ Server r = parser.GetServer cfg
  /\ Port r = parser.GetPort cfg
  /\ (Alive r = false -> ExitIP r = EmptyString /\ Country r = EmptyString)
  /\ (EvGet probe_url timeout ∈ t <-> requested cfg w = true)
  /\ Latency r
     = if requested cfg w
       then match w_Get w probe_url with
            | Done elapsed => elapsed
            | Failed _ => 0
            end
       else 0.
Proof.
  cbv zeta.
  unfold CheckConfig, requested, engine_started, freePort, with_engine, probe.
  destruct (w_Listen w) as [port|];
    [|cbn; repeat split; try done; set_solver].
  destruct (w_GenerateConfig w cfg port) as [doc|];
    [|cbn; repeat split; try done; set_solver].
  destruct (w_Start w doc);
    [|cbn; repeat split; try done; set_solver].
  pose proof (waitForPort_no_get w "127.0.0.1" port (3 * Second) probe_url
                timeout) as Hno.
  destruct (waitForPort _ _ _ _) as [[?|?] t1]; cbn [fst snd] in *;
    [|cbn; repeat split; try done; set_solver].
  destruct (w_SOCKS5 w _);
    [|cbn; repeat split; try done; set_solver].
  destruct (w_Get w probe_url) as [elapsed|];
    [|cbn; repeat split; try done; set_solver].
  destruct (w_ReadAll w) as [body|];
    [|cbn; repeat split; try done; set_solver].
  destruct (w_Unmarshal w body) as [resp|];
    [|cbn; repeat split; try done; set_solver].
  destruct (negb _); cbn; repeat split; try done; set_solver.
Qed.
End check_facts.

(** * Further properties of the orchestrator *)

Module orchestrator_facts.
Import checker checker_ghost.

Lemma bind_insert_perm {A B} (f : A -> list B) (l : list A) k x y :
  l !! k = Some x ->
  f x ++ (<[k := y]> l ≫= f) ≡ₚ f y ++ (l ≫= f).
Proof.
  revert k. induction l as [|a l IH]; intros [|k] H; simplify_eq/=.
  - apply Permutation_app_swap_app.
  - change (f x ++ f a ++ (<[k:=y]> l ≫= f) ≡ₚ f y ++ f a ++ (l ≫= f)).
    rewrite Permutation_app_swap_app, (IH _ H).
    apply Permutation_app_swap_app.
Qed.

Lemma in_publish_elem (l : list worker) k idx r :
  l !! k = Some (Publishing idx r) -> idx ∈ in_publish l.
Proof.
  intros H. unfold in_publish. apply list_elem_of_bind.
  exists (Publishing idx r). split; [by left|].
  by eapply list_elem_of_lookup_2.
Qed.

Lemma counts_S n total :
  counts (S n) total = counts n total ++ [(Z.of_nat n + 1, total)].
Proof. unfold counts. by rewrite seq_S, map_app. Qed.

Section Calls.
Variable configs : list parser.ProxyConfig.
Variable workers : Z.
Variable timeout : Z.
Variable onResult : bool.

Abbreviation step := (step configs workers timeout onResult).
Abbreviation init := (init configs).
Abbreviation invariant := (invariant configs workers timeout).
Abbreviation callback_invariant := (callback_invariant configs onResult).
Abbreviation total := (total configs).

Lemma in_flight_lt recv cks (p : list worker) i :
  Forall (worker_ok configs timeout recv cks) p -> i ∈ in_flight p ->
  (i < recv)%nat.
Proof.
  intros Hok Hin. apply list_elem_of_bind in Hin as (wk & Hi & Hwk).
  rewrite Forall_forall in Hok. specialize (Hok wk Hwk).
  destruct wk; cbn in Hi, Hok; try (by apply elem_of_nil in Hi);
    apply list_elem_of_singleton in Hi as ->; [done|by destruct Hok].
Qed.

(** No index is with two workers: a step keeps it so. *)
Lemma flight_step s s' :
  invariant s -> NoDup (in_flight (pool s)) -> step s s' ->
  NoDup (in_flight (pool s')).
Proof.
  intros Hinv Hnd Hstep. unfold in_flight in *.
  destruct Hstep as
    [s i Hpc Hi | s i Hpc Hi | s i Hpc Hi Hfull | s i Hpc Hi
    | s k idx rest Hk Hj | s k Hk Hj Hc | s k idx cfg w Hk Hcfg
    | s k idx Hk Hcfg | s k idx r Hk Hidx | s k idx r Hk Hidx
    | s Hpc Hall]; cbn [pool set_pc set_worker]; try done.
  - rewrite bind_app. cbn. by rewrite app_nil_r.
  - pose proof (bind_insert_perm holding _ _ _ (Checking idx) Hk) as Hp.
    cbn in Hp. rewrite Hp. apply NoDup_cons. split; [|done].
    intros Hin.
    apply (in_flight_lt _ _ _ _ (inv_workers _ _ _ _ Hinv)) in Hin.
    pose proof (inv_jobs _ _ _ _ Hinv) as Hjobs. rewrite Hj in Hjobs.
    cbn in Hjobs. injection Hjobs as Hidx _. lia.
  - pose proof (bind_insert_perm holding _ _ _ Exited Hk) as Hp.
    cbn in Hp. by rewrite Hp.
  - pose proof (bind_insert_perm holding _ _ _
                  (Publishing idx
                     (fst (CheckConfig (Z.of_nat idx + 1) cfg timeout w)))
                  Hk) as Hp.
    cbn in Hp. apply Permutation_cons_inv in Hp. by rewrite Hp.
  - pose proof (bind_insert_perm holding _ _ _ Panicked Hk) as Hp.
    cbn in Hp. rewrite <- Hp in Hnd. by apply NoDup_cons in Hnd as [_ ?].
  - pose proof (bind_insert_perm holding _ _ _ Receiving Hk) as Hp.
    cbn in Hp. rewrite <- Hp in Hnd. by apply NoDup_cons in Hnd as [_ ?].
  - pose proof (bind_insert_perm holding _ _ _ Panicked Hk) as Hp.
    cbn in Hp. rewrite <- Hp in Hnd. by apply NoDup_cons in Hnd as [_ ?].
Qed.

Lemma flight_rtc s : rtc step init s -> NoDup (in_flight (pool s)).
Proof.
  intros H.
  enough (invariant s /\ NoDup (in_flight (pool s))) as [_ ?] by done.
  eapply (rtc_ind_r (fun s => invariant s /\ NoDup (in_flight (pool s))));
    [split; [apply checker_facts.invariant_init|constructor]| |exact H].
  intros s1 s2 _ Hstep [Hinv Hnd]. split.
  - eapply checker_facts.invariant_step; eauto.
  - eapply flight_step; eauto.
Qed.

Lemma callback_init : callback_invariant init.
Proof.
  constructor; unfold received, sent; cbn; try done.
  intros c Hc. by apply elem_of_nil in Hc.
Qed.

Lemma callback_step s s' :
  invariant s -> callback_invariant s -> step s s' -> callback_invariant s'.
Proof.
  intros [Hres Hsent Hjobs Hjle Hcl Hpool Hsp Hex Hret Hwk Hcov Honce Hunt]
         [Hpos Hdone Hoff Hcnt Hslots Hrs] Hstep.
  destruct Hstep as
    [s i Hpc Hi | s i Hpc Hi | s i Hpc Hi Hfull | s i Hpc Hi
    | s k idx rest Hk Hj | s k Hk Hj Hc | s k idx cfg w Hk Hcfg
    | s k idx Hk Hcfg | s k idx r Hk Hidx | s k idx r Hk Hidx
    | s Hpc Hall];
    unfold received, sent, in_publish, in_check in *; rewrite ?Hpc in *.
  - (* spawn *)
    constructor; unfold received, sent, in_publish, in_check; cbn;
      rewrite ?bind_app; cbn; rewrite ?app_nil_r; done.
  - (* all workers spawned *)
    constructor; unfold received, sent; cbn; done.
  - (* send *)
    assert (Hrecv : (S i - length (jobs s ++ [i]) = i - length (jobs s))%nat)
      by (rewrite length_app; cbn; lia).
    constructor; unfold received, sent; cbn; rewrite ?Hrecv; done.
  - (* close *)
    assert (i = total) as -> by lia.
    constructor; unfold received, sent; cbn; done.
  - (* receive *)
    set (n := match pc s with
              | Spawning _ => 0%nat
              | Sending i => i
              | _ => total
              end) in *.
    rewrite Hj in *. cbn [length] in *.
    assert (Hrecv : (n - length rest = S (n - S (length rest)))%nat) by lia.
    cbn in Hjobs. injection Hjobs as Hidx Hrest.
    pose proof (bind_insert_perm checking_of _ _ _ (Checking idx) Hk) as Hcp.
    pose proof (bind_insert_perm publishing_of _ _ _ (Checking idx) Hk)
      as Hpp.
    cbn in Hcp, Hpp.
    constructor; unfold received, sent, in_publish, in_check; cbn; fold n;
      rewrite ?Hrecv; try done.
    + apply Permutation_length in Hpp, Hcp. cbn [length] in Hpp, Hcp. lia.
    + intros Hon. rewrite Hpp, Hcp, <- !Permutation_middle.
      rewrite (Hslots Hon), Hidx. apply checker_facts.seq_0_S_perm.
  - (* exit *)
    pose proof (bind_insert_perm checking_of _ _ _ Exited Hk) as Hcp.
    pose proof (bind_insert_perm publishing_of _ _ _ Exited Hk) as Hpp.
    cbn in Hcp, Hpp.
    constructor; unfold received, sent, in_publish, in_check; cbn;
      rewrite ?Hpp, ?Hcp; done.
  - (* check *)
    set (r := (CheckConfig (Z.of_nat idx + 1) cfg timeout w).1).
    pose proof (bind_insert_perm checking_of _ _ _ (Publishing idx r) Hk)
      as Hcp.
    pose proof (bind_insert_perm publishing_of _ _ _ (Publishing idx r) Hk)
      as Hpp.
    cbn in Hcp, Hpp.
    constructor; unfold received, sent, in_publish, in_check; cbn; try done.
    + apply Permutation_length in Hpp, Hcp. cbn [length] in Hpp, Hcp. lia.
    + intros Hon. rewrite Hpp, <- (Hslots Hon), <- Hcp.
      f_equiv. cbn. by rewrite <- Permutation_middle.
  - (* index out of range: excluded *)
    pose proof (Forall_lookup_1 _ _ _ _ Hwk Hk) as Hok. cbn in Hok.
    apply lookup_ge_None in Hcfg. unfold checker.total in *.
    destruct (pc s); lia.
  - (* publish *)
    pose proof (Forall_lookup_1 _ _ _ _ Hwk Hk)
      as (Hlt & cfg & w & Hcfg & Hin & Hr).
    assert (Hslot : slot r = idx).
    { unfold slot. rewrite Hr, checker_facts.Index_CheckConfig. lia. }
    pose proof (bind_insert_perm checking_of _ _ _ Receiving Hk) as Hcp.
    pose proof (bind_insert_perm publishing_of _ _ _ Receiving Hk) as Hpp.
    cbn in Hcp, Hpp.
    constructor; unfold received, sent, in_publish, in_check; cbn.
    + lia.
    + apply Permutation_length in Hpp, Hcp. cbn [length] in Hpp, Hcp. lia.
    + intros ->. by rewrite Hoff.
    + intros ->. rewrite map_app, (Hcnt eq_refl). cbn.
      replace (Z.to_nat (done s + 1)) with (S (Z.to_nat (done s))) by lia.
      rewrite counts_S, Z2Nat.id by done. reflexivity.
    + intros ->. rewrite map_app. cbn [map call_result fst]. rewrite Hslot.
      rewrite <- (Hslots eq_refl), <- Hpp, Hcp, <- app_assoc. cbn.
      by rewrite <- !Permutation_middle.
    + intros c Hc.
      assert (c ∈ calls s \/ (onResult = true /\ c = (r, done s + 1, Z.of_nat total)))
        as [Hold|[Hon ->]].
      { destruct onResult; [|auto].
        apply elem_of_app in Hc as [?|?%list_elem_of_singleton]; auto. }
      * rewrite list_lookup_insert_ne; [by apply Hrs|].
        destruct onResult; [|by rewrite Hoff in Hold; [apply elem_of_nil in Hold|]].
        pose proof (NoDup_seq 0 (match pc s with
                                 | Spawning _ => 0
                                 | Sending i => i
                                 | _ => total
                                 end - length (jobs s))%nat) as Hnd.
        rewrite <- (Hslots eq_refl) in Hnd.
        apply NoDup_app in Hnd as (_ & Hdisj & _).
        intros Heq. apply (Hdisj (slot (call_result c))).
        -- apply list_elem_of_fmap. eauto.
        -- apply elem_of_app. left. rewrite <- Heq.
           eapply (in_publish_elem (pool s)); eauto.
      * cbn. rewrite Hslot. by apply list_lookup_insert_eq.
  - (* slot out of range: excluded *)
    pose proof (Forall_lookup_1 _ _ _ _ Hwk Hk) as [Hlt Hok].
    rewrite Hres in Hidx. destruct (pc s); lia.
  - (* return *)
    constructor; unfold received, sent; cbn; done.
Qed.

Lemma callback_rtc s : rtc step init s -> invariant s /\ callback_invariant s.
Proof.
  intros H.
  eapply (rtc_ind_r (fun s => invariant s /\ callback_invariant s));
    [split; [apply checker_facts.invariant_init|apply callback_init]|
    |exact H].
  intros s1 s2 _ Hstep [Hinv Hcb]. split.
  - eapply checker_facts.invariant_step; eauto.
  - eapply callback_step; eauto.
Qed.

(** X5: the callback of [CheckAll]. With at least one worker, when [CheckAll]
    returns the counter [done] equals the number of configurations. A nil
    callback was never invoked. A non-nil callback was invoked once for
    every configuration, in some order of the configurations; the
    invocations carried the counts 1, 2, ... up to the number of
    configurations, in the order they were made, with that number as
    total; and the result each one carried is the one returned at the
    position of its configuration. *)
Theorem CheckAll_callbacks :
  1 <= workers ->
  forall s, rtc step init s -> pc s = Returned ->
    done s = Z.of_nat (length configs)
    /\ (onResult = false -> calls s = [])
    /\ (onResult = true ->
          map call_counts (calls s)
          = counts (length configs) (Z.of_nat (length configs))
          /\ map (fun c => slot (call_result c)) (calls s)
             ≡ₚ seq 0 (length configs)
          /\ forall c, c ∈ calls s ->
               results s !! slot (call_result c) = Some (call_result c)).
Proof.
  intros Hw s Hs Hpc. apply callback_rtc in Hs as [Hinv Hcb].
  pose proof (checker_facts.returned_received _ _ _ s Hw Hinv Hpc) as Hrecv.
  pose proof (inv_returned _ _ _ _ Hinv Hpc) as Hex.
  destruct Hcb as [Hpos Hdone Hoff Hcnt Hslots Hrs].
  assert (Hp : in_publish (pool s) = []).
  { clear -Hex. induction Hex as [|wk p -> _ IH]; [done|]. exact IH. }
  rewrite Hrecv, Hp, (checker_facts.in_check_exited _ Hex) in *.
  cbn in Hdone. rewrite Z.add_0_r in Hdone. split; [exact Hdone|].
  split; [exact Hoff|]. intros Hon. split; [|split; [|exact Hrs]].
  - rewrite (Hcnt Hon), Hdone, Nat2Z.id. reflexivity.
  - specialize (Hslots Hon). by rewrite !app_nil_r in Hslots.
Qed.
End Calls.

Lemma CheckAll_callbacks_witness :
  1 <= 2
  /\ forall s,
       rtc (step [samples.config; samples.config] 2 (10 * Second) true)
           (init [samples.config; samples.config]) s ->
       pc s = Returned ->
       map call_counts (calls s) = [(1, 2); (2, 2)].
Proof.
  split; [lia|]. intros s Hs Hpc.
  exact (proj1 (proj2 (proj2 (CheckAll_callbacks
                                [samples.config; samples.config] 2
                                (10 * Second) true ltac:(lia) s Hs Hpc))
                  eq_refl)).
Defined.

(** ** What is in flight *)

Lemma in_flight_length (p : list worker) :
  (length (in_check p) + length (in_publish p) <= length p)%nat.
Proof.
  unfold in_check, in_publish.
  induction p as [|wk p IH]; [done|]. destruct wk; cbn in *; lia.
Qed.

Lemma in_flight_perm (p : list worker) :
  in_flight p ≡ₚ in_check p ++ in_publish p.
Proof.
  unfold in_flight, in_check, in_publish.
  induction p as [|wk p IH]; [done|]. destruct wk; cbn; try done.
  - by rewrite IH.
  - by rewrite IH, <- Permutation_middle.
Qed.

(** X6: at every moment of a run of [CheckAll], with or without a callback,
    the configurations that a worker has taken from the channel and whose
    result is not yet stored are at most as many as the workers asked
    for, and none with a count of zero or less; no configuration is with
    two workers at once, be it to be checked or to be stored; every one
    of them has been taken from the channel; and the channel holds the
    indices that follow those taken so far, in the order of the input. *)
Theorem CheckAll_in_flight configs workers timeout onResult s :
  rtc (checker.step configs workers timeout onResult) (checker.init configs) s ->
  (length (in_check (pool s)) + length (in_publish (pool s))
   <= Z.to_nat workers)%nat
  /\ NoDup (in_check (pool s) ++ in_publish (pool s))
  /\ (forall i, i ∈ in_check (pool s) ++ in_publish (pool s) ->
        (i < received configs s)%nat)
  /\ jobs s = seq (received configs s) (length (jobs s)).
Proof.
  intros Hs.
  pose proof (flight_rtc configs workers timeout onResult s Hs) as Hnd.
  apply checker_facts.invariant_rtc in Hs as Hinv.
  split; [|split; [|split]].
  - pose proof (in_flight_length (pool s)) as Hlen.
    pose proof (inv_pool _ _ _ _ Hinv) as Hpool.
    destruct (pc s) as [i| | |] eqn:Hpc; try lia.
    destruct (inv_spawning _ _ _ _ Hinv i Hpc) as [Hi [Hle| ->]]; lia.
  - by rewrite <- in_flight_perm.
  - intros i Hi. rewrite <- in_flight_perm in Hi.
    exact (in_flight_lt configs timeout _ _ _ _
             (inv_workers _ _ _ _ Hinv) Hi).
  - apply (inv_jobs _ _ _ _ Hinv).
Qed.

(** The run that leads to [samples_run.one_in_flight]. *)
Lemma run_one_in_flight timeout onResult :
  rtc (checker.step [samples.config] 1 timeout onResult)
      (checker.init [samples.config]) samples_run.one_in_flight.
Proof.
  eapply rtc_l; [eapply (step_spawn _ _ _ _ _ 0); [reflexivity|lia]|].
  eapply rtc_l; [eapply (step_spawned _ _ _ _ _ 1); [reflexivity|lia]|].
  eapply rtc_l;
    [eapply (step_send _ _ _ _ _ 0%nat); [reflexivity|cbn; lia..]|].
  eapply rtc_l;
    [eapply (step_receive _ _ _ _ _ 0%nat 0%nat []); reflexivity|].
  reflexivity.
Qed.

Lemma CheckAll_in_flight_witness :
  (length (in_check (pool samples_run.one_in_flight))
   + length (in_publish (pool samples_run.one_in_flight)) <= 1)%nat.
Proof.
  exact (proj1 (CheckAll_in_flight [samples.config] 1 (10 * Second) true
                  samples_run.one_in_flight (run_one_in_flight _ _))).
Defined.

(** ** No configurations *)

(** X7: on an empty list of configurations [CheckAll] returns, whatever the
    worker count and the interleaving: a run has no infinite sequence of
    steps, it can go on as long as it has not reached the return, and
    some run does reach it. All along the run the slice of results is
    empty, no check is run, the callback is not called and the counter
    stays at zero. *)
Theorem CheckAll_no_configs workers timeout onResult :
  (sn (checker.step [] workers timeout onResult) (checker.init [])
   /\ (forall s,
         rtc (checker.step [] workers timeout onResult) (checker.init []) s ->
         pc s <> Returned ->
         red (checker.step [] workers timeout onResult) s)
   /\ exists rs, returns [] workers timeout onResult rs)
  /\ forall s,
       rtc (checker.step [] workers timeout onResult) (checker.init []) s ->
       results s = [] /\ checks s = [] /\ calls s = [] /\ done s = 0.
Proof.
  split; [apply checker_facts.CheckAll_returns|].
  intros s Hs. apply callback_rtc in Hs as [Hinv Hcb].
  pose proof (inv_results _ _ _ _ Hinv) as Hres.
  pose proof (inv_sent _ _ _ _ Hinv) as Hsent.
  pose proof (inv_once _ _ _ _ Hinv) as Honce.
  pose proof (cb_done _ _ _ Hcb) as Hdone.
  pose proof (cb_done_pos _ _ _ Hcb) as Hpos.
  unfold received in *. cbn in Hres, Hsent.
  assert (sent [] s = 0%nat) as E by lia. rewrite E in *. cbn in Honce, Hdone.
  apply Permutation_nil_r, app_eq_nil in Honce as [Hck _].
  split; [by apply length_zero_iff_nil|].
  split; [by destruct (checks s)|].
  assert (done s = 0) as Hd by lia. split; [|done].
  destruct onResult.
  - pose proof (cb_counts _ _ _ Hcb eq_refl) as Hcnt.
    rewrite Hd in Hcnt. cbn in Hcnt. by destruct (calls s).
  - by apply (cb_off _ _ _ Hcb).
Qed.
End orchestrator_facts.

(** * Further properties of the parser *)

Module line_facts.
Import parser parser_ghost.

Section Lines.
Context {lib : Library}.

(** ** Dispatch *)

(** X8: [ParseLine] looks at the trimmed line only. A line it accepts is not
    empty, is no comment and starts with the scheme of the configuration
    it yields. An empty line and a comment get the error of that name;
    a line with none of the four schemes is reported as unsupported, with
    the trimmed line in the message. *)
Theorem ParseLine_scheme (line : string) :
  let l := strings_TrimSpace line in
  match ParseLine line with
  | Ok cfg =>
      l <> EmptyString /\ strs.HasPrefix l "#" = false
      /\ strs.HasPrefix l (scheme cfg) = true
  | Err e =>
      (l = EmptyString \/ strs.HasPrefix l "#" = true ->
       e = errorString "empty or comment line")
      /\ (l <> EmptyString -> strs.HasPrefix l "#" = false ->
          strs.HasPrefix l "vless://" = false ->
          strs.HasPrefix l "ss://" = false ->
          strs.HasPrefix l "vmess://" = false ->
          strs.HasPrefix l "trojan://" = false ->
          e = errorString ("unsupported protocol in: " +:+ l))
  end.
Proof.
  intros l. unfold ParseLine. fold l.
  destruct (String.eqb_spec l EmptyString) as [El|El]; cbn [orb].
  { split; [done|]. intros; congruence. }
  destruct (strs.HasPrefix l "#") eqn:Hc.
  { split; [done|]. intros; congruence. }
  destruct (strs.HasPrefix l "vless://") eqn:H1.
  { destruct (parseVless l); cbn; [done|].
    split; [intros [?|?]|intros]; congruence. }
  destruct (strs.HasPrefix l "ss://") eqn:H2.
  { destruct (parseSS l); cbn; [done|].
    split; [intros [?|?]|intros]; congruence. }
  destruct (strs.HasPrefix l "vmess://") eqn:H3.
  { destruct (parseVmess l); cbn; [done|].
    split; [intros [?|?]|intros]; congruence. }
  destruct (strs.HasPrefix l "trojan://") eqn:H4.
  { destruct (parseTrojan l); cbn; [done|].
    split; [intros [?|?]|intros]; congruence. }
  split; [intros [?|?]; congruence|done].
Qed.

Lemma ParseLine_Ok_scheme (line : string) (cfg : ProxyConfig) :
  ParseLine line = Ok cfg ->
  strs.HasPrefix (strings_TrimSpace line) (scheme cfg) = true.
Proof.
  unfold ParseLine, fmap_result.
  destruct (_ || _); [discriminate|].
  destruct (strs.HasPrefix _ "vless://") eqn:H1.
  { destruct (parseVless _); intros [= <-]; done. }
  destruct (strs.HasPrefix _ "ss://") eqn:H2.
  { destruct (parseSS _); intros [= <-]; done. }
  destruct (strs.HasPrefix _ "vmess://") eqn:H3.
  { destruct (parseVmess _); intros [= <-]; done. }
  destruct (strs.HasPrefix _ "trojan://") eqn:H4; [|discriminate].
  destruct (parseTrojan _); intros [= <-]; done.
Qed.

(** The parser leaves no security empty in a vmess or a trojan
    configuration. *)
Lemma ParseLine_security (line : string) (cfg : ProxyConfig) :
  ParseLine line = Ok cfg ->
  match cfg with
  | Vmess c => vm_Security c <> EmptyString
  | Trojan c => tr_Security c <> EmptyString
  | _ => True
  end.
Proof.
  intros H. apply parser_facts.ParseLine_Ok in H.
  destruct cfg as [c|c|c|c]; [done|done| |].
  - unfold parseVmess, wrap, bind in H.
    destruct (base64DecodeUserinfo _) as [data|]; [|discriminate].
    destruct (json_Unmarshal _) as [v|]; [|discriminate].
    destruct (checked _) as [port|]; [|discriminate].
    injection H as <-. cbn [vm_Security].
    by destruct (String.eqb_spec (Scy v) EmptyString).
  - unfold parseTrojan, wrap, bind in H.
    destruct (url_Parse _) as [u|]; [|discriminate].
    destruct (checked _) as [port|]; [|discriminate].
    injection H as <-. cbn [tr_Security].
    by destruct (String.eqb_spec (url.Get (url.Query u) "security")
                   EmptyString).
Qed.

(** ** Names *)

Lemma QueryUnescape_nonempty s t :
  url.QueryUnescape s = Ok t -> s <> EmptyString -> t <> EmptyString.
Proof.
  destruct s as [|c s]; [done|]. intros H _. cbn in H.
  destruct (Ascii.eqb c "%").
  - destruct s as [|h1 [|h2 s]]; try discriminate.
    destruct (url.unhex h1), (url.unhex h2); try discriminate.
    destruct (url.QueryUnescape s); cbn in H; [|discriminate].
    by injection H as <-.
  - destruct (Ascii.eqb c "+");
      (destruct (url.QueryUnescape s); cbn in H; [|discriminate]);
      by injection H as <-.
Qed.

Lemma host_port_nonempty host port : fmt.host_port host port <> EmptyString.
Proof. unfold fmt.host_port. by destruct host. Qed.

Lemma display_name_nonempty fragment host port :
  display_name fragment host port <> EmptyString.
Proof.
  unfold display_name.
  destruct (String.eqb_spec fragment EmptyString) as [E|E].
  - apply host_port_nonempty.
  - destruct (url.QueryUnescape fragment) as [dec|] eqn:Hq; [|done].
    eapply QueryUnescape_nonempty; eauto.
Qed.

Lemma display_name_cases fragment host port :
  (fragment = EmptyString ->
   display_name fragment host port = fmt.host_port host port)
  /\ (fragment <> EmptyString ->
      (forall dec, url.QueryUnescape fragment = Ok dec ->
         display_name fragment host port = dec)
      /\ (forall e, url.QueryUnescape fragment = Err e ->
            display_name fragment host port = fragment)).
Proof.
  unfold display_name.
  destruct (String.eqb_spec fragment EmptyString) as [E|E];
    (split; [done|]); intros Hf; [done|].
  split; intros x Hx; by rewrite Hx.
Qed.

(** X9: every configuration that [ParseLine] yields has a name, and the name
    is never empty. For a vless, a shadowsocks and a trojan link it is
    the fragment of the URL, percent-decoded when it decodes and as it is
    when it does not, and the server with the port when the URL has no
    fragment. For a vmess link it is the [ps] of the payload, and the
    server with the port when the [ps] is empty. *)
Theorem ParseLine_name (line : string) (cfg : ProxyConfig) :
  ParseLine line = Ok cfg ->
  let l := strings_TrimSpace line in
  let fallback := fmt.host_port (GetServer cfg) (GetPort cfg) in
  GetName cfg <> EmptyString
  /\ match cfg with
     | Vmess c =>
         exists data v,
           base64DecodeUserinfo
             (strs.before "#" (strs.TrimPrefix l "vmess://"))
           = Ok data
           /\ json_Unmarshal data = Ok v
           /\ (PS v = EmptyString -> GetName cfg = fallback)
           /\ (PS v <> EmptyString -> GetName cfg = PS v)
     | _ =>
         exists u,
           url_Parse l = Ok u
           /\ (url.Fragment u = EmptyString -> GetName cfg = fallback)
           /\ (url.Fragment u <> EmptyString ->
               (forall dec, url.QueryUnescape (url.Fragment u) = Ok dec ->
                  GetName cfg = dec)
               /\ (forall e, url.QueryUnescape (url.Fragment u) = Err e ->
                     GetName cfg = url.Fragment u))
     end.
Proof.
  intros H l fallback. apply parser_facts.ParseLine_Ok in H. fold l in H.
  subst fallback.
  destruct cfg as [c|c|c|c]; cbn [GetName GetServer GetPort].
  - unfold parseVless, wrap, bind in H.
    destruct (url_Parse l) as [u|] eqn:Hu; [|discriminate].
    destruct (checked _) as [port|]; [|discriminate].
    injection H as <-. cbn [vl_Name vl_Server vl_Port].
    split; [apply display_name_nonempty|].
    exists u. split; [done|]. apply display_name_cases.
  - unfold parseSS, wrap, bind in H.
    destruct (url_Parse l) as [u|] eqn:Hu; [|discriminate].
    destruct (checked _) as [port|]; [|discriminate].
    destruct (base64DecodeUserinfo _) as [decoded|]; [|discriminate].
    destruct (strs.SplitN2 _ _) as [|m [|p [|]]]; try discriminate.
    injection H as <-. cbn [ss_Name ss_Server ss_Port].
    split; [apply display_name_nonempty|].
    exists u. split; [done|]. apply display_name_cases.
  - unfold parseVmess, wrap, bind in H.
    destruct (base64DecodeUserinfo _) as [data|] eqn:Hd; [|discriminate].
    destruct (json_Unmarshal data) as [v|] eqn:Hv; [|discriminate].
    destruct (checked _) as [port|]; [|discriminate].
    injection H as <-. cbn [vm_Name vm_Server vm_Port].
    destruct (String.eqb_spec (PS v) EmptyString) as [E|E].
    + split; [apply host_port_nonempty|].
      exists data, v. split; [done|]. split; [done|].
      split; [done|intros; congruence].
    + split; [done|]. exists data, v. split; [done|]. split; [done|].
      split; [intros; congruence|done].
  - unfold parseTrojan, wrap, bind in H.
    destruct (url_Parse l) as [u|] eqn:Hu; [|discriminate].
    destruct (checked _) as [port|]; [|discriminate].
    injection H as <-. cbn [tr_Name tr_Server tr_Port].
    split; [apply display_name_nonempty|].
    exists u. split; [done|]. apply display_name_cases.
Qed.

(** ** The fragment of a vmess link *)

Lemma before_absent c s : strs.contains c s = false -> strs.before c s = s.
Proof. intros H. unfold strs.before. by rewrite parser_facts.cut_absent. Qed.

Lemma before_first c a b :
  strs.contains c a = false -> strs.before c (a +:+ String c b) = a.
Proof. intros H. unfold strs.before. by rewrite parser_facts.cut_first. Qed.

(** X10: a vmess link is parsed as if it had no fragment: what follows the
    first [#] is dropped before the payload is decoded, and the name comes
    from the payload alone. *)
Theorem parseVmess_fragment_ignored (b64 fragment : string) :
  strs.contains "#" b64 = false ->
  parseVmess ("vmess://" +:+ b64 +:+ String "#" fragment)
  = parseVmess ("vmess://" +:+ b64).
Proof.
  intros H. unfold parseVmess.
  change (strs.TrimPrefix ("vmess://" +:+ b64 +:+ String "#" fragment)
            "vmess://") with (b64 +:+ String "#" fragment).
  change (strs.TrimPrefix ("vmess://" +:+ b64) "vmess://") with b64.
  by rewrite before_first, before_absent.
Qed.

End Lines.

Lemma ParseLine_name_witness :
  @ParseLine samples.library samples.ss_line = Ok samples.config
  /\ GetName samples.config = "home"
  /\ exists c, @ParseLine samples.library samples.vmess_line = Ok (Vmess c)
               /\ vm_Name c = "example.org:443".
Proof.
  split; [reflexivity|]. split.
  - destruct (proj2 (@ParseLine_name samples.library samples.ss_line
                       samples.config eq_refl))
      as (u & Hu & _ & Hf).
    injection Hu as <-. exact (proj1 (Hf ltac:(discriminate)) "home" eq_refl).
  - eexists. split; [reflexivity|].
    destruct (proj2 (@ParseLine_name samples.library samples.vmess_line
                       _ eq_refl))
      as (data & v & Hd & Hv & He & _).
    injection Hd as <-. injection Hv as <-. exact (He eq_refl).
Defined.

Lemma parseVmess_fragment_ignored_witness :
  strs.contains "#" (strs.TrimPrefix samples.vmess_line "vmess://") = false
  /\ @parseVmess samples.library (samples.vmess_line +:+ "#home")
     = @parseVmess samples.library samples.vmess_line.
Proof.
  split; [reflexivity|].
  exact (@parseVmess_fragment_ignored samples.library
           (strs.TrimPrefix samples.vmess_line "vmess://") "home" eq_refl).
Defined.
End line_facts.

(** * Unpadded links *)

Module decoder_facts.
Import base64 base64_ghost.

Lemma well_formed_RawStd : well_formed RawStdEncoding.
Proof.
  split; [apply base64_facts.sextet_decoded_spec; vm_compute; reflexivity|].
  split; [reflexivity|left; reflexivity].
Qed.

Lemma compatible_RawURL_RawStd : compatible RawURLEncoding RawStdEncoding.
Proof. base64_facts.by_cases_on_byte. Qed.

Lemma EncodeToString_RawStd_percent p :
  strs.contains "%" (EncodeToString RawStdEncoding p) = false.
Proof.
  apply base64_facts.forallb_contains.
  apply (base64_facts.EncodeToString_forallb _ RawStdEncoding)
    with (n := String.length p); [| |lia].
  - apply base64_facts.sextet_cases. vm_compute. reflexivity.
  - reflexivity.
Qed.

Lemma padded_quantum a b c d s :
  parser.padded (String a (String b (String c (String d s))))
  = String a (String b (String c (String d (parser.padded s)))).
Proof.
  unfold parser.padded. cbn [String.length].
  replace (S (S (S (S (String.length s)))))
    with (String.length s + 1 * 4)%nat by lia.
  rewrite Nat.Div0.mod_add.
  by destruct (String.length s mod 4)%nat as [|[|[|[|?]]]].
Qed.

(** Padding the unpadded encoding gives the padded one. *)
Lemma padded_RawStd :
  forall n p, (String.length p <= n)%nat ->
    parser.padded (EncodeToString RawStdEncoding p)
    = EncodeToString StdEncoding p.
Proof.
  induction n as [n IH] using lt_wf_ind. intros p Hn.
  destruct p as [|a [|b [|c rest]]]; [reflexivity..|].
  cbn [EncodeToString]. rewrite padded_quantum.
  rewrite (IH (String.length rest)); [reflexivity|cbn in Hn; lia|lia].
Qed.

(** X11: a payload in standard base64 without its padding is decoded, when its
    text has no [+]: where the URL-safe decoder gives up on a [/], the
    parser pads the text and hands it to the standard decoder. *)
Theorem base64DecodeUserinfo_unpadded (p : string) :
  strs.contains "+" (EncodeToString RawStdEncoding p) = false ->
  parser.base64DecodeUserinfo (EncodeToString RawStdEncoding p) = Ok p.
Proof.
  intros Hplus.
  rewrite (base64_facts.base64DecodeUserinfo_unescaped _
             (EncodeToString RawStdEncoding p)).
  - rewrite (padded_RawStd (String.length p)) by lia.
    destruct (DecodeString RawURLEncoding _) as [q|] eqn:Hraw.
    + f_equal.
      eapply (base64_facts.DecodeString_agree RawURLEncoding RawStdEncoding);
        [apply compatible_RawURL_RawStd|exact Hraw|].
      apply base64_facts.DecodeString_EncodeToString, well_formed_RawStd.
    + by rewrite base64_facts.DecodeString_EncodeToString
        by apply base64_facts.well_formed_Std.
  - rewrite base64_facts.QueryUnescape_plus
      by apply EncodeToString_RawStd_percent.
    by rewrite base64_facts.plus_to_space_id.
Qed.

Lemma base64DecodeUserinfo_unpadded_witness :
  EncodeToString RawStdEncoding "????" = "Pz8/Pw"
  /\ (exists e, DecodeString RawURLEncoding "Pz8/Pw" = Err e)
  /\ parser.base64DecodeUserinfo "Pz8/Pw" = Ok "????".
Proof.
  split; [reflexivity|]. split; [eexists; reflexivity|].
  exact (base64DecodeUserinfo_unpadded "????" eq_refl).
Defined.
End decoder_facts.

(** * Properties of the generated engine configuration *)

Module xray_facts.
Import parser xray xray_ghost.

(** Case analysis on the comparisons of a string with a literal; those
    of two literals are computed. *)
Ltac string_cases :=
  repeat match goal with
         | |- context [String.eqb ?a ?b] =>
             first
               [ is_var a; destruct (String.eqb_spec a b); try subst a
               | let v := eval vm_compute in (String.eqb a b) in
                 change (String.eqb a b) with v ]
         end;
  cbn [orb andb negb]; cbv iota.

(** A lookup in a map with literal keys. *)
Ltac lookup_literal :=
  lazymatch goal with
  | |- is_Some _ <-> _ =>
      split;
      [ first [ intros _; first [reflexivity | by left | by right]
              | intros [? H]; vm_compute in H; discriminate H ]
      | first [ intros _; eexists; reflexivity
              | intros [?|?]; congruence
              | intros; congruence ] ]
  | |- _ = _ => reflexivity
  end.

(** ** The document *)

Lemma xrayConfig_dom socksPort protocol settings streamSettings :
  dom (xrayConfig socksPort protocol settings streamSettings)
  = {[ "log"; "inbounds"; "outbounds" ]}.
Proof. unfold xrayConfig. cbv zeta. set_solver. Qed.

Lemma xrayConfig_inbounds socksPort protocol settings streamSettings :
  xrayConfig socksPort protocol settings streamSettings !! "inbounds"
  = Some (JArray [inbound socksPort]).
Proof. reflexivity. Qed.

Lemma xrayConfig_outbound socksPort protocol settings streamSettings :
  exists ob,
    outbound_of (xrayConfig socksPort protocol settings streamSettings)
    = Some ob
    /\ ob !! "protocol" = Some (JString protocol)
    /\ ob !! "settings" = Some (JObject settings)
    /\ ob !! "streamSettings" = JObject <$> streamSettings.
Proof.
  destruct streamSettings as [ss|]; eexists; (split; [reflexivity|]);
    repeat split; reflexivity.
Qed.

Lemma xrayConfig_stream socksPort protocol settings streamSettings :
  stream_of (xrayConfig socksPort protocol settings streamSettings)
  = streamSettings.
Proof. by destruct streamSettings. Qed.

Lemma xrayConfig_server socksPort protocol key server streamSettings :
  server_of key
    (xrayConfig socksPort protocol {[ key := JArray [JObject server] ]}
       streamSettings)
  = Some server.
Proof.
  unfold server_of.
  destruct (xrayConfig_outbound socksPort protocol
              {[ key := JArray [JObject server] ]} streamSettings)
    as (ob & Hob & _ & Hset & _).
  rewrite Hob. cbn [mbind option_bind]. rewrite Hset.
  cbn [as_object mbind option_bind]. by rewrite lookup_singleton_eq.
Qed.

(** The document of every configuration is one of [xrayConfig]. *)
Lemma document_xrayConfig cfg socksPort :
  exists server streamSettings,
    document cfg socksPort
    = xrayConfig socksPort (GetProtocol cfg)
        {[ servers_key cfg := JArray [JObject server] ]} streamSettings
    /\ server !! "address" = Some (JString (GetServer cfg))
    /\ server !! "port" = Some (JNumber (GetPort cfg))
    /\ (streamSettings = None <-> exists c, cfg = SS c).
Proof.
  destruct cfg as [c|c|c|c]; cbn [document GetProtocol servers_key];
    unfold vlessConfig, ssConfig, vmessConfig, trojanConfig; cbv zeta;
    eexists _, _; (split; [reflexivity|]);
    (split; [reflexivity|]); (split; [reflexivity|]);
    (split; [try discriminate; eauto|try (by intros [? ?]); eauto]).
Qed.

(** X12: whatever the configuration, the document that [GenerateConfig]
    marshals has the three entries [log], [inbounds] and [outbounds]. The
    only inbound is the SOCKS5 one at the given port; the only outbound has
    the protocol of the configuration, and its first server the address
    and the port of the configuration. It has stream settings unless the
    configuration is a shadowsocks one. *)
Theorem GenerateConfig_document {enc : Encoder} (cfg : ProxyConfig)
    (socksPort : Z) :
  let doc := document cfg socksPort in
  GenerateConfig cfg socksPort
  = json_MarshalIndent (JObject doc) EmptyString "  "
  /\ dom doc = {[ "log"; "inbounds"; "outbounds" ]}
  /\ doc !! "inbounds" = Some (JArray [inbound socksPort])
  /\ (exists ob,
        outbound_of doc = Some ob
        /\ ob !! "protocol" = Some (JString (GetProtocol cfg))
        /\ (ob !! "streamSettings" = None <-> exists c, cfg = SS c))
  /\ (exists server,
        server_of (servers_key cfg) doc = Some server
        /\ server !! "address" = Some (JString (GetServer cfg))
        /\ server !! "port" = Some (JNumber (GetPort cfg))).
Proof.
  intros doc. split; [by destruct cfg|].
  destruct (document_xrayConfig cfg socksPort)
    as (server & ss & Hdoc & Haddr & Hport & Hss).
  unfold doc. rewrite Hdoc.
  split; [apply xrayConfig_dom|]. split; [apply xrayConfig_inbounds|].
  split.
  - destruct (xrayConfig_outbound socksPort (GetProtocol cfg)
                {[ servers_key cfg := JArray [JObject server] ]} ss)
      as (ob & Hob & Hproto & _ & Hstream).
    exists ob. split; [done|]. split; [done|].
    rewrite Hstream, <- Hss. by destruct ss.
  - exists server. split; [apply xrayConfig_server|]. done.
Qed.

(** ** Stream settings *)

Lemma buildStreamSettings_reality network security sni host path fp :
  buildStreamSettings network security sni host path fp !! "realitySettings"
  = if String.eqb security "reality"
    then Some (JObject {[ "serverName" := JString sni;
                          "fingerprint" := JString fp ]})
    else None.
Proof.
  unfold buildStreamSettings. cbv zeta. string_cases; reflexivity.
Qed.

Lemma buildStreamSettings_tls network security sni host path fp :
  buildStreamSettings network security sni host path fp !! "tlsSettings"
  = if String.eqb security "tls"
    then Some (JObject
                 (if String.eqb fp EmptyString
                  then {[ "serverName" := JString sni ]}
                  else {[ "fingerprint" := JString fp;
                          "serverName" := JString sni ]}))
    else None.
Proof.
  unfold buildStreamSettings. cbv zeta. string_cases; reflexivity.
Qed.

Lemma buildStreamSettings_security_entry network security sni host path fp :
  buildStreamSettings network security sni host path fp !! "security"
  = Some (JString security).
Proof.
  unfold buildStreamSettings. cbv zeta. string_cases; reflexivity.
Qed.

Lemma xrayConfig_user socksPort protocol server streamSettings :
  user_of
    (xrayConfig socksPort protocol {[ "vnext" := JArray [JObject server] ]}
       streamSettings)
  = as_object (only (server !! "users")).
Proof. unfold user_of. by rewrite xrayConfig_server. Qed.

(** X13: the security block of the stream settings. The entries [network] and
    [security] repeat the arguments. There is a [tlsSettings] block
    exactly for the security [tls] and a [realitySettings] block exactly
    for [reality], so never both and neither for any other value. The
    TLS block names the server and has a fingerprint only if one is given;
    the reality block has the fingerprint even when it is empty. *)
Theorem buildStreamSettings_security network security sni host path fp :
  let ss := buildStreamSettings network security sni host path fp in
  ss !! "network" = Some (JString network)
  /\ ss !! "security" = Some (JString security)
  /\ (is_Some (ss !! "tlsSettings") <-> security = "tls")
  /\ (is_Some (ss !! "realitySettings") <-> security = "reality")
  /\ (security = "tls" ->
      exists tls,
        ss !! "tlsSettings" = Some (JObject tls)
        /\ tls !! "serverName" = Some (JString sni)
        /\ (fp = EmptyString -> tls !! "fingerprint" = None)
        /\ (fp <> EmptyString -> tls !! "fingerprint" = Some (JString fp)))
  /\ (security = "reality" ->
      ss !! "realitySettings"
      = Some (JObject {[ "serverName" := JString sni;
                         "fingerprint" := JString fp ]})).
Proof.
  intros ss. unfold ss, buildStreamSettings. cbv zeta.
  string_cases;
    (split; [lookup_literal|]); (split; [lookup_literal|]);
    (split; [lookup_literal|]); (split; [lookup_literal|]);
    (split; [|intros; first [discriminate | congruence | reflexivity]]);
    intros; try discriminate; try congruence;
    eexists; (split; [reflexivity|]); (split; [reflexivity|]);
    split; intros; first [reflexivity | congruence].
Qed.

(** X14: the transport block of the stream settings: one block at most, chosen
    by the network: [wsSettings] for [ws], [grpcSettings] for [grpc],
    [httpSettings] for [http] and [h2], [httpupgradeSettings] for
    [httpupgrade], [xhttpSettings] for [xhttp] and [splithttp], and none
    for any other network, [tcp] and the empty string among them. The
    settings have no entries besides these, the security block and the
    two that repeat the arguments. *)
Theorem buildStreamSettings_transport network security sni host path fp :
  let ss := buildStreamSettings network security sni host path fp in
  (is_Some (ss !! "wsSettings") <-> network = "ws")
  /\ (is_Some (ss !! "grpcSettings") <-> network = "grpc")
  /\ (is_Some (ss !! "httpSettings") <-> network = "http" \/ network = "h2")
  /\ (is_Some (ss !! "httpupgradeSettings") <-> network = "httpupgrade")
  /\ (is_Some (ss !! "xhttpSettings")
      <-> network = "xhttp" \/ network = "splithttp")
  /\ dom ss ⊆ {[ "network"; "security"; "tlsSettings"; "realitySettings";
                 "wsSettings"; "grpcSettings"; "httpSettings";
                 "httpupgradeSettings"; "xhttpSettings" ]}.
Proof.
  intros ss. unfold ss, buildStreamSettings. cbv zeta.
  string_cases;
    (split; [lookup_literal|]); (split; [lookup_literal|]);
    (split; [lookup_literal|]); (split; [lookup_literal|]);
    (split; [lookup_literal|]); compute_done.
Qed.

(** ** The outbound of each protocol *)

(** X15: the VLESS outbound. Its stream settings are those of
    [buildStreamSettings] but for the reality block, which exists exactly
    for the security [reality] and carries the public key and the short
    id only if the configuration has a public key. The user has the UUID
    of the configuration, the encryption [none] when the configuration
    names none, and a flow only if the configuration has one. *)
Theorem generateVlessConfig_settings (c : VlessConfig) (socksPort : Z) :
  let doc := vlessConfig c socksPort in
  let base := buildStreamSettings (vl_Type c) (vl_Security c) (vl_SNI c)
                (vl_Host c) (vl_Path c) (vl_Fp c) in
  exists ss user,
    stream_of doc = Some ss
    /\ user_of doc = Some user
    /\ (forall k, k <> "realitySettings" -> ss !! k = base !! k)
    /\ (is_Some (ss !! "realitySettings") <-> vl_Security c = "reality")
    /\ (vl_Security c = "reality" ->
        exists re,
          ss !! "realitySettings" = Some (JObject re)
          /\ re !! "serverName" = Some (JString (vl_SNI c))
          /\ re !! "fingerprint" = Some (JString (vl_Fp c))
          /\ (vl_PublicKey c = EmptyString ->
              re !! "publicKey" = None /\ re !! "shortId" = None)
          /\ (vl_PublicKey c <> EmptyString ->
              re !! "publicKey" = Some (JString (vl_PublicKey c))
              /\ re !! "shortId" = Some (JString (vl_ShortID c))))
    /\ user !! "id" = Some (JString (vl_UUID c))
    /\ (vl_Encryption c = EmptyString ->
        user !! "encryption" = Some (JString "none"))
    /\ (vl_Encryption c <> EmptyString ->
        user !! "encryption" = Some (JString (vl_Encryption c)))
    /\ (vl_Flow c = EmptyString -> user !! "flow" = None)
    /\ (vl_Flow c <> EmptyString ->
        user !! "flow" = Some (JString (vl_Flow c))).
Proof.
  intros doc base. unfold doc, vlessConfig. cbv zeta. fold base.
  rewrite xrayConfig_stream, xrayConfig_user.
  eexists _, _. split; [reflexivity|]. split; [reflexivity|].
  pose proof (buildStreamSettings_reality (vl_Type c) (vl_Security c)
                (vl_SNI c) (vl_Host c) (vl_Path c) (vl_Fp c)) as Hre.
  fold base in Hre.
  split; [|split; [|split]].
  - intros k Hk. destruct (_ && _); [by rewrite lookup_insert_ne|done].
  - destruct (String.eqb_spec (vl_Security c) "reality") as [E|E];
      cbn [andb].
    + destruct (negb _); [rewrite lookup_insert_eq|rewrite Hre]; by split.
    + rewrite Hre. split; [by intros [? ?]|done].
  - intros E. rewrite E in *. cbn [String.eqb Ascii.eqb Bool.eqb andb] in *.
    destruct (String.eqb_spec (vl_PublicKey c) EmptyString) as [Ek|Ek];
      cbn [negb]; eexists;
      (split; [first [apply lookup_insert_eq|exact Hre]|]);
      (split; [reflexivity|]); (split; [reflexivity|]); by split.
  - destruct (String.eqb_spec (vl_Encryption c) EmptyString) as [Ee|Ee],
      (String.eqb_spec (vl_Flow c) EmptyString) as [Ef|Ef]; cbn [negb];
      (split; [reflexivity|]); (split; [by intros|]); (split; [by intros|]);
      split; by intros.
Qed.

(** X16: the VMess outbound. The stream security is [tls] exactly when the
    configuration says [tls], and the empty string for any other value;
    there is a TLS block in the first case only, without a fingerprint,
    and never a reality block. The user has the UUID and the alterId of
    the configuration, and the security [auto] when the configuration
    names none. *)
Theorem generateVmessConfig_settings (c : VmessConfig) (socksPort : Z) :
  let doc := vmessConfig c socksPort in
  exists ss user,
    stream_of doc = Some ss
    /\ user_of doc = Some user
    /\ (vm_TLS c = "tls" ->
        ss !! "security" = Some (JString "tls")
        /\ ss !! "tlsSettings"
           = Some (JObject {[ "serverName" := JString (vm_SNI c) ]}))
    /\ (vm_TLS c <> "tls" ->
        ss !! "security" = Some (JString EmptyString)
        /\ ss !! "tlsSettings" = None)
    /\ ss !! "realitySettings" = None
    /\ user !! "id" = Some (JString (vm_UUID c))
    /\ user !! "alterId" = Some (JNumber (vm_Aid c))
    /\ (vm_Security c = EmptyString ->
        user !! "security" = Some (JString "auto"))
    /\ (vm_Security c <> EmptyString ->
        user !! "security" = Some (JString (vm_Security c))).
Proof.
  intros doc. unfold doc, vmessConfig. cbv zeta.
  rewrite xrayConfig_stream, xrayConfig_user.
  eexists _, _. split; [reflexivity|]. split; [reflexivity|].
  rewrite buildStreamSettings_security_entry, buildStreamSettings_tls,
    buildStreamSettings_reality.
  destruct (String.eqb_spec (vm_TLS c) "tls") as [Et|Et],
    (String.eqb_spec (vm_Security c) EmptyString) as [Es|Es];
    repeat split; intros; first [reflexivity|congruence].
Qed.

(** X17: the Trojan outbound. The stream security is that of the
    configuration, and [tls] when the configuration names none, so it is
    never empty; there is a TLS block exactly in those two cases, naming
    the server of the configuration. The server entry carries the
    password. *)
Theorem generateTrojanConfig_settings (c : TrojanConfig) (socksPort : Z) :
  let doc := trojanConfig c socksPort in
  exists ss server,
    stream_of doc = Some ss
    /\ server_of "servers" doc = Some server
    /\ server !! "password" = Some (JString (tr_Password c))
    /\ ss !! "security" <> Some (JString EmptyString)
    /\ (tr_Security c = EmptyString ->
        ss !! "security" = Some (JString "tls"))
    /\ (tr_Security c <> EmptyString ->
        ss !! "security" = Some (JString (tr_Security c)))
    /\ (is_Some (ss !! "tlsSettings")
        <-> tr_Security c = EmptyString \/ tr_Security c = "tls")
    /\ (forall tls, ss !! "tlsSettings" = Some (JObject tls) ->
        tls !! "serverName" = Some (JString (tr_SNI c))).
Proof.
  intros doc. unfold doc, trojanConfig. cbv zeta.
  rewrite xrayConfig_stream, xrayConfig_server.
  eexists _, _. split; [reflexivity|]. split; [reflexivity|].
  split; [reflexivity|].
  rewrite buildStreamSettings_security_entry, buildStreamSettings_tls.
  destruct (String.eqb_spec (tr_Security c) EmptyString) as [Es|Es].
  - cbn [String.eqb Ascii.eqb Bool.eqb].
    split; [discriminate|]. split; [done|]. split; [done|].
    split; [split; eauto|].
    intros tls [= <-]. by destruct (String.eqb _ _).
  - split; [congruence|]. split; [done|]. split; [done|].
    destruct (String.eqb_spec (tr_Security c) "tls") as [Et|Et].
    + split; [split; eauto|].
      intros tls [= <-]. by destruct (String.eqb _ _).
    + split; [|discriminate].
      split; [by intros [? ?]|intros [?|?]; congruence].
Qed.

(** ** From a line to the outbound *)

(** X18: the outbound built for a line that parses. Its protocol is that of
    the scheme of the line, [shadowsocks] for [ss]. The defaults of the
    generator for an empty security never apply: the parser has filled
    them in, so the user of a VMess outbound and the stream of a Trojan
    outbound carry the security of the configuration as it is. *)
Theorem parsed_line_outbound {lib : Library} (line : string)
    (cfg : ProxyConfig) (socksPort : Z) :
  ParseLine line = Ok cfg ->
  let l := strings_TrimSpace line in
  let doc := document cfg socksPort in
  (exists ob,
     outbound_of doc = Some ob
     /\ ((strs.HasPrefix l "vless://" = true
          /\ ob !! "protocol" = Some (JString "vless"))
         \/ (strs.HasPrefix l "ss://" = true
             /\ ob !! "protocol" = Some (JString "shadowsocks"))
         \/ (strs.HasPrefix l "vmess://" = true
             /\ ob !! "protocol" = Some (JString "vmess"))
         \/ (strs.HasPrefix l "trojan://" = true
             /\ ob !! "protocol" = Some (JString "trojan"))))
  /\ (forall c, cfg = Vmess c ->
        exists user,
          user_of doc = Some user
          /\ user !! "security" = Some (JString (vm_Security c))
          /\ vm_Security c <> EmptyString)
  /\ (forall c, cfg = Trojan c ->
        exists ss,
          stream_of doc = Some ss
          /\ ss !! "security" = Some (JString (tr_Security c))
          /\ tr_Security c <> EmptyString).
Proof.
  intros H l doc.
  pose proof (line_facts.ParseLine_Ok_scheme line cfg H) as Hscheme.
  pose proof (line_facts.ParseLine_security line cfg H) as Hsec.
  fold l in Hscheme. split; [|split].
  - destruct (document_xrayConfig cfg socksPort)
      as (server & ss & Hdoc & _).
    unfold doc. rewrite Hdoc.
    destruct (xrayConfig_outbound socksPort (GetProtocol cfg)
                {[ xray_ghost.servers_key cfg := JArray [JObject server] ]} ss)
      as (ob & Hob & Hproto & _).
    exists ob. split; [done|].
    destruct cfg; cbn in Hscheme, Hproto; auto 6.
  - intros c ->. unfold doc, document, vmessConfig. cbv zeta.
    rewrite xrayConfig_user. eexists. split; [reflexivity|].
    apply String.eqb_neq in Hsec as Hb. rewrite Hb. by split.
  - intros c ->. unfold doc, document, trojanConfig. cbv zeta.
    rewrite xrayConfig_stream. eexists. split; [reflexivity|].
    rewrite buildStreamSettings_security_entry.
    apply String.eqb_neq in Hsec as Hb. rewrite Hb. by split.
Qed.

Lemma parsed_line_outbound_witness :
  @ParseLine samples.library samples.ss_line = Ok samples.config
  /\ exists ob,
       outbound_of (document samples.config 1080) = Some ob
       /\ ob !! "protocol" = Some (JString "shadowsocks").
Proof.
  split; [reflexivity|].
  destruct (proj1 (@parsed_line_outbound samples.library samples.ss_line
                     samples.config 1080 eq_refl))
    as (ob & Hob & [[H _]|[[_ H]|[[H _]|[H _]]]]);
    try discriminate H.
  exists ob. by split.
Defined.
End xray_facts.

(** * Properties of the reader of the configuration *)

Module reader_facts.
Import xray.

(** What is left to read. *)
Lemma Read_spec (r : bytesReader) (p : list ascii) :
  let src := drop (pos r) (data r) in
  let '((p', r'), (n, err)) := Read r p in
  take (Z.to_nat n) p' = take (length p) src
  /\ data r' = data r
  /\ drop (pos r') (data r') = drop (length p) src
  /\ pos r' = (pos r + length (take (length p) src))%nat
  /\ (err = Some EOF <-> (length (data r) <= pos r)%nat)
  /\ (err = None \/ err = Some EOF).
Proof.
  intros src. unfold Read. fold src.
  destruct (Nat.leb_spec (length (data r)) (pos r)) as [Hle|Hlt].
  - assert (src = []) as -> by (apply drop_ge; lia).
    cbn. rewrite take_nil, drop_nil.
    repeat split; auto; try (apply drop_ge; lia); cbn; lia.
  - cbn [fst snd]. rewrite Nat2Z.id.
    assert (length src = (length (data r) - pos r)%nat) as Hsrc
      by apply length_drop.
    rewrite take_app_le by (rewrite length_take; lia).
    rewrite take_take. cbn [data pos].
    destruct (Nat.min_spec (length p) (length src)) as [[Hm ->]|[Hm ->]].
    + rewrite Nat.min_id. unfold src. rewrite drop_drop.
      rewrite length_take. fold src.
      replace (length p `min` length src)%nat with (length p) by lia.
      repeat split; auto; try discriminate. intros; lia.
    + replace (length src `min` length p)%nat with (length src) by lia.
      rewrite !take_ge by lia. rewrite (drop_ge src) by lia.
      rewrite drop_ge by lia.
      repeat split; auto; try discriminate. intros; lia.
Qed.

(** X19: the reader hands out the configuration in order, each byte once,
    whatever the sizes of the buffers: the bytes delivered by a run of
    reads are the next bytes of the data, as many as the buffers hold
    together, the position advances by their number, and the data are not
    touched. A read reports the end of the data exactly when the position
    has reached their length, and then delivers nothing; so once the
    buffers have held all that was left, the reads have delivered all of
    it and the next read reports the end. *)
Theorem bytesReader_stream (r : bytesReader) (bufs : list (list ascii)) :
  let src := drop (pos r) (data r) in
  let room := sum_list (length <$> bufs) in
  let chunks := fst (reads r bufs) in
  let r' := snd (reads r bufs) in
  concat chunks = take room src
  /\ data r' = data r
  /\ pos r' = (pos r + length (concat chunks))%nat
  /\ (forall p, snd (snd (Read r' p)) = Some EOF
                <-> (length (data r) <= pos r')%nat)
  /\ (forall p, (length (data r) <= pos r')%nat ->
                Read r' p = ((p, r'), (0, Some EOF)))
  /\ ((length src <= room)%nat -> concat chunks = src).
Proof.
  revert r. induction bufs as [|p bufs IH]; intros r src room chunks r'.
  - cbn in *. unfold chunks, r', room. cbn.
    split; [by rewrite take_0|]. split; [done|]. split; [lia|].
    split; [|split].
    + intros q. pose proof (Read_spec r q) as H.
      destruct (Read r q) as [[q' r1] [n err]]. cbn.
      by destruct H as (_ & _ & _ & _ & H & _).
    + intros q Hq. unfold Read.
      destruct (Nat.leb_spec (length (data r)) (pos r)); [done|lia].
    + intros H. symmetry. by apply length_zero_iff_nil, Nat.le_0_r.
  - pose proof (Read_spec r p) as Hread.
    unfold chunks, r', room. cbn [reads fmap list_fmap sum_list].
    destruct (Read r p) as [[p' r1] [n err]].
    destruct Hread as (Hchunk & Hdata & Hdrop & Hpos & _).
    specialize (IH r1). cbv zeta in IH.
    destruct (reads r1 bufs) as [chunks1 r2]. cbn [fst snd] in *.
    destruct IH as (IH1 & IH2 & IH3 & IH4 & IH5 & IH6).
    rewrite Hdata in *. rewrite Hdrop in IH1, IH6. fold src in Hchunk, Hpos.
    assert (concat (take (Z.to_nat n) p' :: chunks1)
            = take (length p + sum_list (length <$> bufs)) src) as Hcat.
    { cbn [concat]. rewrite Hchunk, IH1. apply take_take_drop. }
    split; [exact Hcat|]. split; [done|]. split.
    { rewrite IH3, Hpos. cbn [concat]. rewrite length_app, Hchunk. lia. }
    split; [done|]. split; [done|].
    intros H. rewrite Hcat. by apply take_ge.
Qed.
End reader_facts.

(** * Properties of the command *)

Module main_facts.
Import main.

Section Read.
Context {lib : parser.Library}.

Lemma readConfigs_from (acc : list ConfigEntry) lines :
  foldl (fun entries line =>
           match parser.ParseLine line with
           | Err _ => entries
           | Ok cfg => entries ++ [{| RawURI := line; Config := cfg |}]
           end) acc lines
  = acc ++ readConfigs lines.
Proof.
  unfold readConfigs. revert acc.
  induction lines as [|line lines IH] using rev_ind; intros acc.
  - by rewrite app_nil_r.
  - rewrite !foldl_app. cbn. rewrite IH.
    destruct (parser.ParseLine line); [|done]. by rewrite app_assoc.
Qed.

Lemma readConfigs_cons line lines :
  readConfigs (line :: lines)
  = match parser.ParseLine line with
    | Ok cfg => {| RawURI := line; Config := cfg |} :: readConfigs lines
    | Err _ => readConfigs lines
    end.
Proof.
  unfold readConfigs at 1. cbn. rewrite readConfigs_from.
  by destruct (parser.ParseLine line).
Qed.

Lemma readConfigs_uris (lines : list string) :
  map RawURI (readConfigs lines) = List.filter parses lines.
Proof.
  induction lines as [|line lines IH]; [done|].
  rewrite readConfigs_cons. cbn [List.filter]. unfold parses at 1.
  destruct (parser.ParseLine line); [cbn; by rewrite IH|done].
Qed.

Lemma readConfigs_parsed (lines : list string) :
  Forall (fun e => parser.ParseLine (RawURI e) = Ok (Config e))
         (readConfigs lines).
Proof.
  induction lines as [|line lines IH]; [constructor|].
  rewrite readConfigs_cons.
  destruct (parser.ParseLine line) as [cfg|] eqn:Hp; [|done].
  by constructor.
Qed.
End Read.

Lemma buildAliveEntries_from (acc : list web.AliveEntry) results entries :
  foldl (fun out r =>
           if negb (checker.Alive r) then out
           else out ++ [{| web.Result := r;
                           web.RawURI := rawURI_for entries r |}])
        acc results
  = acc ++ buildAliveEntries results entries.
Proof.
  unfold buildAliveEntries. revert acc.
  induction results as [|r rs IH] using rev_ind; intros acc.
  - by rewrite app_nil_r.
  - rewrite !foldl_app. cbn. rewrite IH.
    destruct (checker.Alive r); cbn; [|done]. by rewrite app_assoc.
Qed.

Lemma buildAliveEntries_cons r results entries :
  buildAliveEntries (r :: results) entries
  = if checker.Alive r
    then {| web.Result := r; web.RawURI := rawURI_for entries r |}
         :: buildAliveEntries results entries
    else buildAliveEntries results entries.
Proof.
  unfold buildAliveEntries at 1. cbn. rewrite buildAliveEntries_from.
  by destruct (checker.Alive r).
Qed.

Lemma buildAliveEntries_map results entries :
  buildAliveEntries results entries
  = map (fun r => {| web.Result := r; web.RawURI := rawURI_for entries r |})
        (List.filter checker.Alive results).
Proof.
  induction results as [|r rs IH]; [done|].
  rewrite buildAliveEntries_cons. cbn [List.filter].
  destruct (checker.Alive r); [cbn; by rewrite IH|done].
Qed.

Lemma rawURI_for_entry entries r i e :
  checker.Index r = Z.of_nat i + 1 -> entries !! i = Some e ->
  rawURI_for entries r = RawURI e.
Proof.
  intros Hi He. pose proof (lookup_lt_Some _ _ _ He). unfold rawURI_for.
  rewrite Hi.
  replace (Z.to_nat (Z.of_nat i + 1 - 1)) with i by lia. rewrite He.
  destruct (1 <=? _) eqn:H1; [|lia].
  destruct (_ <=? Z.of_nat (length entries)) eqn:H2; [done|lia].
Qed.

(** X20: [readConfigs] keeps the lines that parse, and only them, in the order
    of the input, each with the configuration it parses to. *)
Theorem readConfigs_keeps_parsed {lib : parser.Library} (lines : list string) :
  map RawURI (readConfigs lines) = List.filter parses lines
  /\ Forall (fun e => parser.ParseLine (RawURI e) = Ok (Config e))
            (readConfigs lines).
Proof.
  induction lines as [|line lines [IH1 IH2]]; [by split|].
  rewrite readConfigs_cons. cbn [List.filter]. unfold parses at 1.
  destruct (parser.ParseLine line) as [cfg|] eqn:Hp; [|by split].
  split; [cbn; by rewrite IH1|]. by constructor.
Qed.

(** X21: [buildAliveEntries] returns the alive results, all of them and in
    their order; a result whose index is that of an entry gets the raw
    URI of the entry, and one whose index is below 1 or beyond the
    entries gets the empty string. *)
Theorem buildAliveEntries_alive results entries :
  map web.Result (buildAliveEntries results entries)
  = List.filter checker.Alive results
  /\ map web.RawURI (buildAliveEntries results entries)
     = map (rawURI_for entries) (List.filter checker.Alive results)
  /\ forall r,
       (forall i e, checker.Index r = Z.of_nat i + 1 ->
          entries !! i = Some e -> rawURI_for entries r = RawURI e)
       /\ (checker.Index r < 1 \/ Z.of_nat (length entries) < checker.Index r ->
           rawURI_for entries r = EmptyString).
Proof.
  rewrite buildAliveEntries_map, !map_map. cbn. rewrite map_id.
  split; [done|]. split; [done|].
  intros r. split; [intros i e; apply rawURI_for_entry|].
  unfold rawURI_for. intros [H|H].
  - destruct (1 <=? _) eqn:H1; [lia|done].
  - destruct (_ <=? Z.of_nat (length entries)) eqn:H2; [lia|].
    by rewrite andb_false_r.
Qed.

(** After a run with at least one worker, the result at position [i] is
    that of the check of the [i]-th entry, and [buildAliveEntries] finds
    the raw URI of that entry for it. *)
Lemma result_entry {lib : parser.Library} lines workers timeout onResult s
    i r :
  1 <= workers ->
  rtc (checker.step (configs_of (readConfigs lines)) workers timeout onResult)
      (checker.init (configs_of (readConfigs lines))) s ->
  checker.pc s = checker.Returned ->
  checker.results s !! i = Some r ->
  exists e w,
    readConfigs lines !! i = Some e
    /\ (i, w) ∈ checker.checks s
    /\ r = fst (checker.CheckConfig (Z.of_nat i + 1) (Config e) timeout w)
    /\ rawURI_for (readConfigs lines) r = RawURI e.
Proof.
  intros Hw Hs Hpc Hi. apply checker_facts.invariant_rtc in Hs.
  pose proof (lookup_lt_Some _ _ _ Hi) as Hlt.
  rewrite (checker.inv_results _ _ _ _ Hs) in Hlt.
  unfold checker.total, configs_of in Hlt. rewrite length_map in Hlt.
  destruct (lookup_lt_is_Some_2 (readConfigs lines) i Hlt) as [e He].
  assert (configs_of (readConfigs lines) !! i = Some (Config e)) as Hcfg.
  { unfold configs_of. by rewrite list_lookup_fmap, He. }
  destruct (checker_facts.returned_slot _ _ _ s i _ Hw Hs Hpc Hcfg)
    as (w & Hck & Hr).
  assert (r = fst (checker.CheckConfig (Z.of_nat i + 1) (Config e) timeout w))
    as Er by congruence.
  exists e, w. split; [done|]. split; [done|]. split; [done|].
  apply (rawURI_for_entry _ _ i); [|done].
  rewrite Er. apply checker_facts.Index_CheckConfig.
Qed.

(** X22: the entries that [main] serves after a run of [CheckAll] with at
    least one worker on the configurations read from [lines]: each is
    an alive result of the run, and its raw URI is the line, the
    [i]-th of those that parse, whose configuration the run has checked
    with index [i+1] to get that result. *)
Theorem main_served_entries {lib : parser.Library} lines workers timeout
    onResult s :
  1 <= workers ->
  rtc (checker.step (configs_of (readConfigs lines)) workers timeout onResult)
      (checker.init (configs_of (readConfigs lines))) s ->
  checker.pc s = checker.Returned ->
  Forall (fun ae =>
            checker.Alive (web.Result ae) = true
            /\ exists i cfg w,
                 List.filter parses lines !! i = Some (web.RawURI ae)
                 /\ parser.ParseLine (web.RawURI ae) = Ok cfg
                 /\ (i, w) ∈ checker.checks s
                 /\ checker.results s !! i = Some (web.Result ae)
                 /\ web.Result ae
                    = fst (checker.CheckConfig (Z.of_nat i + 1) cfg timeout w))
         (buildAliveEntries (checker.results s) (readConfigs lines)).
Proof.
  intros Hw Hs Hpc.
  rewrite buildAliveEntries_map, Forall_map, Forall_forall.
  intros r Hin. apply list_elem_of_In, filter_In in Hin as [Hin Halive].
  cbn. split; [done|].
  apply list_elem_of_In, list_elem_of_lookup in Hin as [i Hi].
  destruct (result_entry lines workers timeout onResult s i r Hw Hs Hpc Hi)
    as (e & w & He & Hck & Er & ->).
  exists i, (Config e), w. split.
  { rewrite <- readConfigs_uris. by rewrite list_lookup_fmap, He. }
  split; [|done].
  pose proof (readConfigs_parsed lines) as Hp.
  rewrite Forall_forall in Hp. apply Hp.
  eapply list_elem_of_lookup_2; eauto.
Qed.

Lemma main_served_entries_witness :
  1 <= 2
  /\ forall s,
       rtc (checker.step
              (configs_of (@readConfigs samples.library [samples.ss_line]))
              2 (10 * checker.Second) false)
           (checker.init
              (configs_of (@readConfigs samples.library [samples.ss_line]))) s ->
       checker.pc s = checker.Returned ->
       Forall (fun ae => checker.Alive (web.Result ae) = true)
              (buildAliveEntries (checker.results s)
                 (@readConfigs samples.library [samples.ss_line])).
Proof.
  split; [lia|]. intros s Hs Hpc.
  eapply Forall_impl;
    [apply (@main_served_entries samples.library [samples.ss_line] 2
              (10 * checker.Second) false s); [lia|exact Hs|exact Hpc]|].
  cbn beta. intros ae H. apply H.
Defined.

(** ** The plain-text listing *)

Lemma uris_from (acc : list string) entries :
  foldl (fun uris e =>
           if negb (String.eqb (web.RawURI e) EmptyString)
           then uris ++ [web.RawURI e] else uris)
        acc entries
  = acc ++ web.uris entries.
Proof.
  unfold web.uris. revert acc.
  induction entries as [|e es IH] using rev_ind; intros acc.
  - by rewrite app_nil_r.
  - rewrite !foldl_app. cbn. rewrite IH.
    destruct (String.eqb _ _); cbn; [done|]. by rewrite app_assoc.
Qed.

Lemma uris_cons e entries :
  web.uris (e :: entries)
  = if String.eqb (web.RawURI e) EmptyString then web.uris entries
    else web.RawURI e :: web.uris entries.
Proof.
  unfold web.uris at 1. cbn. rewrite uris_from.
  by destruct (String.eqb _ _).
Qed.

Lemma uris_nonempty entries :
  Forall (fun e => web.RawURI e <> EmptyString) entries ->
  web.uris entries = map web.RawURI entries.
Proof.
  induction 1 as [|e es He _ IH]; [done|].
  rewrite uris_cons. apply String.eqb_neq in He. rewrite He. cbn.
  by rewrite IH.
Qed.

(** X23: what [/configs] serves after a run. When trimming the empty line
    gives the empty line, no line that parses is empty, so the test for
    an empty raw URI in [handleConfigs] drops nothing: after a run of
    [CheckAll] with at least one worker, the body is the raw URIs of all
    the alive results, one per line and in the order of the results. *)
Theorem handleConfigs_lists_alive {lib : parser.Library} lines workers
    timeout onResult s :
  parser.strings_TrimSpace EmptyString = EmptyString ->
  1 <= workers ->
  rtc (checker.step (configs_of (readConfigs lines)) workers timeout onResult)
      (checker.init (configs_of (readConfigs lines))) s ->
  checker.pc s = checker.Returned ->
  let entries := buildAliveEntries (checker.results s) (readConfigs lines) in
  web.handleConfigs entries
  = web.Join (map web.RawURI entries) (String "010" EmptyString)
  /\ length (map web.RawURI entries)
     = length (List.filter checker.Alive (checker.results s))
  /\ Forall (fun uri => uri ∈ lines /\ uri <> EmptyString)
            (map web.RawURI entries).
Proof.
  intros Htrim Hw Hs Hpc entries.
  assert (Forall (fun e => web.RawURI e ∈ lines
                           /\ web.RawURI e <> EmptyString) entries) as H.
  { unfold entries.
    rewrite buildAliveEntries_map, Forall_map, Forall_forall.
    intros r Hin. apply list_elem_of_In, filter_In in Hin as [Hin _].
    apply list_elem_of_In, list_elem_of_lookup in Hin as [i Hi].
    destruct (result_entry lines workers timeout onResult s i r Hw Hs Hpc Hi)
      as (e & w & He & _ & _ & Eu).
    cbn. rewrite Eu.
    assert (RawURI e ∈ List.filter parses lines) as Hin.
    { rewrite <- readConfigs_uris. apply list_elem_of_fmap.
      exists e. split; [done|]. eapply list_elem_of_lookup_2; eauto. }
    apply list_elem_of_In, filter_In in Hin as [Hin Hp]. split.
    - by apply list_elem_of_In.
    - intros E. rewrite E in Hp. unfold parses, parser.ParseLine in Hp.
      rewrite Htrim in Hp. discriminate. }
  split; [|split].
  - unfold web.handleConfigs. f_equal. apply uris_nonempty.
    eapply Forall_impl; [exact H|]. by intros e [_ ?].
  - unfold entries. by rewrite buildAliveEntries_map, !length_map.
  - by rewrite Forall_map.
Qed.

Lemma handleConfigs_lists_alive_witness :
  @parser.strings_TrimSpace samples.library EmptyString = EmptyString
  /\ 1 <= 2
  /\ forall s,
       rtc (checker.step
              (configs_of (@readConfigs samples.library [samples.ss_line]))
              2 (10 * checker.Second) false)
           (checker.init
              (configs_of (@readConfigs samples.library [samples.ss_line]))) s ->
       checker.pc s = checker.Returned ->
       Forall (fun uri => uri ∈ [samples.ss_line] /\ uri <> EmptyString)
              (map web.RawURI
                 (buildAliveEntries (checker.results s)
                    (@readConfigs samples.library [samples.ss_line]))).
Proof.
  split; [reflexivity|]. split; [lia|]. intros s Hs Hpc.
  exact (proj2 (proj2 (@handleConfigs_lists_alive samples.library
                         [samples.ss_line] 2 (10 * checker.Second) false s
                         eq_refl ltac:(lia) Hs Hpc))).
Defined.

(** ** The counters of the summary *)

Lemma tally_from {A} (f : A -> bool) (l : list A) (acc : Z) :
  foldl (fun alive x => if f x then alive + 1 else alive) acc l
  = acc + Z.of_nat (length (List.filter f l)).
Proof.
  revert acc. induction l as [|x l IH]; intros acc; cbn; [lia|].
  rewrite IH. destruct (f x); cbn; lia.
Qed.

Lemma filter_length_perm {A} (f : A -> bool) (l k : list A) :
  l ≡ₚ k -> length (List.filter f l) = length (List.filter f k).
Proof.
  induction 1 as [|x l k _ IH|x y l|l k m _ IH1 _ IH2]; cbn;
    [done| |by destruct (f x), (f y)|congruence].
  destruct (f x); cbn; by rewrite IH.
Qed.

Lemma filter_fmap_length {A B} (f : B -> bool) (g : A -> B) (l : list A) :
  length (List.filter (fun x => f (g x)) l)
  = length (List.filter f (g <$> l)).
Proof.
  induction l as [|x l IH]; [done|]. cbn.
  destruct (f (g x)); cbn; by rewrite IH.
Qed.

Lemma in_publish_exited (p : list checker.worker) :
  Forall (fun wk => wk = checker.Exited) p -> checker_ghost.in_publish p = [].
Proof. induction 1 as [|wk p -> _ IH]; [done|]. exact IH. Qed.

Lemma fmap_lookup_seq {A} (l : list A) (d : A) :
  (fun i => default d (l !! i)) <$> seq 0 (length l) = l.
Proof.
  apply list_eq. intros i. rewrite list_lookup_fmap.
  destruct (decide (i < length l)%nat) as [Hi|Hi].
  - rewrite lookup_seq_lt by done. cbn.
    destruct (lookup_lt_is_Some_2 l i Hi) as [x ->]. done.
  - rewrite lookup_seq_ge by lia. cbn. symmetry.
    apply lookup_ge_None. lia.
Qed.

(** When [CheckAll] has returned, the results that the callback was given
    are the results in the slice, in some order; without workers the
    callback was given none and the slice holds zero values. *)
Lemma calls_results configs workers timeout s :
  rtc (checker.step configs workers timeout true) (checker.init configs) s ->
  checker.pc s = checker.Returned ->
  checker_ghost.call_result <$> checker.calls s ≡ₚ checker.results s
  \/ (checker.calls s = []
      /\ checker.results s
         = replicate (length configs) checker.zeroResult).
Proof.
  intros Hs Hpc.
  destruct (orchestrator_facts.callback_rtc configs workers timeout true s Hs)
    as [Hinv Hcb].
  pose proof (checker.inv_returned _ _ _ _ Hinv Hpc) as Hex.
  pose proof (checker_ghost.cb_slots _ _ _ Hcb eq_refl) as Hslots.
  pose proof (checker_ghost.cb_results _ _ _ Hcb) as Hres.
  rewrite (in_publish_exited _ Hex), (checker_facts.in_check_exited _ Hex),
    !app_nil_r in Hslots.
  destruct (Z_le_gt_dec 1 workers) as [Hw|Hw].
  - left.
    rewrite (checker_facts.returned_received _ _ _ s Hw Hinv Hpc) in Hslots.
    rewrite <- (checker.inv_results _ _ _ _ Hinv) in Hslots.
    assert (checker.results s
            = (fun i => default checker.zeroResult (checker.results s !! i))
              <$> seq 0 (length (checker.results s))) as Er
      by (symmetry; apply fmap_lookup_seq).
    rewrite Er at 1. rewrite <- Hslots.
    enough (checker_ghost.call_result <$> checker.calls s
            = (fun i => default checker.zeroResult (checker.results s !! i))
              <$> map (fun c => checker_ghost.slot (checker_ghost.call_result c))
                      (checker.calls s)) as -> by done.
    change (map ?f ?l) with (f <$> l). rewrite <- list_fmap_compose.
    apply list_fmap_ext. intros i c Hc. cbn.
    rewrite (Hres c); [done|]. by eapply list_elem_of_lookup_2.
  - right.
    pose proof (checker.inv_pool _ _ _ _ Hinv) as Hpool.
    rewrite Hpc in Hpool.
    assert (checker.pool s = []) as Hnil
      by (apply length_zero_iff_nil; lia).
    destruct (checker.inv_untouched _ _ _ _ Hinv Hnil) as [Hr Hck].
    pose proof (checker.inv_once _ _ _ _ Hinv) as Honce.
    rewrite Hck, Hnil in Honce. cbn in Honce.
    apply Permutation_length in Honce. rewrite length_seq in Honce.
    rewrite <- Honce in Hslots. cbn in Hslots.
    apply Permutation_nil_r in Hslots.
    split; [|exact Hr].
    by destruct (checker.calls s).
Qed.

(** X24: the two counts of alive results that the command prints agree. One
    is kept by the callback while [CheckAll] runs, the other is taken by
    [printTable] from the slice that [CheckAll] has returned; both equal
    the number of entries that [buildAliveEntries] builds, and lie
    between zero and the number of configurations, so the count of dead
    results is not negative. *)
Theorem main_alive_counts configs workers timeout s entries :
  rtc (checker.step configs workers timeout true) (checker.init configs) s ->
  checker.pc s = checker.Returned ->
  alive_after (checker.calls s) = printTable_alive (checker.results s)
  /\ alive_after (checker.calls s)
     = Z.of_nat (length (buildAliveEntries (checker.results s) entries))
  /\ 0 <= alive_after (checker.calls s) <= Z.of_nat (length configs).
Proof.
  intros Hs Hpc.
  pose proof (checker.inv_results _ _ _ _
                (checker_facts.invariant_rtc _ _ _ _ s Hs)) as Hlen.
  unfold checker.total in Hlen.
  unfold alive_after, printTable_alive. rewrite !tally_from, !Z.add_0_l.
  rewrite buildAliveEntries_map, length_map.
  assert (length (List.filter (fun c => checker.Alive c.1.1) (checker.calls s))
          = length (List.filter checker.Alive (checker.results s))) as E.
  { destruct (calls_results configs workers timeout s Hs Hpc)
      as [Hperm|[-> ->]].
    - rewrite <- (filter_length_perm _ _ _ Hperm).
      apply (filter_fmap_length checker.Alive checker_ghost.call_result).
    - cbn. symmetry. apply length_zero_iff_nil. clear.
      induction (length configs) as [|n IH]; [done|exact IH]. }
  rewrite E. split; [done|]. split; [done|].
  pose proof (filter_length checker.Alive (checker.results s)). lia.
Qed.

Lemma main_alive_counts_witness :
  alive_after (checker.calls samples.returned_without_workers) = 0
  /\ printTable_alive (checker.results samples.returned_without_workers) = 0.
Proof.
  split; [reflexivity|].
  rewrite <- (proj1 (main_alive_counts [samples.config] 0
                       (10 * checker.Second)
                       samples.returned_without_workers []
                       (checker_facts.run_without_workers _ _) eq_refl)).
  reflexivity.
Defined.
End main_facts.
